(** * my-kms: envelope encryption, master-key store and RBAC

    A shallow embedding of the Go packages [internal/auth],
    [internal/crypto], [internal/storage], [internal/config] and
    [internal/server] of the KMS service and of the start of [main],
    together with executable models of the library calls they rely on
    (crypto/aes, crypto/cipher's GCM, crypto/rand, google/uuid,
    encoding/base64, strings.Split and the Mongo collection behind the DEK
    store).  The user store's one call into the Mongo driver, the scan of the
    Authorization header and the Firebase client are parameters.

    Conventions.
    - A Go [[]byte] is a [list Z]; a byte is a [Z] in [0, 256).  Lengths are
      natural numbers: no limit on sizes is modelled, neither the range of
      [int] nor the cap of crypto/cipher's GCM on the length of a message.
    - A Go [error] is its message (a [string]); a call that can fail
      returns a [result], which also has a [Panic] outcome for run-time
      panics (slice bounds, uuid.New on a failing random source).
    - The process-wide random source [rand.Reader] is an explicit tape of
      bytes threaded through every function that draws from it.
    - The store's mutex is not modelled: every method body below runs
      atomically, which is what the RWMutex provides for the map and the
      active-key pointer.
    - A handler sees the identity in the request's context and the outcome
      of decoding the JSON body; the JSON text itself and the log lines are
      not modelled. *)

From Stdlib Require Import ZArith List Lia Bool Ascii DecimalString.
From stdpp Require Import gmap strings list fin_maps.

Local Open Scope Z_scope.

(** ** Results and errors *)

Definition error := string.
Definition bytes := list Z.

Inductive result (A : Type) : Type :=
| Ok (a : A)
| Err (e : error)
| Panic (msg : string).

Arguments Ok {A} a.
Arguments Err {A} e.
Arguments Panic {A} msg.

Definition bind {A B : Type} (r : result A) (k : A -> result B) : result B :=
  match r with
  | Ok a => k a
  | Err e => Err e
  | Panic m => Panic m
  end.

(** [fmt.Errorf("<prefix>: %w", err)] on the error path of a call. *)
Definition wrap_err {A : Type} (pre : string) (r : result A) : result A :=
  match r with
  | Err e => Err (pre +:+ ": " +:+ e)
  | _ => r
  end.

Definition is_ok {A : Type} (r : result A) : bool :=
  match r with Ok _ => true | _ => false end.

Definition is_panic {A : Type} (r : result A) : bool :=
  match r with Panic _ => true | _ => false end.

(** ** Byte strings and Go slice expressions *)

Definition xor_bytes (a b : bytes) : bytes :=
  map (fun '(x, y) => Z.lxor x y) (combine a b).

(** [s[:n]]: panics when [n] exceeds the length. *)
Definition slice_to (n : nat) (s : bytes) : result bytes :=
  if (n <=? length s)%nat then Ok (firstn n s)
  else Panic "slice bounds out of range".

(** [s[n:]]: panics when [n] exceeds the length. *)
Definition slice_from (n : nat) (s : bytes) : result bytes :=
  if (n <=? length s)%nat then Ok (skipn n s)
  else Panic "slice bounds out of range".

(** Big-endian conversions between byte strings and integers. *)
Definition be_to_Z (bs : bytes) : Z :=
  fold_left (fun acc b => Z.lor (Z.shiftl acc 8) b) bs 0.

Definition Z_to_be (n : nat) (v : Z) : bytes :=
  map (fun i => Z.land (Z.shiftr v (8 * Z.of_nat (n - 1 - i))) 255) (seq 0 n).

Definition hexdigit (d : Z) : ascii :=
  if d <? 10 then ascii_of_nat (Z.to_nat (48 + d))
  else ascii_of_nat (Z.to_nat (87 + d)).

(** [hex.EncodeToString]: two lower-case digits per byte. *)
Fixpoint hex_encode (bs : bytes) : string :=
  match bs with
  | [] => EmptyString
  | b :: r =>
      String (hexdigit (Z.land (Z.shiftr b 4) 15))
        (String (hexdigit (Z.land b 15)) (hex_encode r))
  end.

Definition hexval (c : ascii) : option Z :=
  let n := Z.of_nat (nat_of_ascii c) in
  if (48 <=? n) && (n <=? 57) then Some (n - 48)
  else if (97 <=? n) && (n <=? 102) then Some (n - 87)
  else if (65 <=? n) && (n <=? 70) then Some (n - 55)
  else None.

(** [hex.DecodeString]: fails on an odd length or a non-hex character. *)
Fixpoint hex_decode (s : string) : option bytes :=
  match s with
  | EmptyString => Some []
  | String c1 (String c2 r) =>
      match hexval c1, hexval c2, hex_decode r with
      | Some h, Some l, Some bs => Some (Z.lor (Z.shiftl h 4) l :: bs)
      | _, _, _ => None
      end
  | String _ EmptyString => None
  end.

(** ** crypto/aes: the AES block cipher (FIPS 197) *)

Module aes.

Definition BlockSize : nat := 16.

(** Multiplication by x in GF(2^8) modulo x^8 + x^4 + x^3 + x + 1. *)
Definition xtime (b : Z) : Z :=
  let b2 := Z.shiftl b 1 in
  if Z.testbit b2 8 then Z.lxor (Z.land b2 255) 27 else b2.

Fixpoint gmul_aux (n : nat) (a b p : Z) : Z :=
  match n with
  | O => p
  | S n' =>
      gmul_aux n' (xtime a) (Z.shiftr b 1)
               (if Z.testbit b 0 then Z.lxor p a else p)
  end.

Definition gmul (a b : Z) : Z := gmul_aux 8 a b 0.

Definition gsq (a : Z) : Z := gmul a a.

(** The multiplicative inverse is a^254 (and 0 for 0). *)
Definition ginv (a : Z) : Z :=
  let a2 := gsq a in
  let a4 := gsq a2 in
  let a8 := gsq a4 in
  let a16 := gsq a8 in
  let a32 := gsq a16 in
  let a64 := gsq a32 in
  let a128 := gsq a64 in
  gmul a128 (gmul a64 (gmul a32 (gmul a16 (gmul a8 (gmul a4 a2))))).

Definition rotl8 (b : Z) (n : Z) : Z :=
  Z.land (Z.lor (Z.shiftl b n) (Z.shiftr b (8 - n))) 255.

Definition sbox_calc (a : Z) : Z :=
  let x := ginv a in
  Z.lxor x (Z.lxor (rotl8 x 1) (Z.lxor (rotl8 x 2)
    (Z.lxor (rotl8 x 3) (Z.lxor (rotl8 x 4) 99)))).

Definition sbox_table : list Z :=
  Eval vm_compute in map (fun i => sbox_calc (Z.of_nat i)) (seq 0 256).

Definition sbox (b : Z) : Z := nth (Z.to_nat b) sbox_table 0.

Definition SubBytes (st : bytes) : bytes := map sbox st.

Definition at16 (st : bytes) (i : nat) : Z := nth i st 0.

(** The state is held column by column: byte [4*c + r] is row [r] of
    column [c].  Row [r] is rotated left by [r] columns. *)
Definition ShiftRows (st : bytes) : bytes :=
  map (fun i => let r := (i mod 4)%nat in let c := (i / 4)%nat in
                at16 st (4 * ((c + r) mod 4) + r)) (seq 0 16).

Definition mix_column (a0 a1 a2 a3 : Z) : bytes :=
  [ Z.lxor (gmul 2 a0) (Z.lxor (gmul 3 a1) (Z.lxor a2 a3));
    Z.lxor a0 (Z.lxor (gmul 2 a1) (Z.lxor (gmul 3 a2) a3));
    Z.lxor a0 (Z.lxor a1 (Z.lxor (gmul 2 a2) (gmul 3 a3)));
    Z.lxor (gmul 3 a0) (Z.lxor a1 (Z.lxor a2 (gmul 2 a3))) ].

Definition MixColumns (st : bytes) : bytes :=
  flat_map (fun c => mix_column (at16 st (4 * c)) (at16 st (4 * c + 1))
                                (at16 st (4 * c + 2)) (at16 st (4 * c + 3)))
           (seq 0 4).

Definition AddRoundKey (st rk : bytes) : bytes :=
  map (fun i => Z.lxor (at16 st i) (at16 rk i)) (seq 0 16).

(** Key schedule.  A word is four bytes; [w] grows by one word a step. *)
Definition word_at (w : list bytes) (i : nat) : bytes := nth i w [0; 0; 0; 0].

Definition RotWord (w : bytes) : bytes :=
  match w with
  | a :: r => r ++ [a]
  | [] => []
  end.

Definition SubWord (w : bytes) : bytes := map sbox w.

Definition Rcon (j : nat) : bytes :=
  [Nat.iter (j - 1) xtime 1; 0; 0; 0].

Definition next_word (Nk : nat) (w : list bytes) : bytes :=
  let i := length w in
  let temp := word_at w (i - 1) in
  let temp :=
    if (i mod Nk =? 0)%nat then xor_bytes (SubWord (RotWord temp)) (Rcon (i / Nk))
    else if ((6 <? Nk) && (i mod Nk =? 4))%nat then SubWord temp
    else temp in
  xor_bytes (word_at w (i - Nk)) temp.

Fixpoint chunks4 (n : nat) (bs : bytes) : list bytes :=
  match n with
  | O => []
  | S n' => firstn 4 bs :: chunks4 n' (skipn 4 bs)
  end.

Definition KeyExpansion (key : bytes) : list bytes :=
  let Nk := (length key / 4)%nat in
  let Nr := (Nk + 6)%nat in
  Nat.iter (4 * (Nr + 1) - Nk) (fun w => w ++ [next_word Nk w])
           (chunks4 Nk key).

Definition round_key (w : list bytes) (r : nat) : bytes :=
  word_at w (4 * r) ++ word_at w (4 * r + 1)
    ++ word_at w (4 * r + 2) ++ word_at w (4 * r + 3).

(** [cipher.Block] as returned by [aes.NewCipher]: the expanded key. *)
Record Block := { rounds : nat; enc : list bytes }.

(** [aes.NewCipher]: the key must be 16, 24 or 32 bytes. *)
Definition NewCipher (key : bytes) : result Block :=
  let k := length key in
  if ((k =? 16) || (k =? 24) || (k =? 32))%nat then
    Ok {| rounds := (k / 4 + 6)%nat; enc := KeyExpansion key |}
  else
    Err ("crypto/aes: invalid key size "
           +:+ NilEmpty.string_of_uint (Nat.to_uint k)).

Fixpoint middle_rounds (w : list bytes) (r n : nat) (st : bytes) : bytes :=
  match n with
  | O => st
  | S n' =>
      middle_rounds w (S r) n'
        (AddRoundKey (MixColumns (ShiftRows (SubBytes st))) (round_key w r))
  end.

(** [Block.Encrypt] on one 16-byte block. *)
Definition Encrypt (b : Block) (src : bytes) : bytes :=
  let w := enc b in
  let st := AddRoundKey src (round_key w 0) in
  let st := middle_rounds w 1 (rounds b - 1) st in
  AddRoundKey (ShiftRows (SubBytes st)) (round_key w (rounds b)).

End aes.

Arguments aes.Encrypt : simpl never.
Arguments aes.KeyExpansion : simpl never.

(** ** crypto/cipher: Galois/Counter Mode (NIST SP 800-38D) *)

Module cipher.

Definition gcmBlockSize : nat := 16.
Definition gcmTagSize : nat := 16.
Definition gcmStandardNonceSize : nat := 12.

Definition errOpen : error := "cipher: message authentication failed".

(** What [cipher.NewGCM] returns: the block cipher with the standard
    nonce and tag sizes. *)
Record AEAD := { block : aes.Block; nonceSize : nat; tagSize : nat }.

Definition NewGCM (b : aes.Block) : result AEAD :=
  if (aes.BlockSize =? gcmBlockSize)%nat then
    Ok {| block := b; nonceSize := gcmStandardNonceSize; tagSize := gcmTagSize |}
  else Err "cipher: NewGCM requires 128-bit block cipher".

Definition NonceSize (g : AEAD) : nat := nonceSize g.

(** Multiplication in GF(2^128); a block is read big-endian, so the
    first bit of the block is bit 127 of the integer. *)
Definition gcmR : Z := Z.shiftl 225 120.

Fixpoint gf128_mul_aux (n : nat) (x v z : Z) : Z :=
  match n with
  | O => z
  | S n' =>
      gf128_mul_aux n' x
        (if Z.testbit v 0 then Z.lxor (Z.shiftr v 1) gcmR else Z.shiftr v 1)
        (if Z.testbit x (Z.of_nat n') then Z.lxor z v else z)
  end.

Definition gf128_mul (x y : Z) : Z := gf128_mul_aux 128 x y 0.

(** The 16-byte blocks of [bs], the last one padded with zeros. *)
Fixpoint blocks_of (n : nat) (bs : bytes) : list Z :=
  match n with
  | O => []
  | S n' =>
      match bs with
      | [] => []
      | _ =>
          be_to_Z (firstn 16 (bs ++ repeat 0 15)) :: blocks_of n' (skipn 16 bs)
      end
  end.

Definition ghash (h : Z) (data ct : bytes) : Z :=
  let lens :=
    Z.lor (Z.shiftl (8 * Z.of_nat (length data)) 64)
          (8 * Z.of_nat (length ct)) in
  fold_left (fun y x => gf128_mul (Z.lxor y x) h)
    (blocks_of (length data) data ++ blocks_of (length ct) ct ++ [lens]) 0.

(** [gcmInc32]: the last four bytes of the counter block, incremented
    modulo 2^32. *)
Definition inc32 (ctr : bytes) : bytes :=
  firstn 12 ctr ++ Z_to_be 4 ((be_to_Z (skipn 12 ctr) + 1) mod 2 ^ 32).

(** [counterCrypt]: XOR with the key stream, one block a step. *)
Fixpoint counterCrypt (n : nat) (b : aes.Block) (ctr : bytes) (inp : bytes)
  : bytes :=
  match n with
  | O => []
  | S n' =>
      match inp with
      | [] => []
      | _ =>
          xor_bytes (firstn 16 inp) (aes.Encrypt b ctr)
            ++ counterCrypt n' b (inc32 ctr) (skipn 16 inp)
      end
  end.

(** [deriveCounter] for the standard 12-byte nonce. *)
Definition deriveCounter (nonce : bytes) : bytes := nonce ++ [0; 0; 0; 1].

Definition auth (g : AEAD) (ct data tagMask : bytes) : bytes :=
  let h := be_to_Z (aes.Encrypt (block g) (repeat 0 16)) in
  xor_bytes (Z_to_be 16 (ghash h data ct)) tagMask.

(** [subtle.ConstantTimeCompare(x, y) == 1]. *)
Definition ConstantTimeCompare (x y : bytes) : bool :=
  (length x =? length y)%nat
  && forallb (fun '(a, b) => a =? b) (combine x y).

(** [Seal] appends the ciphertext and the tag to [dst]. *)
Definition Seal (g : AEAD) (dst nonce plaintext data : bytes) : result bytes :=
  if negb (length nonce =? nonceSize g)%nat then
    Panic "crypto/cipher: incorrect nonce length given to GCM"
  else
    let counter := deriveCounter nonce in
    let tagMask := aes.Encrypt (block g) counter in
    let ct := counterCrypt (length plaintext) (block g) (inc32 counter) plaintext in
    Ok (dst ++ ct ++ auth g ct data tagMask).

(** [Open] checks the tag before it releases the plaintext. *)
Definition Open (g : AEAD) (dst nonce ciphertext data : bytes) : result bytes :=
  if negb (length nonce =? nonceSize g)%nat then
    Panic "crypto/cipher: incorrect nonce length given to GCM"
  else if (length ciphertext <? tagSize g)%nat then Err errOpen
  else
    let n := (length ciphertext - tagSize g)%nat in
    let tag := skipn n ciphertext in
    let ct := firstn n ciphertext in
    let counter := deriveCounter nonce in
    let tagMask := aes.Encrypt (block g) counter in
    let expectedTag := auth g ct data tagMask in
    if negb (ConstantTimeCompare (firstn (tagSize g) expectedTag) tag) then
      Err errOpen
    else
      Ok (dst ++ counterCrypt (length ct) (block g) (inc32 counter) ct).

End cipher.

(** ** crypto/rand, google/uuid, encoding/base64 *)

Module rand.

(** The random source: the bytes it will deliver, in order. *)
Definition Reader := bytes.

(** [rand.Read(buf)] and [io.ReadFull(rand.Reader, buf)] with
    [len(buf) = n]: all [n] bytes, or an error when the source runs dry.
    The error is what [io.ReadFull] returns, and [rand.Read] with it up to
    Go 1.23; from Go 1.24 [rand.Read] ends the process instead of returning
    an error.  The statements about [GenerateKey], [EncryptDataKey] and
    [RotateMasterKey], which call [rand.Read], say nothing that depends on
    which of the two it is. *)
Definition Read (n : nat) (r : Reader) : result bytes * Reader :=
  if (n <=? length r)%nat then (Ok (firstn n r), skipn n r)
  else (Err (if (length r =? 0)%nat then "EOF" else "unexpected EOF"), []).

End rand.

(** A computation that draws from the random source. *)
Definition Rand (A : Type) : Type := rand.Reader -> result A * rand.Reader.

Definition ret {A : Type} (r : result A) : Rand A := fun rnd => (r, rnd).

Definition bindR {A B : Type} (c : Rand A) (k : A -> Rand B) : Rand B :=
  fun rnd =>
    match c rnd with
    | (Ok a, rnd') => k a rnd'
    | (Err e, rnd') => (Err e, rnd')
    | (Panic m, rnd') => (Panic m, rnd')
    end.

Declare Scope rand_scope.
Delimit Scope rand_scope with rand.
Notation "'let*' x ':=' c 'in' k" := (bindR c (fun x => k))
  (at level 10, x name, c at level 100, k at level 200) : rand_scope.

(** [if err != nil { return ..., fmt.Errorf("<prefix>: %w", err) }]. *)
Definition wrapR {A : Type} (pre : string) (c : Rand A) : Rand A :=
  fun rnd => let '(r, rnd') := c rnd in (wrap_err pre r, rnd').

Module uuid.

(** [uuid.NewRandom]: sixteen random bytes, then the version (4) and
    variant (10) bits. *)
Definition NewRandom : Rand bytes :=
  fun rnd =>
    match rand.Read 16 rnd with
    | (Ok u, rnd') =>
        let u := alter (fun b => Z.lor (Z.land b 15) 64) 6%nat u in
        let u := alter (fun b => Z.lor (Z.land b 63) 128) 8%nat u in
        (Ok u, rnd')
    | other => other
    end.

(** [uuid.New] is [uuid.Must(uuid.NewRandom())]: it panics on an error. *)
Definition New : Rand bytes :=
  fun rnd =>
    match NewRandom rnd with
    | (Err e, rnd') => (Panic e, rnd')
    | other => other
    end.

(** [UUID.String]: xxxxxxxx-xxxx-xxxx-xxxx-xxxxxxxxxxxx. *)
Definition String (u : bytes) : string :=
  hex_encode (firstn 4 u) +:+ "-" +:+ hex_encode (firstn 2 (skipn 4 u))
    +:+ "-" +:+ hex_encode (firstn 2 (skipn 6 u))
    +:+ "-" +:+ hex_encode (firstn 2 (skipn 8 u))
    +:+ "-" +:+ hex_encode (skipn 10 u).

End uuid.

Module base64.

Definition encodeStd : list ascii :=
  String.list_ascii_of_string
    "ABCDEFGHIJKLMNOPQRSTUVWXYZabcdefghijklmnopqrstuvwxyz0123456789+/".

Definition digit (v : Z) : ascii :=
  nth (Z.to_nat (Z.land v 63)) encodeStd "="%char.

(** [base64.StdEncoding.EncodeToString]. *)
Fixpoint EncodeToString (src : bytes) : string :=
  match src with
  | [] => EmptyString
  | [a] =>
      String (digit (Z.shiftr a 2))
        (String (digit (Z.shiftl (Z.land a 3) 4)) "==")
  | [a; b] =>
      String (digit (Z.shiftr a 2))
        (String (digit (Z.lor (Z.shiftl (Z.land a 3) 4) (Z.shiftr b 4)))
           (String (digit (Z.shiftl (Z.land b 15) 2)) "="))
  | a :: b :: c :: r =>
      String (digit (Z.shiftr a 2))
        (String (digit (Z.lor (Z.shiftl (Z.land a 3) 4) (Z.shiftr b 4)))
           (String (digit (Z.lor (Z.shiftl (Z.land b 15) 2) (Z.shiftr c 6)))
              (String (digit c) (EncodeToString r))))
  end.

(** [decodeMap]: the value of an alphabet character. *)
Fixpoint indexOf (c : ascii) (l : list ascii) (i : Z) : option Z :=
  match l with
  | [] => None
  | x :: r => if Ascii.eqb x c then Some i else indexOf c r (i + 1)
  end.

Definition decodeChar (c : ascii) : option Z := indexOf c encodeStd 0.

Definition isNewline (c : ascii) : bool :=
  Ascii.eqb c "010"%char || Ascii.eqb c "013"%char.

Definition isPad (c : ascii) : bool := Ascii.eqb c "="%char.

(** [CorruptInputError(n).Error()]. *)
Definition CorruptInputError (n : nat) : error :=
  "illegal base64 data at input byte " +:+ NilEmpty.string_of_uint (Nat.to_uint n).

(** The bytes of a quantum of two, three or four 6-bit values: one byte
    less than values, the trailing bits dropped. *)
Definition quantumBytes (dbuf : list Z) : bytes :=
  let val := Z.lor (Z.shiftl (nth 0 dbuf 0) 18)
               (Z.lor (Z.shiftl (nth 1 dbuf 0) 12)
                  (Z.lor (Z.shiftl (nth 2 dbuf 0) 6) (nth 3 dbuf 0))) in
  firstn (length dbuf - 1)
    [Z.land (Z.shiftr val 16) 255; Z.land (Z.shiftr val 8) 255; Z.land val 255].

Fixpoint skipNewlines (src : list ascii) (si : nat) : list ascii * nat :=
  match src with
  | c :: rest => if isNewline c then skipNewlines rest (S si) else (src, si)
  | [] => ([], si)
  end.

(** After the padding of the last quantum: only newlines may follow. *)
Definition afterPadding (rest : list ascii) (si : nat) (dbuf : list Z)
    (dst : bytes) : result bytes :=
  match skipNewlines rest si with
  | ([], _) => Ok (dst ++ quantumBytes dbuf)
  | (_ :: _, si') => Err (CorruptInputError si')
  end.

(** The loop of [Decode] with [decodeQuantum] inlined: [si] is the index of
    the next character, [len] the length of the whole input, [dbuf] the
    values of the quantum so far and [dst] the bytes decoded so far.
    Newlines are skipped wherever they stand. *)
Fixpoint decodeFrom (src : list ascii) (si len : nat) (dbuf : list Z)
    (dst : bytes) : result bytes :=
  match src with
  | [] =>
      match dbuf with
      | [] => Ok dst
      | _ :: _ => Err (CorruptInputError (si - length dbuf))
      end
  | c :: rest =>
      match decodeChar c with
      | Some v =>
          if (length dbuf =? 3)%nat then
            decodeFrom rest (S si) len [] (dst ++ quantumBytes (dbuf ++ [v]))
          else decodeFrom rest (S si) len (dbuf ++ [v]) dst
      | None =>
          if isNewline c then decodeFrom rest (S si) len dbuf dst
          else if negb (isPad c) then Err (CorruptInputError si)
          else
            match length dbuf with
            | 0%nat | 1%nat => Err (CorruptInputError si)
            | 2%nat =>
                match skipNewlines rest (S si) with
                | ([], _) => Err (CorruptInputError len)
                | (c2 :: rest2, si2) =>
                    if negb (isPad c2) then Err (CorruptInputError (si2 - 1))
                    else afterPadding rest2 (S si2) dbuf dst
                end
            | _ => afterPadding rest (S si) dbuf dst
            end
      end
  end.

(** [base64.StdEncoding.DecodeString]; on an error the bytes decoded so
    far, which the callers drop, are not returned. *)
Definition DecodeString (s : string) : result bytes :=
  decodeFrom (String.list_ascii_of_string s) 0 (String.length s) [] [].

End base64.

(** ** internal/auth/rbac.go *)

Module auth.

Definition Role := string.

Definition RoleAdmin : Role := "ADMIN".
Definition RoleService : Role := "SERVICE".
Definition RoleAuditor : Role := "AUDITOR".

Definition Action := string.

Definition ActionGenerateDataKey : Action := "GENERATE_DATA_KEY".
Definition ActionEncrypt : Action := "ENCRYPT".
Definition ActionDecrypt : Action := "DECRYPT".
Definition ActionRotateMasterKey : Action := "ROTATE_MASTER_KEY".

(** Modelled from the spec: the source declares the four actions above
    and no constant for deleting a data key; section 3 of the
    specification names the fifth action [DELETE_DATA_KEY]. *)
Definition ActionDeleteDataKey : Action := "DELETE_DATA_KEY".

(** The struct's field [Role] is the projection [IdRole] here, the name
    [Role] being taken by the type. *)
Record Identity := { Name : string; IdRole : Role }.

(** [IsAuthorized]: [None] is the nil error. *)
Definition IsAuthorized (id : Identity) (action : Action) : option error :=
  if String.eqb (IdRole id) RoleAdmin then None
  else if String.eqb (IdRole id) RoleService then
    if String.eqb action ActionGenerateDataKey
       || String.eqb action ActionEncrypt
       || String.eqb action ActionDecrypt
    then None
    else Some "action not authorized for SERVICE role"
  else if String.eqb (IdRole id) RoleAuditor then
    Some "action not authorized for AUDITOR role"
  else Some "unknown role".

End auth.

(** ** internal/crypto/aes.go *)

Module crypto.

Local Open Scope rand_scope.

Definition KeySize : nat := 32.

Definition EncryptAES256GCM (key plaintext : bytes) : Rand bytes :=
  let* block := ret (wrap_err "failed to create AES cipher" (aes.NewCipher key)) in
  let* gcm := ret (wrap_err "failed to create GCM cipher" (cipher.NewGCM block)) in
  let* nonce := wrapR "failed to generate nonce" (rand.Read (cipher.NonceSize gcm)) in
  ret (cipher.Seal gcm nonce nonce plaintext []).

Definition DecryptAES256GCM (key ciphertext : bytes) : result bytes :=
  bind (wrap_err "failed to create AES cipher" (aes.NewCipher key)) (fun block =>
  bind (wrap_err "failed to create GCM cipher" (cipher.NewGCM block)) (fun gcm =>
  let nonceSize := cipher.NonceSize gcm in
  if (length ciphertext <? nonceSize)%nat then Err "ciphertext too short"
  else
    bind (slice_to nonceSize ciphertext) (fun nonce =>
    bind (slice_from nonceSize ciphertext) (fun actualCipher =>
    wrap_err "failed to decrypt ciphertext"
             (cipher.Open gcm [] nonce actualCipher []))))).

(** The other copy of the file words the error "failed to generate DEK". *)
Definition GenerateKey : Rand bytes :=
  wrapR "failed to generate key" (rand.Read KeySize).

End crypto.

(** ** The Mongo collection behind the DEK store

    The driver and the server are outside the repository.  A collection is
    its documents by [_id], the counter from which the driver draws the next
    [_id], and whether the server can be reached; an unreachable server
    fails every call. *)

Module mongo.

Definition ObjectID := bytes.

Definition ErrInvalidHex : error :=
  "the provided hex string is not a valid ObjectID".
Definition ErrNoDocuments : error := "mongo: no documents in result".

(** [primitive.ObjectIDFromHex]: 24 hex digits.  The text of the error of
    encoding/hex goes on with the offending byte, which is left out here. *)
Definition ObjectIDFromHex (s : string) : result ObjectID :=
  if negb (String.length s =? 24)%nat then Err ErrInvalidHex
  else match hex_decode s with
       | Some oid => Ok oid
       | None => Err "encoding/hex: invalid byte"
       end.

Definition Hex (oid : ObjectID) : string := hex_encode oid.

Record Collection (D : Type) :=
  { docs : gmap ObjectID D; nextID : Z; reachable : bool }.
Arguments docs {D} c.
Arguments nextID {D} c.
Arguments reachable {D} c.

(** The driver's error when no server can be selected.  Its text goes on
    with the timeout and the topology; only its first words are kept, and
    nothing is stated about it. *)
Definition unreachable : error := "server selection error".

(** [InsertOne] of a document without [_id]: the driver assigns one. *)
Definition InsertOne {D : Type} (c : Collection D) (mk : ObjectID -> D)
  : result ObjectID * Collection D :=
  if negb (reachable c) then (Err unreachable, c)
  else
    let oid := Z_to_be 12 (nextID c) in
    match docs c !! oid with
    | Some _ => (Err "E11000 duplicate key error", c)
    | None =>
        (Ok oid, {| docs := <[oid := mk oid]> (docs c);
                    nextID := nextID c + 1;
                    reachable := reachable c |})
    end.

(** [FindOne(_id = oid).Decode(&doc)]. *)
Definition FindOne {D : Type} (c : Collection D) (oid : ObjectID) : result D :=
  if negb (reachable c) then Err unreachable
  else match docs c !! oid with
       | Some d => Ok d
       | None => Err ErrNoDocuments
       end.

(** [DeleteOne(_id = oid)]: no error when nothing matches. *)
Definition DeleteOne {D : Type} (c : Collection D) (oid : ObjectID)
  : result unit * Collection D :=
  if negb (reachable c) then (Err unreachable, c)
  else (Ok tt, {| docs := delete oid (docs c);
                  nextID := nextID c;
                  reachable := reachable c |}).

End mongo.

(** ** internal/storage *)

Module storage.

Local Open Scope rand_scope.

(** *** master_keys.go *)

Record MasterKey := { ID : string; Key : bytes }.

Record MasterKeyStore :=
  { masterKeys : gmap string MasterKey; activeKeyID : string }.

(** The loop of [NewMasterKeyStore] over the keys, filling [mkMap]. *)
Fixpoint fillKeys (keys : list MasterKey) (mkMap : gmap string MasterKey)
  : result (gmap string MasterKey) :=
  match keys with
  | [] => Ok mkMap
  | k :: rest =>
      if negb (length (Key k) =? 32)%nat then
        Err "master key must be 32 bytes for AES-256"
      else fillKeys rest (<[ID k := k]> mkMap)
  end.

Definition NewMasterKeyStore (keys : list MasterKey) : result MasterKeyStore :=
  if (length keys =? 0)%nat then Err "no master keys provided"
  else
    bind (fillKeys keys ∅) (fun mkMap =>
    match keys with
    | k0 :: _ => Ok {| masterKeys := mkMap; activeKeyID := ID k0 |}
    | [] => Panic "index out of range [0] with length 0"
    end).

Definition GetActiveKey (m : MasterKeyStore) : result MasterKey :=
  match masterKeys m !! activeKeyID m with
  | None => Err "active master key not found"
  | Some key => Ok key
  end.

Definition EncryptDataKey (m : MasterKeyStore) (dek : bytes)
  : Rand (bytes * string) :=
  match masterKeys m !! activeKeyID m with
  | None => ret (Err "active master key not found")
  | Some activeKey =>
      let* block := ret (aes.NewCipher (Key activeKey)) in
      let* gcm := ret (cipher.NewGCM block) in
      let* nonce := rand.Read (cipher.NonceSize gcm) in
      let* ciphertext := ret (cipher.Seal gcm nonce nonce dek []) in
      ret (Ok (ciphertext, ID activeKey))
  end.

Definition DecryptDataKey (m : MasterKeyStore) (encryptedDEK : bytes)
    (masterKeyID : string) : result bytes :=
  match masterKeys m !! masterKeyID with
  | None => Err "specified master key not found"
  | Some mk =>
      bind (aes.NewCipher (Key mk)) (fun block =>
      bind (cipher.NewGCM block) (fun gcm =>
      if (length encryptedDEK <? cipher.NonceSize gcm)%nat then
        Err "ciphertext too short"
      else
        bind (slice_to (cipher.NonceSize gcm) encryptedDEK) (fun nonce =>
        bind (slice_from (cipher.NonceSize gcm) encryptedDEK) (fun ciphertext =>
        cipher.Open gcm [] nonce ciphertext []))))
  end.

(** The part of [RotateMasterKey] before the lock is taken: the key
    bytes, then the id. *)
Definition newMasterKey : Rand MasterKey :=
  let* newKeyBytes := rand.Read 32 in
  let* u := uuid.New in
  ret (Ok {| ID := uuid.String u; Key := newKeyBytes |}).

Definition RotateMasterKey (m : MasterKeyStore) (rnd : rand.Reader)
  : result MasterKey * MasterKeyStore * rand.Reader :=
  match newMasterKey rnd with
  | (Ok newMK, rnd') =>
      (Ok newMK,
       {| masterKeys := <[ID newMK := newMK]> (masterKeys m);
          activeKeyID := ID newMK |},
       rnd')
  | (other, rnd') => (other, m, rnd')
  end.

(** *** mongo_dek_store.go *)

(** The struct's field [ID] is [DocID] here ([ID] is [MasterKey]'s). *)
Record DEKDocument :=
  { DocID : mongo.ObjectID; DEK : bytes; MasterKeyID : string }.

Record MongoDEKStore := { collection : mongo.Collection DEKDocument }.

Definition InsertDEK (m : MongoDEKStore) (dekEncrypted : bytes)
    (masterKeyID : string) : result string * MongoDEKStore :=
  let '(res, c) :=
    mongo.InsertOne (collection m)
      (fun oid => {| DocID := oid; DEK := dekEncrypted;
                     MasterKeyID := masterKeyID |}) in
  (bind (wrap_err "failed to insert DEK" res) (fun oid => Ok (mongo.Hex oid)),
   {| collection := c |}).

Definition GetDEK (m : MongoDEKStore) (id : string) : result DEKDocument :=
  bind (wrap_err "invalid DEK ID format" (mongo.ObjectIDFromHex id)) (fun oid =>
  match mongo.FindOne (collection m) oid with
  | Err e =>
      if String.eqb e mongo.ErrNoDocuments then
        Err ("no DEK found with ID " +:+ id)
      else Err ("error retrieving DEK: " +:+ e)
  | other => other
  end).

(** [DeleteDEK]: [Ok tt] is the nil error. *)
Definition DeleteDEK (m : MongoDEKStore) (id : string)
  : result unit * MongoDEKStore :=
  match wrap_err "invalid DEK ID format" (mongo.ObjectIDFromHex id) with
  | Ok oid =>
      let '(res, c) := mongo.DeleteOne (collection m) oid in
      (wrap_err "failed to delete DEK" res, {| collection := c |})
  | Err e => (Err e, m)
  | Panic msg => (Panic msg, m)
  end.

(** *** mongo_user_store.go *)

Record User := { FirebaseUID : string; Role : string }.

(** The struct's field [collection], by the one call the package makes on
    it: [collection.FindOne(ctx, bson.M{field: value}).Decode(&user)], the
    user the driver decodes from the first document that matches, or the
    driver's error.  How the driver matches and decodes is the driver's, and
    is not modelled. *)
Record MongoUserStore :=
  { FindOne_Decode : string -> string -> result User }.

Definition GetUserByFirebaseUID (m : MongoUserStore) (uid : string)
  : result User :=
  match FindOne_Decode m "firebaseId" uid with
  | Ok user => Ok user
  | Err e =>
      if String.eqb e mongo.ErrNoDocuments then
        Err ("no user found with Firebase UID " +:+ uid)
      else Err ("error retrieving user: " +:+ e)
  | Panic msg => Panic msg
  end.

End storage.

(** ** strings.Split and strings.SplitN, for a one-character separator *)

Module gostrings.

(** [strings.SplitN(s, sep, 2)]: cut at the first separator, if any. *)
Fixpoint cut (sep : ascii) (s : string) : option (string * string) :=
  match s with
  | EmptyString => None
  | String c r =>
      if Ascii.eqb c sep then Some (EmptyString, r)
      else match cut sep r with
           | Some (a, b) => Some (String c a, b)
           | None => None
           end
  end.

Definition SplitN2 (s : string) (sep : ascii) : list string :=
  match cut sep s with
  | Some (a, b) => [a; b]
  | None => [s]
  end.

(** [strings.Split(s, sep)]: the pieces between the separators; one piece,
    [s] itself, when there is no separator. *)
Fixpoint Split (s : string) (sep : ascii) : list string :=
  match s with
  | EmptyString => [EmptyString]
  | String c r =>
      if Ascii.eqb c sep then EmptyString :: Split r sep
      else match Split r sep with
           | p :: ps => String c p :: ps
           | [] => [String c EmptyString]
           end
  end.

End gostrings.

(** ** internal/config/config.go *)

Module config.

Record MasterKey := { ID : string; Key : bytes }.

(** The loop of [ParseMasterKeys] over the comma-separated entries. *)
Fixpoint parseEntries (keys : list string) (masterKeys : list MasterKey)
  : result (list MasterKey) :=
  match keys with
  | [] => Ok masterKeys
  | key :: rest =>
      match gostrings.SplitN2 key ":"%char with
      | [id; b64] =>
          match base64.DecodeString b64 with
          | Ok keyBytes =>
              if negb (length keyBytes =? 32)%nat then
                Err ("master key for ID " +:+ id
                       +:+ " must be 32 bytes for AES-256")
              else parseEntries rest (masterKeys ++ [{| ID := id; Key := keyBytes |}])
          | Err e => Err ("failed to decode base64 key for ID " +:+ id +:+ ": " +:+ e)
          | Panic msg => Panic msg
          end
      | _ => Err "invalid MASTER_KEYS format; expected id:base64key"
      end
  end.

(** [cfg.ParseMasterKeys()], of the value of MASTER_KEYS. *)
Definition ParseMasterKeys (MasterKeys : string) : result (list MasterKey) :=
  parseEntries (gostrings.Split MasterKeys ","%char) [].

End config.

(** ** cmd/kms-server/main.go: from the configuration to the key store *)

Module main.

(** Step 3: [[]config.MasterKey] to [[]storage.MasterKey]. *)
Definition storageMasterKeys (configMasterKeys : list config.MasterKey)
  : list storage.MasterKey :=
  map (fun mk => {| storage.ID := config.ID mk; storage.Key := config.Key mk |})
      configMasterKeys.

(** Steps 2 to 4; [log.Fatalf] ends the process with the error. *)
Definition initKeyStore (MasterKeys : string) : result storage.MasterKeyStore :=
  match config.ParseMasterKeys MasterKeys with
  | Ok configMasterKeys =>
      wrap_err "Failed to initialize MasterKeyStore"
        (storage.NewMasterKeyStore (storageMasterKeys configMasterKeys))
  | Err e => Err ("Failed to parse master keys: " +:+ e)
  | Panic msg => Panic msg
  end.

End main.

(** ** internal/server: the handlers *)

(** What a handler leaves on the [http.ResponseWriter]: a status and either
    the text of [http.Error], a JSON object (field names and values, in
    order), or nothing.  Log lines are not modelled. *)
Inductive Body : Type :=
| Text (msg : string)
| JSON (fields : list (string * string))
| NoBody.

Inductive Response : Type :=
| Sent (status : Z) (payload : Body)
| Panicked (msg : string).

Definition StatusOK : Z := 200.
Definition StatusNoContent : Z := 204.
Definition StatusBadRequest : Z := 400.
Definition StatusUnauthorized : Z := 401.
Definition StatusForbidden : Z := 403.
Definition StatusInternalServerError : Z := 500.

Definition http_Error (msg : string) (code : Z) : Response := Sent code (Text msg).

(** A request as the handlers see it: the identity the middleware put in
    the context (if any) and the outcome of decoding the JSON body. *)
Record Request (B : Type) : Type :=
  { ctxIdentity : option auth.Identity; decoded : option B }.
Arguments ctxIdentity {B} r.
Arguments decoded {B} r.

(** The handlers of the server that keeps wrapped DEKs in Mongo. *)
Module server.

Record Server :=
  { KeyStore : storage.MasterKeyStore; DEKStore : storage.MongoDEKStore }.

Definition ErrNoIdentity : error := "could not read identity".

Definition getIdentity {B : Type} (r : Request B) : result auth.Identity :=
  match ctxIdentity r with
  | Some id => Ok id
  | None => Err ErrNoIdentity
  end.

Definition writeJSON (fields : list (string * string)) : Response :=
  Sent StatusOK (JSON fields).

Definition withDEKStore (s : Server) (d : storage.MongoDEKStore) : Server :=
  {| KeyStore := KeyStore s; DEKStore := d |}.

Definition GenerateDataKeyHandler (s : Server) (r : Request unit)
    (rnd : rand.Reader) : Response * Server * rand.Reader :=
  match getIdentity r with
  | Err e => (http_Error e StatusInternalServerError, s, rnd)
  | Panic msg => (Panicked msg, s, rnd)
  | Ok identity =>
  match auth.IsAuthorized identity auth.ActionGenerateDataKey with
  | Some err => (http_Error err StatusForbidden, s, rnd)
  | None =>
  match crypto.GenerateKey rnd with
  | (Err _, rnd1) =>
      (http_Error "internal server error" StatusInternalServerError, s, rnd1)
  | (Panic msg, rnd1) => (Panicked msg, s, rnd1)
  | (Ok dek, rnd1) =>
  match storage.EncryptDataKey (KeyStore s) dek rnd1 with
  | (Err _, rnd2) =>
      (http_Error "encryption failed" StatusInternalServerError, s, rnd2)
  | (Panic msg, rnd2) => (Panicked msg, s, rnd2)
  | (Ok (encryptedDEK, masterKeyID), rnd2) =>
  match storage.InsertDEK (DEKStore s) encryptedDEK masterKeyID with
  | (Err _, d) =>
      (http_Error "internal server error" StatusInternalServerError,
       withDEKStore s d, rnd2)
  | (Panic msg, d) => (Panicked msg, withDEKStore s d, rnd2)
  | (Ok dekID, d) =>
      (writeJSON [("dekID", dekID); ("masterKeyID", masterKeyID)],
       withDEKStore s d, rnd2)
  end end end end end.

Record DeleteDEKRequest := { DEKID : string }.

Definition DeleteDataKeyHandler (s : Server) (r : Request DeleteDEKRequest)
  : Response * Server :=
  match getIdentity r with
  | Err e => (http_Error e StatusInternalServerError, s)
  | Panic msg => (Panicked msg, s)
  | Ok identity =>
  match auth.IsAuthorized identity auth.ActionRotateMasterKey with
  | Some err => (http_Error err StatusForbidden, s)
  | None =>
  match decoded r with
  | None => (http_Error "invalid request body" StatusBadRequest, s)
  | Some req =>
  match storage.DeleteDEK (DEKStore s) (DEKID req) with
  | (Err _, d) =>
      (http_Error "failed to delete DEK" StatusInternalServerError,
       withDEKStore s d)
  | (Panic msg, d) => (Panicked msg, withDEKStore s d)
  | (Ok _, d) => (Sent StatusNoContent NoBody, withDEKStore s d)
  end end end end.

(** The fields [DEKID] of the three request structs are [EncDEKID],
    [DecDEKID] and [DEKID] here. *)
Record EncryptRequest := { EncDEKID : string; JSONData : bytes }.

Definition EncryptHandler (s : Server) (r : Request EncryptRequest)
    (rnd : rand.Reader) : Response * rand.Reader :=
  match getIdentity r with
  | Err e => (http_Error e StatusInternalServerError, rnd)
  | Panic msg => (Panicked msg, rnd)
  | Ok identity =>
  match auth.IsAuthorized identity auth.ActionEncrypt with
  | Some err => (http_Error err StatusForbidden, rnd)
  | None =>
  match decoded r with
  | None => (http_Error "invalid request body" StatusBadRequest, rnd)
  | Some req =>
  match storage.GetDEK (DEKStore s) (EncDEKID req) with
  | Err _ => (http_Error "DEK not found" StatusBadRequest, rnd)
  | Panic msg => (Panicked msg, rnd)
  | Ok dekDoc =>
  match storage.DecryptDataKey (KeyStore s) (storage.DEK dekDoc)
          (storage.MasterKeyID dekDoc) with
  | Err _ => (http_Error "failed to unwrap DEK" StatusInternalServerError, rnd)
  | Panic msg => (Panicked msg, rnd)
  | Ok dek =>
  match crypto.EncryptAES256GCM dek (JSONData req) rnd with
  | (Err _, rnd1) =>
      (http_Error "encryption failed" StatusInternalServerError, rnd1)
  | (Panic msg, rnd1) => (Panicked msg, rnd1)
  | (Ok ciphertextBytes, rnd1) =>
      (writeJSON [("ciphertext", base64.EncodeToString ciphertextBytes)], rnd1)
  end end end end end end.

Record DecryptRequest := { DecDEKID : string; Ciphertext : string }.

Record DecryptResponse := { PlainJSONData : bytes }.

(** What [DecryptHandler] leaves on the writer: an error response, or the
    [DecryptResponse] it hands to [writeJSON]; the field is a
    [json.RawMessage], kept here as the bytes it holds. *)
Inductive DecryptReply : Type :=
| DecryptFailed (resp : Response)
| DecryptWrote (resp : DecryptResponse).

Definition DecryptHandler (s : Server) (r : Request DecryptRequest)
  : DecryptReply :=
  match getIdentity r with
  | Err e => DecryptFailed (http_Error e StatusInternalServerError)
  | Panic msg => DecryptFailed (Panicked msg)
  | Ok identity =>
  match auth.IsAuthorized identity auth.ActionDecrypt with
  | Some err => DecryptFailed (http_Error err StatusForbidden)
  | None =>
  match decoded r with
  | None => DecryptFailed (http_Error "invalid request body" StatusBadRequest)
  | Some req =>
  match storage.GetDEK (DEKStore s) (DecDEKID req) with
  | Err _ => DecryptFailed (http_Error "DEK not found" StatusBadRequest)
  | Panic msg => DecryptFailed (Panicked msg)
  | Ok dekDoc =>
  match storage.DecryptDataKey (KeyStore s) (storage.DEK dekDoc)
          (storage.MasterKeyID dekDoc) with
  | Err _ =>
      DecryptFailed (http_Error "failed to unwrap DEK" StatusInternalServerError)
  | Panic msg => DecryptFailed (Panicked msg)
  | Ok dek =>
  match base64.DecodeString (Ciphertext req) with
  | Err _ =>
      DecryptFailed (http_Error "invalid base64 ciphertext" StatusBadRequest)
  | Panic msg => DecryptFailed (Panicked msg)
  | Ok ciphertextBytes =>
  match crypto.DecryptAES256GCM dek ciphertextBytes with
  | Err _ =>
      DecryptFailed (http_Error "decryption failed" StatusInternalServerError)
  | Panic msg => DecryptFailed (Panicked msg)
  | Ok plaintextBytes => DecryptWrote {| PlainJSONData := plaintextBytes |}
  end end end end end end end.

Definition withKeyStore (s : Server) (ks : storage.MasterKeyStore) : Server :=
  {| KeyStore := ks; DEKStore := DEKStore s |}.

Definition RotateMasterKeyHandler (s : Server) (r : Request unit)
    (rnd : rand.Reader) : Response * Server * rand.Reader :=
  match getIdentity r with
  | Err e => (http_Error e StatusInternalServerError, s, rnd)
  | Panic msg => (Panicked msg, s, rnd)
  | Ok identity =>
  match auth.IsAuthorized identity auth.ActionRotateMasterKey with
  | Some err => (http_Error err StatusForbidden, s, rnd)
  | None =>
  match storage.RotateMasterKey (KeyStore s) rnd with
  | (Err _, ks, rnd1) =>
      (http_Error "master key rotation failed" StatusInternalServerError,
       withKeyStore s ks, rnd1)
  | (Panic msg, ks, rnd1) => (Panicked msg, withKeyStore s ks, rnd1)
  | (Ok newKey, ks, rnd1) =>
      (writeJSON [("newMasterKeyID", storage.ID newKey)], withKeyStore s ks, rnd1)
  end end end.

(** *** The middleware of [Routes] *)

Section Middleware.

(** Two calls leave the repository: [fmt.Sscanf(authHeader, "Bearer %s",
    &token)], here the token it scans or its error, and
    [s.FirebaseAuth.VerifyIDToken], here the UID of the decoded token or
    its error. *)
Variable Sscanf_Bearer : string -> result string.
Variable VerifyIDToken : string -> result string.
Variable MongoUserStore : storage.MongoUserStore.

(** What [firebaseAuthMiddleware] does with a request: it answers itself,
    or it calls [next] with the identity in the context. *)
Inductive Authenticated : Type :=
| Rejected (resp : Response)
| Passed (identity : auth.Identity).

Definition firebaseAuthMiddleware (authHeader : string) : Authenticated :=
  if String.eqb authHeader "" then
    Rejected (http_Error "Authorization header missing" StatusUnauthorized)
  else
    match Sscanf_Bearer authHeader with
    | Panic msg => Rejected (Panicked msg)
    | Err _ =>
        Rejected (http_Error "Invalid Authorization header format"
                    StatusUnauthorized)
    | Ok token =>
    if String.eqb token "" then
      Rejected (http_Error "Invalid Authorization header format"
                  StatusUnauthorized)
    else
    match VerifyIDToken token with
    | Panic msg => Rejected (Panicked msg)
    | Err _ => Rejected (http_Error "Invalid or expired token" StatusUnauthorized)
    | Ok firebaseUID =>
    match storage.GetUserByFirebaseUID MongoUserStore firebaseUID with
    | Panic msg => Rejected (Panicked msg)
    | Err _ => Rejected (http_Error "User not found" StatusUnauthorized)
    | Ok user =>
        Passed {| auth.Name := firebaseUID; auth.IdRole := storage.Role user |}
    end end end.

(** [RateLimitMiddleware(firebaseAuthMiddleware(next))] on a request with
    the header [authHeader] and the body [body]; [answer] is how a response
    of the middleware reads as an outcome of [next]. *)
Definition route {B R : Type} (next : Request B -> R) (answer : Response -> R)
    (authHeader : string) (body : option B) : R :=
  match firebaseAuthMiddleware authHeader with
  | Rejected resp => answer resp
  | Passed identity => next {| ctxIdentity := Some identity; decoded := body |}
  end.

End Middleware.

End server.

(** The copy of handlers.go that goes with the server without a DEK store
    (router.go's [Server] has the key store only). *)
Module server_nostore.

Record Server := { KeyStore : storage.MasterKeyStore }.

Record GenerateDataKeyRequest := { KeyID : string }.

Definition GenerateDataKeyHandler (s : Server)
    (r : Request GenerateDataKeyRequest) (rnd : rand.Reader)
  : Response * rand.Reader :=
  match ctxIdentity r with
  | None => (http_Error "could not read identity" StatusInternalServerError, rnd)
  | Some id =>
  match auth.IsAuthorized id auth.ActionGenerateDataKey with
  | Some err => (http_Error err StatusForbidden, rnd)
  | None =>
  match decoded r with
  | None => (http_Error "invalid request body" StatusBadRequest, rnd)
  | Some req =>
  match crypto.GenerateKey rnd with
  | (Err _, rnd1) =>
      (http_Error "internal server error" StatusInternalServerError, rnd1)
  | (Panic msg, rnd1) => (Panicked msg, rnd1)
  | (Ok dek, rnd1) =>
  match storage.EncryptDataKey (KeyStore s) dek rnd1 with
  | (Err _, rnd2) =>
      (http_Error "encryption failed" StatusInternalServerError, rnd2)
  | (Panic msg, rnd2) => (Panicked msg, rnd2)
  | (Ok (encryptedDEK, usedMasterKeyID), rnd2) =>
      (Sent StatusOK
         (JSON [("plaintextDEK", base64.EncodeToString dek);
                ("encryptedDEK", base64.EncodeToString encryptedDEK);
                ("masterKeyID", usedMasterKeyID)]),
       rnd2)
  end end end end end.

(** The fields [MasterKeyID] and [EncryptedDEK] of the two request structs
    are [EncMasterKeyID], [EncEncryptedDEK] and [DecMasterKeyID],
    [DecEncryptedDEK] here. *)
Record EncryptRequest :=
  { EncMasterKeyID : string; EncEncryptedDEK : string; Plaintext : string }.

Definition EncryptHandler (s : Server) (r : Request EncryptRequest)
    (rnd : rand.Reader) : Response * rand.Reader :=
  match ctxIdentity r with
  | None => (http_Error "could not read identity" StatusInternalServerError, rnd)
  | Some id =>
  match auth.IsAuthorized id auth.ActionEncrypt with
  | Some err => (http_Error err StatusForbidden, rnd)
  | None =>
  match decoded r with
  | None => (http_Error "invalid request body" StatusBadRequest, rnd)
  | Some req =>
  match base64.DecodeString (EncEncryptedDEK req) with
  | Err _ => (http_Error "invalid base64 for EncryptedDEK" StatusBadRequest, rnd)
  | Panic msg => (Panicked msg, rnd)
  | Ok encryptedDEKBytes =>
  match base64.DecodeString (Plaintext req) with
  | Err _ => (http_Error "invalid base64 for plaintext" StatusBadRequest, rnd)
  | Panic msg => (Panicked msg, rnd)
  | Ok plaintextBytes =>
  match storage.DecryptDataKey (KeyStore s) encryptedDEKBytes
          (EncMasterKeyID req) with
  | Err _ => (http_Error "failed to decrypt DEK" StatusBadRequest, rnd)
  | Panic msg => (Panicked msg, rnd)
  | Ok dek =>
  match crypto.EncryptAES256GCM dek plaintextBytes rnd with
  | (Err _, rnd1) =>
      (http_Error "encryption failed" StatusInternalServerError, rnd1)
  | (Panic msg, rnd1) => (Panicked msg, rnd1)
  | (Ok ciphertextBytes, rnd1) =>
      (Sent StatusOK
         (JSON [("ciphertext", base64.EncodeToString ciphertextBytes)]),
       rnd1)
  end end end end end end end.

Record DecryptRequest :=
  { DecMasterKeyID : string; DecEncryptedDEK : string; Ciphertext : string }.

Definition DecryptHandler (s : Server) (r : Request DecryptRequest) : Response :=
  match ctxIdentity r with
  | None => http_Error "could not read identity" StatusInternalServerError
  | Some id =>
  match auth.IsAuthorized id auth.ActionDecrypt with
  | Some err => http_Error err StatusForbidden
  | None =>
  match decoded r with
  | None => http_Error "invalid request body" StatusBadRequest
  | Some req =>
  match base64.DecodeString (DecEncryptedDEK req) with
  | Err _ => http_Error "invalid base64 for EncryptedDEK" StatusBadRequest
  | Panic msg => Panicked msg
  | Ok encryptedDEKBytes =>
  match base64.DecodeString (Ciphertext req) with
  | Err _ => http_Error "invalid base64 for ciphertext" StatusBadRequest
  | Panic msg => Panicked msg
  | Ok ciphertextBytes =>
  match storage.DecryptDataKey (KeyStore s) encryptedDEKBytes
          (DecMasterKeyID req) with
  | Err _ => http_Error "failed to decrypt DEK" StatusBadRequest
  | Panic msg => Panicked msg
  | Ok dek =>
  match crypto.DecryptAES256GCM dek ciphertextBytes with
  | Err _ => http_Error "decryption failed" StatusInternalServerError
  | Panic msg => Panicked msg
  | Ok plaintextBytes =>
      Sent StatusOK (JSON [("plaintext", base64.EncodeToString plaintextBytes)])
  end end end end end end end.

End server_nostore.

(** ** Definitions for the statements *)

(** The block cipher and the AEAD for a key, as [aes.NewCipher] and
    [cipher.NewGCM] build them. *)
Definition block_of (key : bytes) : aes.Block :=
  {| aes.rounds := (length key / 4 + 6)%nat; aes.enc := aes.KeyExpansion key |}.

(** A byte string written in hex. *)
Definition unhex (s : string) : bytes := default [] (hex_decode s).

(** What [cipher.NewGCM] returns for the block cipher [b]. *)
Definition gcmOf (b : aes.Block) : cipher.AEAD :=
  {| cipher.block := b; cipher.nonceSize := 12; cipher.tagSize := 16 |}.

(** What [Seal] appends to [dst]: the masked plaintext, then the tag. *)
Definition sealed (g : cipher.AEAD) (nonce p data : bytes) : bytes :=
  let counter := cipher.deriveCounter nonce in
  let ct := cipher.counterCrypt (length p) (cipher.block g) (cipher.inc32 counter) p in
  ct ++ cipher.auth g ct data (aes.Encrypt (cipher.block g) counter).

(** The AEAD that the envelope cipher builds from a 32-byte key. *)
Definition gcm256 (key : bytes) : cipher.AEAD :=
  {| cipher.block := {| aes.rounds := 14; aes.enc := aes.KeyExpansion key |};
     cipher.nonceSize := 12;
     cipher.tagSize := 16 |}.

(** The values a Go [byte] can take. *)
Definition is_byte (b : Z) : Prop := 0 <= b < 256.

(** The closed set of actions of the specification. *)
Definition closedActions : list auth.Action :=
  [auth.ActionGenerateDataKey; auth.ActionEncrypt; auth.ActionDecrypt;
   auth.ActionRotateMasterKey; auth.ActionDeleteDataKey].

(** The identity of the principal [name] with role [r]. *)
Definition asRole (name : string) (r : auth.Role) : auth.Identity :=
  {| auth.Name := name; auth.IdRole := r |}.

(** The key-size condition of [NewMasterKeyStore]. *)
Definition key32 (k : storage.MasterKey) : Prop :=
  length (storage.Key k) = 32%nat.

(** One call on the store.  The random source a call finds is part of the
    call, so a run covers every outcome of the source, call by call. *)
Inductive Call : Type :=
| CallGetActiveKey
| CallEncryptDataKey (dek : bytes) (rnd : rand.Reader)
| CallDecryptDataKey (encryptedDEK : bytes) (masterKeyID : string)
| CallRotateMasterKey (rnd : rand.Reader).

(** The store after a call.  [GetActiveKey], [EncryptDataKey] and
    [DecryptDataKey] only read the receiver; [RotateMasterKey] is the one
    method that writes it. *)
Definition exec (m : storage.MasterKeyStore) (c : Call) : storage.MasterKeyStore :=
  match c with
  | CallGetActiveKey => m
  | CallEncryptDataKey _ _ => m
  | CallDecryptDataKey _ _ => m
  | CallRotateMasterKey rnd => snd (fst (storage.RotateMasterKey m rnd))
  end.

(** The stores a client can reach: by [NewMasterKeyStore], then by calls. *)
Inductive reachable : storage.MasterKeyStore -> Prop :=
| reachable_new (keys : list storage.MasterKey) (m : storage.MasterKeyStore) :
    storage.NewMasterKeyStore keys = Ok m -> reachable m
| reachable_call (m : storage.MasterKeyStore) (c : Call) :
    reachable m -> reachable (exec m c).

(** The store after a series of rotations, one random source each. *)
Fixpoint rotations (m : storage.MasterKeyStore) (rnds : list rand.Reader)
  : storage.MasterKeyStore :=
  match rnds with
  | [] => m
  | rnd :: rest => rotations (snd (fst (storage.RotateMasterKey m rnd))) rest
  end.

(** The ids of the keys those rotations returned. *)
Definition rotatedIDs (rnds : list rand.Reader) : list string :=
  flat_map (fun rnd => match storage.newMasterKey rnd with
                       | (Ok mk, _) => [storage.ID mk]
                       | _ => []
                       end) rnds.

(** The call [c] is a rotation that returns a key with the id [id]. *)
Definition issues (c : Call) (id : string) : Prop :=
  match c with
  | CallRotateMasterKey rnd => In id (rotatedIDs [rnd])
  | _ => False
  end.

(** The status a handler answered with, if it answered. *)
Definition statusOf (r : Response) : option Z :=
  match r with
  | Sent status _ => Some status
  | Panicked _ => None
  end.

(** A delete request of [id] for the record [req]. *)
Definition deleteRequest (id : auth.Identity) (req : option server.DeleteDEKRequest)
  : Request server.DeleteDEKRequest :=
  {| ctxIdentity := Some id; decoded := req |}.

(** The fields of the two responses. *)
Definition dekResponse (dekID masterKeyID : string) : list (string * string) :=
  [("dekID", dekID); ("masterKeyID", masterKeyID)].

Definition plaintextResponse (dek encryptedDEK : bytes) (masterKeyID : string)
  : list (string * string) :=
  [("plaintextDEK", base64.EncodeToString dek);
   ("encryptedDEK", base64.EncodeToString encryptedDEK);
   ("masterKeyID", masterKeyID)].

(** The scenario in which a rotation draws an id that is already in use:
    the store is configured with a key whose id is a version-4 UUID, and a
    later rotation finds sixteen zero bytes on the random source after the
    key bytes, which [uuid.New] turns into that same UUID. *)
Definition cx_id : string := "00000000-0000-4000-8000-000000000000".

Definition cx_store : storage.MasterKeyStore :=
  {| storage.masterKeys :=
       {[ cx_id := {| storage.ID := cx_id; storage.Key := repeat 7 32 |} ]};
     storage.activeKeyID := cx_id |}.

Definition cx_dek : bytes := repeat 9 32.
Definition cx_wrap_rnd : rand.Reader := map Z.of_nat (seq 100 12).
Definition cx_rotate_same : rand.Reader := repeat 1 32 ++ repeat 0 16.
Definition cx_rotate_other : rand.Reader := map Z.of_nat (seq 0 48).

(** A server that holds one wrapped-DEK record, and requests on it. *)
Definition cx_oid : mongo.ObjectID := Z_to_be 12 0.

Definition cx_server : server.Server :=
  {| server.KeyStore := cx_store;
     server.DEKStore :=
       {| storage.collection :=
            {| mongo.docs :=
                 {[ cx_oid := {| storage.DocID := cx_oid;
                                 storage.DEK := repeat 3 60;
                                 storage.MasterKeyID := cx_id |} ]};
               mongo.nextID := 1;
               mongo.reachable := true |} |} |}.

Definition cx_delete : option server.DeleteDEKRequest :=
  Some {| server.DEKID := "000000000000000000000000" |}.

(** The random source of a generate-data-key request: 32 bytes for the
    DEK, 12 for the nonce. *)
Definition cx_generate_rnd : rand.Reader := map Z.of_nat (seq 0 44).

(** Equality of byte strings, decided. *)
Definition bytes_eqb (x y : bytes) : bool :=
  (length x =? length y)%nat && forallb (fun '(a, b) => a =? b) (combine x y).

(** The values the base64 encoder writes for one, two or three bytes. *)
Definition sextet0 (a : Z) : Z := Z.land (Z.shiftr a 2) 63.
Definition sextet1 (a b : Z) : Z :=
  Z.land (Z.lor (Z.shiftl (Z.land a 3) 4) (Z.shiftr b 4)) 63.
Definition sextet2 (b c : Z) : Z :=
  Z.land (Z.lor (Z.shiftl (Z.land b 15) 2) (Z.shiftr c 6)) 63.
Definition sextet3 (c : Z) : Z := Z.land c 63.

(** [is_byte], decided. *)
Definition is_byteb (x : Z) : bool := (0 <=? x) && (x <? 256).

(** A key schedule whose words consist of bytes. *)
Definition words_ok (w : list bytes) : Prop := Forall (Forall is_byte) w.

(** A request of [id] whose body decoded to [body] ([None]: the body is
    not the JSON the handler expects). *)
Definition requestOf {B : Type} (id : auth.Identity) (body : option B)
  : Request B :=
  {| ctxIdentity := Some id; decoded := body |}.

(** The status [DecryptHandler] answered with; [writeJSON] writes the body
    without setting a status, which is 200. *)
Definition decryptStatus (r : server.DecryptReply) : option Z :=
  match r with
  | server.DecryptFailed resp => statusOf resp
  | server.DecryptWrote _ => Some StatusOK
  end.

(** The roles that may use the data-key endpoints. *)
Definition dataRole (id : auth.Identity) : Prop :=
  auth.IdRole id = auth.RoleAdmin \/ auth.IdRole id = auth.RoleService.

(** The key sizes [aes.NewCipher] accepts. *)
Definition aesKeyLength (key : bytes) : Prop :=
  length key = 16%nat \/ length key = 24%nat \/ length key = 32%nat.

(** The server [s] with its key store after the rotations [rnds]. *)
Definition afterRotations (s : server.Server) (rnds : list rand.Reader)
  : server.Server :=
  server.withKeyStore s (rotations (server.KeyStore s) rnds).

(** Whether the character [c] occurs in [s]. *)
Fixpoint hasChar (c : ascii) (s : string) : bool :=
  match s with
  | EmptyString => false
  | String x r => Ascii.eqb x c || hasChar c r
  end.

(** The entry of MASTER_KEYS for a key, and the value of MASTER_KEYS for a
    list of entries. *)
Definition entryOf (k : config.MasterKey) : string :=
  config.ID k +:+ String ":" (base64.EncodeToString (config.Key k)).

Fixpoint joinComma (entries : list string) : string :=
  match entries with
  | [] => EmptyString
  | [e] => e
  | e :: rest => e +:+ String "," (joinComma rest)
  end.

(** What [ParseMasterKeys] asks of an entry to make the key [k] of it. *)
Definition parsesTo (entry : string) (k : config.MasterKey) : Prop :=
  exists b64 : string,
    gostrings.cut ":" entry = Some (config.ID k, b64)
    /\ base64.DecodeString b64 = Ok (config.Key k)
    /\ length (config.Key k) = 32%nat.

(** A key that can be written as an entry of MASTER_KEYS: its id has no
    comma and no colon, its key is 32 bytes. *)
Definition writableKey (k : config.MasterKey) : Prop :=
  hasChar "," (config.ID k) = false
  /\ hasChar ":" (config.ID k) = false
  /\ length (config.Key k) = 32%nat
  /\ Forall is_byte (config.Key k).

(** A configured key: the id "k1" or "k2" and 32 equal bytes. *)
Definition cx_config_key (id : string) (b : Z) : config.MasterKey :=
  {| config.ID := id; config.Key := repeat b 32 |}.

(** The server without a DEK store, its key store after the rotations
    [rnds]. *)
Definition nostoreAfterRotations (s : server_nostore.Server)
    (rnds : list rand.Reader) : server_nostore.Server :=
  {| server_nostore.KeyStore := rotations (server_nostore.KeyStore s) rnds |}.

(** A key store whose keys consist of bytes. *)
Definition keysOfBytes (m : storage.MasterKeyStore) : Prop :=
  forall (id : string) (mk : storage.MasterKey),
    storage.masterKeys m !! id = Some mk -> Forall is_byte (storage.Key mk).

(** The blob a generate-data-key request with the random source
    [cx_generate_rnd] wraps its DEK into on [cx_store]. *)
Definition cx_wrapped : bytes :=
  match fst (storage.EncryptDataKey cx_store (firstn 32 cx_generate_rnd)
               (skipn 32 cx_generate_rnd)) with
  | Ok (E, _) => E
  | _ => []
  end.

(** The request whose header is [authHeader] comes, through the token the
    header holds and the UID Firebase gives for it, from a user that
    [GetUserByFirebaseUID] returns with one of [roles]. *)
Definition roleRecord (Sscanf_Bearer VerifyIDToken : string -> result string)
    (users : storage.MongoUserStore) (authHeader : string)
    (roles : list auth.Role) : Prop :=
  exists (token uid : string) (user : storage.User),
    Sscanf_Bearer authHeader = Ok token
    /\ VerifyIDToken token = Ok uid
    /\ storage.GetUserByFirebaseUID users uid = Ok user
    /\ In (storage.Role user) roles.

(** One user, one token: a scanner that knows one header, a verifier that
    knows one token, and a user store that finds the one user. *)
Definition cx_scan (authHeader : string) : result string :=
  if String.eqb authHeader "Bearer tok-1" then Ok "tok-1"
  else Err "input does not match format".

Definition cx_verify (token : string) : result string :=
  if String.eqb token "tok-1" then Ok "uid-1" else Err "invalid token".

Definition cx_users : storage.MongoUserStore :=
  {| storage.FindOne_Decode := fun field value =>
       if String.eqb field "firebaseId" && String.eqb value "uid-1" then
         Ok {| storage.FirebaseUID := "uid-1"; storage.Role := "ADMIN" |}
       else Err mongo.ErrNoDocuments |}.

(** * Test vectors of the library models *)

Example aes256_fips197_c3 :
  aes.Encrypt (block_of (map Z.of_nat (seq 0 32)))
              (map (fun i => 17 * Z.of_nat i) (seq 0 16))
  = [0x8e; 0xa2; 0xb7; 0xca; 0x51; 0x67; 0x45; 0xbf;
     0xea; 0xfc; 0x49; 0x90; 0x4b; 0x49; 0x60; 0x89].
Proof. vm_compute. reflexivity. Qed.

Example aes128_fips197_c1 :
  aes.Encrypt (block_of (map Z.of_nat (seq 0 16)))
              (map (fun i => 17 * Z.of_nat i) (seq 0 16))
  = [0x69; 0xc4; 0xe0; 0xd8; 0x6a; 0x7b; 0x04; 0x30;
     0xd8; 0xcd; 0xb7; 0x80; 0x70; 0xb4; 0xc5; 0x5a].
Proof. vm_compute. reflexivity. Qed.

Example aes192_fips197_c2 :
  aes.Encrypt (block_of (map Z.of_nat (seq 0 24)))
              (map (fun i => 17 * Z.of_nat i) (seq 0 16))
  = [0xdd; 0xa9; 0x7c; 0xa4; 0x86; 0x4c; 0xdf; 0xe0;
     0x6e; 0xaf; 0x70; 0xa0; 0xec; 0x0d; 0x71; 0x91].
Proof. vm_compute. reflexivity. Qed.

Example gcm_test_case_13 :
  cipher.Seal (gcmOf (block_of (repeat 0 32))) [] (repeat 0 12) [] []
  = Ok (unhex "530f8afbc74536b9a963b4f1c4cb738b").
Proof. vm_compute. reflexivity. Qed.

Example gcm_test_case_14 :
  cipher.Seal (gcmOf (block_of (repeat 0 32))) [] (repeat 0 12) (repeat 0 16) []
  = Ok (unhex "cea7403d4d606b6e074ec5d3baf39d18d0d1c8a799996bf0265b98b5d48ab919").
Proof. vm_compute. reflexivity. Qed.

Example gcm_test_case_15 :
  cipher.Seal
    (gcmOf (block_of (unhex "feffe9928665731c6d6a8f9467308308feffe9928665731c6d6a8f9467308308")))
    [] (unhex "cafebabefacedbaddecaf888")
    (unhex ("d9313225f88406e5a55909c5aff5269a86a7a9531534f7da2e4c303d8a318a72"
            +:+ "1c3c0c95956809532fcf0e2449a6b525b16aedf5aa0de657ba637b391aafd255"))
    []
  = Ok (unhex ("522dc1f099567d07f47f37a32a84427d643a8cdcbfe5c0c97598a2bd2555d1aa"
               +:+ "8cb08e48590dbb3da7b08b1056828838c5f61e6393ba7a0abcc9f662898015ad"
               +:+ "b094dac5d93471bdec1a502270e3cc6c")).
Proof. vm_compute. reflexivity. Qed.

Example gcm_test_case_2 :
  cipher.Seal (gcmOf (block_of (repeat 0 16))) [] (repeat 0 12) (repeat 0 16) []
  = Ok (unhex "0388dace60b6a392f328c2b971b2fe78ab6e47d42cec13bdf53a67b21257bddf").
Proof. vm_compute. reflexivity. Qed.

(** * Facts about the library models *)

Section CipherFacts.

Implicit Types (b : aes.Block) (g : cipher.AEAD).
Implicit Types (ctr inp nonce data dst p : bytes).

Lemma Z_to_be_length (n : nat) (v : Z) : length (Z_to_be n v) = n.
Proof. unfold Z_to_be. now rewrite length_map, length_seq. Qed.

Lemma aes_Encrypt_length b (src : bytes) : length (aes.Encrypt b src) = 16%nat.
Proof.
  unfold aes.Encrypt, aes.AddRoundKey. now rewrite length_map, length_seq.
Qed.

Lemma xor_bytes_length (a k : bytes) :
  length (xor_bytes a k) = (length a `min` length k)%nat.
Proof. unfold xor_bytes. now rewrite length_map, length_combine. Qed.

Lemma xor_bytes_cancel (a : bytes) :
  forall k : bytes, (length a <= length k)%nat -> xor_bytes (xor_bytes a k) k = a.
Proof.
  unfold xor_bytes.
  induction a as [|x a IH]; intros [|y k] Hlen; simpl in *; try lia; trivial.
  f_equal.
  - now rewrite Z.lxor_assoc, Z.lxor_nilpotent, Z.lxor_0_r.
  - apply IH. lia.
Qed.

Lemma counterCrypt_nil (n : nat) b ctr : cipher.counterCrypt n b ctr [] = [].
Proof. now destruct n. Qed.

Lemma counterCrypt_step (n : nat) b ctr inp :
  inp <> [] ->
  cipher.counterCrypt (S n) b ctr inp
  = xor_bytes (firstn 16 inp) (aes.Encrypt b ctr)
      ++ cipher.counterCrypt n b (cipher.inc32 ctr) (skipn 16 inp).
Proof. destruct inp; [congruence | reflexivity]. Qed.

Lemma counterCrypt_length (n : nat) :
  forall b ctr inp,
    (length inp <= n)%nat -> length (cipher.counterCrypt n b ctr inp) = length inp.
Proof.
  induction n as [|n IH]; intros b ctr inp Hlen.
  - destruct inp; simpl in *; [reflexivity | lia].
  - destruct (decide (inp = [])) as [-> | Hne]; [reflexivity |].
    rewrite counterCrypt_step by assumption.
    rewrite length_app, xor_bytes_length, aes_Encrypt_length, IH;
      rewrite ?length_firstn, ?length_skipn; lia.
Qed.

(** A first chunk followed by the rest splits back at 16 bytes. *)
Lemma split_at_16 (c rest : bytes) :
  length c = 16%nat \/ ((length c <= 16)%nat /\ rest = []) ->
  firstn 16 (c ++ rest) = c /\ skipn 16 (c ++ rest) = rest.
Proof.
  intros [H16 | [Hle ->]].
  - split; [now apply take_app_length' | now apply drop_app_length'].
  - rewrite app_nil_r. split; [now apply firstn_all2 | now apply skipn_all2].
Qed.

Lemma counterCrypt_involutive (n : nat) :
  forall (m : nat) b ctr inp,
    (length inp <= n)%nat -> (length inp <= m)%nat ->
    cipher.counterCrypt m b ctr (cipher.counterCrypt n b ctr inp) = inp.
Proof.
  induction n as [|n IH]; intros m b ctr inp Hn Hm.
  - destruct inp; simpl in *; [apply counterCrypt_nil | lia].
  - destruct (decide (inp = [])) as [-> | Hne]; [apply counterCrypt_nil |].
    assert (Hpos : (1 <= length inp)%nat) by (destruct inp; simpl; [congruence | lia]).
    destruct m as [|m]; [lia |].
    rewrite (counterCrypt_step n) by assumption.
    set (c := xor_bytes (firstn 16 inp) (aes.Encrypt b ctr)).
    set (rest := cipher.counterCrypt n b (cipher.inc32 ctr) (skipn 16 inp)).
    assert (Hc : length c = (16 `min` length inp)%nat).
    { unfold c. rewrite xor_bytes_length, aes_Encrypt_length, length_firstn. lia. }
    assert (Hsplit : firstn 16 (c ++ rest) = c /\ skipn 16 (c ++ rest) = rest).
    { apply split_at_16.
      destruct (le_lt_dec 16 (length inp)) as [Hge | Hlt]; [left; lia | right].
      split; [lia |]. unfold rest.
      rewrite skipn_all2 by lia. apply counterCrypt_nil. }
    destruct Hsplit as [Hf Hs].
    assert (Hne' : c ++ rest <> []).
    { intros Hnil. apply (f_equal (@length Z)) in Hnil.
      rewrite length_app in Hnil. simpl in Hnil. lia. }
    rewrite counterCrypt_step by assumption.
    rewrite Hf, Hs. unfold c, rest.
    rewrite xor_bytes_cancel by (rewrite aes_Encrypt_length, length_firstn; lia).
    rewrite IH by (rewrite length_skipn; lia).
    apply firstn_skipn.
Qed.

Lemma ConstantTimeCompare_refl (x : bytes) : cipher.ConstantTimeCompare x x = true.
Proof.
  unfold cipher.ConstantTimeCompare. rewrite Nat.eqb_refl. simpl.
  induction x as [|a x IH]; simpl; [reflexivity |].
  now rewrite Z.eqb_refl.
Qed.

Lemma auth_length g (ct data : bytes) b ctr :
  length (cipher.auth g ct data (aes.Encrypt b ctr)) = 16%nat.
Proof.
  unfold cipher.auth.
  now rewrite xor_bytes_length, Z_to_be_length, aes_Encrypt_length.
Qed.

Lemma sealed_length g nonce p data :
  length (sealed g nonce p data) = (length p + 16)%nat.
Proof.
  unfold sealed. cbv zeta.
  now rewrite length_app, counterCrypt_length, auth_length.
Qed.

Lemma Seal_eq g dst nonce p data :
  length nonce = cipher.nonceSize g ->
  cipher.Seal g dst nonce p data = Ok (dst ++ sealed g nonce p data).
Proof.
  intros Hn. unfold cipher.Seal, sealed.
  apply Nat.eqb_eq in Hn. now rewrite Hn.
Qed.

Lemma Open_sealed g nonce p data :
  length nonce = cipher.nonceSize g -> cipher.tagSize g = 16%nat ->
  cipher.Open g [] nonce (sealed g nonce p data) data = Ok p.
Proof.
  intros Hn Ht. unfold cipher.Open.
  apply Nat.eqb_eq in Hn. rewrite Hn. cbn [negb].
  rewrite sealed_length, Ht.
  destruct (Nat.ltb_spec (length p + 16) 16) as [Hlt | _]; [lia |].
  replace (length p + 16 - 16)%nat with (length p) by lia.
  unfold sealed. cbv zeta.
  set (counter := cipher.deriveCounter nonce).
  set (ct := cipher.counterCrypt (length p) (cipher.block g) (cipher.inc32 counter) p).
  set (tag := cipher.auth g ct data (aes.Encrypt (cipher.block g) counter)).
  assert (Hct : length ct = length p) by (unfold ct; now apply counterCrypt_length).
  assert (Hf : firstn (length p) (ct ++ tag) = ct)
    by (rewrite <- Hct; apply take_app_length).
  assert (Hd : skipn (length p) (ct ++ tag) = tag)
    by (rewrite <- Hct; apply drop_app_length).
  rewrite !Hf, Hd. fold tag.
  rewrite firstn_all2 by (unfold tag; rewrite auth_length; lia).
  rewrite ConstantTimeCompare_refl. cbn [negb app].
  f_equal. rewrite Hct. unfold ct. apply counterCrypt_involutive; lia.
Qed.

Lemma NewCipher_ok (key : bytes) :
  length key = 32%nat ->
  aes.NewCipher key
  = Ok {| aes.rounds := 14; aes.enc := aes.KeyExpansion key |}.
Proof. intros H. unfold aes.NewCipher. now rewrite H. Qed.

Lemma NewCipher_inv (key : bytes) b :
  aes.NewCipher key = Ok b ->
  b = {| aes.rounds := (length key / 4 + 6)%nat; aes.enc := aes.KeyExpansion key |}.
Proof.
  unfold aes.NewCipher. destruct (_ || _); [now intros [= <-] | discriminate].
Qed.

Lemma NewGCM_ok b :
  cipher.NewGCM b
  = Ok {| cipher.block := b; cipher.nonceSize := 12; cipher.tagSize := 16 |}.
Proof. reflexivity. Qed.

Lemma rand_Read_ok (n : nat) (rnd : rand.Reader) :
  (n <= length rnd)%nat -> rand.Read n rnd = (Ok (firstn n rnd), skipn n rnd).
Proof. intros H. unfold rand.Read. apply Nat.leb_le in H. now rewrite H. Qed.

Lemma rand_Read_inv (n : nat) (rnd rnd' : rand.Reader) (bs : bytes) :
  rand.Read n rnd = (Ok bs, rnd') ->
  (n <= length rnd)%nat /\ bs = firstn n rnd /\ rnd' = skipn n rnd /\ length bs = n.
Proof.
  unfold rand.Read. destruct (Nat.leb_spec n (length rnd)) as [Hle | Hgt].
  - intros [= <- <-]. repeat split; trivial. rewrite length_firstn. lia.
  - discriminate.
Qed.

End CipherFacts.

(** * internal/crypto: the envelope cipher *)

Section EnvelopeCipher.

Lemma EncryptAES256GCM_eq (key p : bytes) (rnd : rand.Reader) :
  length key = 32%nat ->
  crypto.EncryptAES256GCM key p rnd
  = if (12 <=? length rnd)%nat then
      (Ok (firstn 12 rnd ++ sealed (gcm256 key) (firstn 12 rnd) p []),
       skipn 12 rnd)
    else
      (Err ("failed to generate nonce: "
              +:+ (if (length rnd =? 0)%nat then "EOF" else "unexpected EOF")),
       []).
Proof.
  intros Hk. unfold crypto.EncryptAES256GCM, bindR, ret, wrapR.
  rewrite NewCipher_ok by assumption. cbn [wrap_err].
  rewrite NewGCM_ok. cbn [wrap_err cipher.NonceSize cipher.nonceSize].
  unfold rand.Read.
  destruct (Nat.leb_spec 12 (length rnd)) as [Hle | Hgt].
  - cbn [wrap_err]. fold (gcm256 key).
    rewrite Seal_eq; [reflexivity |].
    rewrite length_firstn. cbn [gcm256 cipher.nonceSize]. lia.
  - reflexivity.
Qed.

Lemma DecryptAES256GCM_eq (key c : bytes) :
  length key = 32%nat ->
  crypto.DecryptAES256GCM key c
  = if (length c <? 12)%nat then Err "ciphertext too short"
    else wrap_err "failed to decrypt ciphertext"
           (cipher.Open (gcm256 key) [] (firstn 12 c) (skipn 12 c) []).
Proof.
  intros Hk. unfold crypto.DecryptAES256GCM.
  rewrite NewCipher_ok by assumption. cbn [wrap_err bind].
  rewrite NewGCM_ok. cbn [wrap_err bind cipher.NonceSize cipher.nonceSize].
  destruct (Nat.ltb_spec (length c) 12) as [Hlt | Hge]; [reflexivity |].
  unfold slice_to, slice_from.
  apply Nat.leb_le in Hge. rewrite Hge. reflexivity.
Qed.

Lemma Open_no_panic (g : cipher.AEAD) (dst nonce c data : bytes) :
  length nonce = cipher.nonceSize g ->
  is_panic (cipher.Open g dst nonce c data) = false.
Proof.
  intros Hn. unfold cipher.Open. apply Nat.eqb_eq in Hn. rewrite Hn.
  cbn [negb]. destruct (_ <? _)%nat; [reflexivity |].
  destruct (negb _); reflexivity.
Qed.

Lemma wrap_err_no_panic {A : Type} (pre : string) (r : result A) :
  is_panic (wrap_err pre r) = is_panic r.
Proof. now destruct r. Qed.

Lemma DecryptAES256GCM_no_panic (key c : bytes) :
  is_panic (crypto.DecryptAES256GCM key c) = false.
Proof.
  unfold crypto.DecryptAES256GCM.
  destruct (aes.NewCipher key) as [b | e | msg] eqn:Hb.
  - cbn [wrap_err bind]. rewrite NewGCM_ok.
    cbn [wrap_err bind cipher.NonceSize cipher.nonceSize].
    destruct (Nat.ltb_spec (length c) 12) as [Hlt | Hge]; [reflexivity |].
    unfold slice_to, slice_from.
    assert (Hle := Hge). apply Nat.leb_le in Hle. rewrite Hle. cbn [bind].
    rewrite wrap_err_no_panic. apply Open_no_panic.
    rewrite length_firstn. cbn [cipher.nonceSize]. lia.
  - reflexivity.
  - unfold aes.NewCipher in Hb. destruct (_ || _); discriminate.
Qed.

End EnvelopeCipher.

(** C3.  Round trip of the envelope cipher: whatever blob
    [EncryptAES256GCM] returns for a payload under a 32-byte key,
    [DecryptAES256GCM] under the same key returns exactly that payload; and
    encryption does return a blob whenever the random source delivers the
    twelve nonce bytes. *)
Theorem EncryptAES256GCM_roundtrip (k p : bytes) (rnd : rand.Reader) :
  length k = 32%nat ->
  (forall (c : bytes) (rnd' : rand.Reader),
      crypto.EncryptAES256GCM k p rnd = (Ok c, rnd') ->
      crypto.DecryptAES256GCM k c = Ok p)
  /\ ((12 <= length rnd)%nat ->
      exists c : bytes,
        crypto.EncryptAES256GCM k p rnd = (Ok c, skipn 12 rnd)
        /\ crypto.DecryptAES256GCM k c = Ok p).
Proof.
  intros Hk.
  assert (Hrt : forall nonce : bytes, length nonce = 12%nat ->
            crypto.DecryptAES256GCM k (nonce ++ sealed (gcm256 k) nonce p []) = Ok p).
  { intros nonce Hn. rewrite DecryptAES256GCM_eq by assumption.
    rewrite length_app, sealed_length.
    destruct (Nat.ltb_spec (length nonce + (length p + 16)) 12) as [Hlt | _]; [lia |].
    rewrite take_app_length', drop_app_length' by (symmetry; assumption).
    rewrite Open_sealed by (trivial; exact Hn). reflexivity. }
  split.
  - intros c rnd'. rewrite EncryptAES256GCM_eq by assumption.
    destruct (Nat.leb_spec 12 (length rnd)) as [Hle | Hgt]; [| discriminate].
    intros [= <- <-]. apply Hrt. rewrite length_firstn. lia.
  - intros Hle. rewrite EncryptAES256GCM_eq by assumption.
    apply Nat.leb_le in Hle as Hle'. rewrite Hle'.
    eexists; split; [reflexivity |]. apply Hrt. rewrite length_firstn. lia.
Qed.

Lemma EncryptAES256GCM_roundtrip_witness :
  length (repeat 7 32) = 32%nat
  /\ (forall (c : bytes) (rnd' : rand.Reader),
         crypto.EncryptAES256GCM (repeat 7 32) [123; 34; 120; 34; 58; 49; 125]
           (map Z.of_nat (seq 0 12)) = (Ok c, rnd') ->
         crypto.DecryptAES256GCM (repeat 7 32) c = Ok [123; 34; 120; 34; 58; 49; 125]).
Proof.
  split; [reflexivity |].
  apply (EncryptAES256GCM_roundtrip (repeat 7 32) [123; 34; 120; 34; 58; 49; 125]
           (map Z.of_nat (seq 0 12))).
  reflexivity.
Defined.

(** C8.  Wire format: a blob returned by [EncryptAES256GCM] under a 32-byte
    key is the twelve nonce bytes drawn from the random source, then as many
    ciphertext bytes as the payload has, then sixteen tag bytes, and nothing
    else: its length is the payload's plus 28, and its first twelve bytes are
    the nonce that [DecryptAES256GCM] splits off with [ciphertext[:12]]. *)
Theorem EncryptAES256GCM_wire_format (k p : bytes) (rnd rnd' : rand.Reader)
    (c : bytes) :
  length k = 32%nat ->
  crypto.EncryptAES256GCM k p rnd = (Ok c, rnd') ->
  length c = (length p + 28)%nat
  /\ slice_to 12 c = Ok (firstn 12 rnd)
  /\ length (firstn 12 rnd) = 12%nat
  /\ exists ct tag : bytes,
       c = firstn 12 rnd ++ ct ++ tag
       /\ length ct = length p /\ length tag = 16%nat
       /\ cipher.Seal (gcm256 k) [] (firstn 12 rnd) p [] = Ok (ct ++ tag).
Proof.
  intros Hk. rewrite EncryptAES256GCM_eq by assumption.
  destruct (Nat.leb_spec 12 (length rnd)) as [Hle | Hgt]; [| discriminate].
  intros [= <- <-].
  assert (Hn : length (firstn 12 rnd) = 12%nat) by (rewrite length_firstn; lia).
  split; [| split; [| split]].
  - rewrite length_app, sealed_length, Hn. lia.
  - unfold slice_to. rewrite length_app, sealed_length, Hn.
    cbn [Nat.leb]. f_equal. now apply take_app_length'.
  - exact Hn.
  - set (counter := cipher.deriveCounter (firstn 12 rnd)).
    set (ct := cipher.counterCrypt (length p) (cipher.block (gcm256 k))
                 (cipher.inc32 counter) p).
    exists ct, (cipher.auth (gcm256 k) ct []
                  (aes.Encrypt (cipher.block (gcm256 k)) counter)).
    split; [reflexivity |].
    split; [apply counterCrypt_length; lia |].
    split; [apply auth_length |].
    rewrite Seal_eq by exact Hn. reflexivity.
Qed.

Lemma EncryptAES256GCM_wire_format_witness :
  length (repeat 7 32) = 32%nat
  /\ length (firstn 12 (map Z.of_nat (seq 0 12))
               ++ sealed (gcm256 (repeat 7 32)) (map Z.of_nat (seq 0 12)) [104; 105] [])
     = (length [104; 105] + 28)%nat.
Proof.
  split; [reflexivity |].
  eapply (EncryptAES256GCM_wire_format (repeat 7 32) [104; 105]
            (map Z.of_nat (seq 0 12)) []).
  - reflexivity.
  - vm_compute. reflexivity.
Defined.

(** * internal/auth: the authorization matrix *)

(** C1.  On the closed sets, [IsAuthorized] is the table of section 4.3:
    ADMIN is allowed each of the five actions; SERVICE is allowed
    GENERATE_DATA_KEY, ENCRYPT and DECRYPT and denied ROTATE_MASTER_KEY and
    DELETE_DATA_KEY; AUDITOR is denied each of the five; and a role that is
    none of the three is denied with "unknown role", whatever the action. *)
Theorem IsAuthorized_matrix (name : string) :
  (forall a : auth.Action, In a closedActions ->
     auth.IsAuthorized (asRole name auth.RoleAdmin) a = None)
  /\ (forall a : auth.Action,
        In a [auth.ActionGenerateDataKey; auth.ActionEncrypt; auth.ActionDecrypt] ->
        auth.IsAuthorized (asRole name auth.RoleService) a = None)
  /\ (forall a : auth.Action,
        In a [auth.ActionRotateMasterKey; auth.ActionDeleteDataKey] ->
        auth.IsAuthorized (asRole name auth.RoleService) a
        = Some "action not authorized for SERVICE role")
  /\ (forall a : auth.Action, In a closedActions ->
        auth.IsAuthorized (asRole name auth.RoleAuditor) a
        = Some "action not authorized for AUDITOR role")
  /\ (forall (r : auth.Role) (a : auth.Action),
        r <> auth.RoleAdmin -> r <> auth.RoleService -> r <> auth.RoleAuditor ->
        auth.IsAuthorized (asRole name r) a = Some "unknown role").
Proof.
  split; [| split; [| split; [| split]]].
  - intros a _. reflexivity.
  - intros a Ha. simpl in Ha. intuition (subst; reflexivity).
  - intros a Ha. simpl in Ha. intuition (subst; reflexivity).
  - intros a _. reflexivity.
  - intros r a Ha Hs Hu. unfold auth.IsAuthorized. cbn [asRole auth.IdRole].
    apply String.eqb_neq in Ha, Hs, Hu. now rewrite Ha, Hs, Hu.
Qed.

Lemma IsAuthorized_matrix_witness :
  auth.IsAuthorized (asRole "uid-1" auth.RoleAdmin) auth.ActionDeleteDataKey = None
  /\ auth.IsAuthorized (asRole "uid-1" auth.RoleService) auth.ActionRotateMasterKey
     = Some "action not authorized for SERVICE role"
  /\ auth.IsAuthorized (asRole "uid-1" auth.RoleAuditor) auth.ActionDecrypt
     = Some "action not authorized for AUDITOR role"
  /\ auth.IsAuthorized (asRole "uid-1" "GUEST") auth.ActionEncrypt
     = Some "unknown role".
Proof.
  destruct (IsAuthorized_matrix "uid-1") as (Hadmin & _ & Hdeny & Haud & Hunk).
  split; [| split; [| split]].
  - apply Hadmin. simpl. tauto.
  - apply Hdeny. simpl. tauto.
  - apply Haud. simpl. tauto.
  - apply Hunk; discriminate.
Defined.

(** C10.  An identity whose role is ADMIN is allowed every action value,
    also one that is none of the five defined actions: the ADMIN branch
    returns nil without looking at the action. *)
Theorem IsAuthorized_admin_any_action (id : auth.Identity) (action : auth.Action) :
  auth.IdRole id = auth.RoleAdmin -> auth.IsAuthorized id action = None.
Proof. intros H. unfold auth.IsAuthorized. now rewrite H. Qed.

Lemma IsAuthorized_admin_any_action_witness :
  ~ In ("SHUTDOWN" : auth.Action) closedActions
  /\ auth.IsAuthorized (asRole "uid-1" auth.RoleAdmin) "SHUTDOWN" = None.
Proof.
  split.
  - simpl. intros H. repeat (destruct H as [H | H]; [discriminate |]). exact H.
  - apply (IsAuthorized_admin_any_action (asRole "uid-1" auth.RoleAdmin) "SHUTDOWN").
    reflexivity.
Defined.

(** * internal/storage: the master-key store *)

Section MasterKeyStoreFacts.

Import storage.

Implicit Types (m : MasterKeyStore) (mkMap : gmap string MasterKey).
Implicit Types (keys : list MasterKey) (k mk : MasterKey).

Lemma fillKeys_ok keys :
  Forall key32 keys ->
  forall mkMap,
    fillKeys keys mkMap = Ok (foldl (fun acc k => <[ID k := k]> acc) mkMap keys).
Proof.
  induction 1 as [| k keys Hk _ IH]; intros mkMap; [reflexivity |].
  cbn [fillKeys foldl]. unfold key32 in Hk. rewrite Hk. cbn. apply IH.
Qed.

Lemma fillKeys_bad keys :
  Exists (fun k => length (Key k) <> 32%nat) keys ->
  forall mkMap,
    fillKeys keys mkMap = Err "master key must be 32 bytes for AES-256".
Proof.
  induction keys as [| k keys IH]; intros Hex mkMap.
  - inversion Hex.
  - cbn [fillKeys].
    destruct (Nat.eqb_spec (length (Key k)) 32) as [Heq | Hne]; [| reflexivity].
    cbn [negb]. apply IH. inversion Hex; [contradiction | assumption].
Qed.

(** What the loop leaves in the map: every id it started with, and the
    id of every key of the list. *)
Lemma foldl_insert_keeps keys :
  forall mkMap (id : string),
    is_Some (mkMap !! id) ->
    is_Some (foldl (fun acc k => <[ID k := k]> acc) mkMap keys !! id).
Proof.
  induction keys as [| k keys IH]; intros mkMap id Hin; [exact Hin |].
  cbn [foldl]. apply IH.
  destruct (decide (ID k = id)) as [<- | Hne].
  - rewrite lookup_insert_eq. eauto.
  - now rewrite lookup_insert_ne.
Qed.

Lemma foldl_insert_has keys :
  forall mkMap k,
    In k keys ->
    is_Some (foldl (fun acc k => <[ID k := k]> acc) mkMap keys !! ID k).
Proof.
  induction keys as [| k' keys IH]; intros mkMap k Hin; [inversion Hin |].
  cbn [foldl]. destruct Hin as [-> | Hin].
  - apply foldl_insert_keeps. rewrite lookup_insert_eq. eauto.
  - now apply IH.
Qed.

End MasterKeyStoreFacts.

(** C5.  [NewMasterKeyStore] refuses the empty list and every list that
    holds a key whose material is not exactly 32 bytes (the result is an
    error, which carries no store); on a non-empty list of 32-byte keys it
    returns a store whose active key id is the id of the first key, and
    that id is in the key map. *)
Theorem NewMasterKeyStore_validation :
  storage.NewMasterKeyStore [] = Err "no master keys provided"
  /\ (forall keys : list storage.MasterKey,
         Exists (fun k => length (storage.Key k) <> 32%nat) keys ->
         storage.NewMasterKeyStore keys
         = Err "master key must be 32 bytes for AES-256")
  /\ (forall (k0 : storage.MasterKey) (rest : list storage.MasterKey),
         Forall key32 (k0 :: rest) ->
         exists m : storage.MasterKeyStore,
           storage.NewMasterKeyStore (k0 :: rest) = Ok m
           /\ storage.activeKeyID m = storage.ID k0
           /\ is_Some (storage.masterKeys m !! storage.ID k0)).
Proof.
  split; [reflexivity |]. split.
  - intros keys Hex. unfold storage.NewMasterKeyStore.
    destruct keys as [| k keys]; [inversion Hex |].
    cbn [length Nat.eqb]. now rewrite fillKeys_bad.
  - intros k0 rest Hall. unfold storage.NewMasterKeyStore.
    cbn [length Nat.eqb]. rewrite fillKeys_ok by assumption. cbn [bind].
    eexists. split; [reflexivity |]. split; [reflexivity |].
    cbn [storage.masterKeys]. apply foldl_insert_has. now left.
Qed.

Lemma NewMasterKeyStore_validation_witness :
  storage.NewMasterKeyStore
    [ {| storage.ID := "k0"; storage.Key := repeat 7 32 |};
      {| storage.ID := "k1"; storage.Key := repeat 9 31 |} ]
  = Err "master key must be 32 bytes for AES-256"
  /\ exists m : storage.MasterKeyStore,
       storage.NewMasterKeyStore
         [ {| storage.ID := "k0"; storage.Key := repeat 7 32 |};
           {| storage.ID := "k1"; storage.Key := repeat 9 32 |} ]
       = Ok m
       /\ storage.activeKeyID m = "k0"
       /\ is_Some (storage.masterKeys m !! "k0").
Proof.
  destruct NewMasterKeyStore_validation as (_ & Hbad & Hgood).
  split.
  - apply Hbad. right. left. simpl. lia.
  - apply (Hgood {| storage.ID := "k0"; storage.Key := repeat 7 32 |}).
    repeat constructor.
Defined.

Section StoreRuns.

Import storage.

Implicit Types (m : MasterKeyStore) (mk : MasterKey) (rnd : rand.Reader).

Lemma newMasterKey_inv rnd rnd' mk :
  newMasterKey rnd = (Ok mk, rnd') -> length (Key mk) = 32%nat.
Proof.
  unfold newMasterKey, bindR, ret.
  destruct (rand.Read 32 rnd) as [[kb | e | msg] rnd1] eqn:Hread; try discriminate.
  apply rand_Read_inv in Hread as (_ & _ & _ & Hlen).
  destruct (uuid.New rnd1) as [[u | e | msg] rnd2]; try discriminate.
  now intros [= <- _].
Qed.

Lemma RotateMasterKey_store m rnd :
  snd (fst (RotateMasterKey m rnd))
  = match newMasterKey rnd with
    | (Ok newMK, _) =>
        {| masterKeys := <[ID newMK := newMK]> (masterKeys m);
           activeKeyID := ID newMK |}
    | _ => m
    end.
Proof.
  unfold RotateMasterKey.
  now destruct (newMasterKey rnd) as [[newMK | e | msg] rnd'].
Qed.

Lemma exec_active_known m (c : Call) :
  is_Some (masterKeys m !! activeKeyID m) ->
  is_Some (masterKeys (exec m c) !! activeKeyID (exec m c)).
Proof.
  intros Hinv. destruct c as [| dek rnd | e id | rnd]; trivial.
  cbn [exec]. rewrite RotateMasterKey_store.
  destruct (newMasterKey rnd) as [[newMK | e | msg] rnd']; trivial.
  cbn [masterKeys activeKeyID]. rewrite lookup_insert_eq. eauto.
Qed.

Lemma exec_dom m (c : Call) : dom (masterKeys m) ⊆ dom (masterKeys (exec m c)).
Proof.
  destruct c as [| dek rnd | e id | rnd]; trivial.
  cbn [exec]. rewrite RotateMasterKey_store.
  destruct (newMasterKey rnd) as [[newMK | e | msg] rnd']; trivial.
  cbn [masterKeys]. rewrite dom_insert. set_solver.
Qed.

Lemma reachable_active_known m :
  reachable m -> is_Some (masterKeys m !! activeKeyID m).
Proof.
  induction 1 as [keys m Hnew | m c _ IH]; [| now apply exec_active_known].
  destruct keys as [| k0 rest]; [discriminate |].
  unfold NewMasterKeyStore in Hnew. cbn [length Nat.eqb] in Hnew.
  destruct (fillKeys (k0 :: rest) ∅) as [mkMap | e | msg] eqn:Hfill;
    try discriminate.
  cbn [bind] in Hnew. injection Hnew as <-. cbn [masterKeys activeKeyID].
  assert (Hall : Forall key32 (k0 :: rest)).
  { apply Forall_forall. intros k Hk.
    destruct (Nat.eq_dec (length (Key k)) 32%nat) as [Heq | Hne]; [exact Heq |].
    rewrite fillKeys_bad in Hfill; [discriminate |].
    apply Exists_exists. exists k. split; [exact Hk | exact Hne]. }
  rewrite fillKeys_ok in Hfill by assumption. injection Hfill as <-.
  apply (foldl_insert_has (k0 :: rest) ∅ k0). now left.
Qed.

(** Every key of a reachable store has 32 bytes. *)
Lemma reachable_key32 m :
  reachable m -> forall (id : string) mk, masterKeys m !! id = Some mk -> key32 mk.
Proof.
  induction 1 as [keys m Hnew | m c _ IH].
  - unfold NewMasterKeyStore in Hnew.
    destruct (length keys =? 0)%nat; [discriminate |].
    destruct (fillKeys keys ∅) as [mkMap | e | msg] eqn:Hfill; try discriminate.
    cbn [bind] in Hnew. destruct keys as [| k0 rest]; [discriminate |].
    injection Hnew as <-. cbn [masterKeys].
    assert (Hgen : forall keys mkMap mkMap',
               fillKeys keys mkMap = Ok mkMap' ->
               (forall id mk, mkMap !! id = Some mk -> key32 mk) ->
               forall id mk, mkMap' !! id = Some mk -> key32 mk).
    { clear. induction keys as [| k keys IH]; intros mkMap mkMap' Hfill Hold.
      - injection Hfill as <-. exact Hold.
      - cbn [fillKeys] in Hfill.
        destruct (Nat.eqb_spec (length (Key k)) 32) as [Heq | Hne];
          [| discriminate].
        cbn [negb] in Hfill. apply (IH _ _ Hfill).
        intros id mk. destruct (decide (ID k = id)) as [<- | Hne].
        + rewrite lookup_insert_eq. now intros [= <-].
        + rewrite lookup_insert_ne by assumption. apply Hold. }
    apply (Hgen _ _ _ Hfill). intros id mk. now rewrite lookup_empty.
  - destruct c as [| dek rnd | e id | rnd]; trivial.
    cbn [exec]. rewrite RotateMasterKey_store.
    destruct (newMasterKey rnd) as [[newMK | e | msg] rnd'] eqn:Hnew; trivial.
    cbn [masterKeys]. intros id mk.
    destruct (decide (ID newMK = id)) as [<- | Hne].
    + rewrite lookup_insert_eq. intros [= <-]. exact (newMasterKey_inv _ _ _ Hnew).
    + rewrite lookup_insert_ne by assumption. apply IH.
Qed.

Lemma EncryptDataKey_inv m (dek : bytes) rnd (E : bytes) (A : string) rnd' :
  EncryptDataKey m dek rnd = (Ok (E, A), rnd') ->
  exists mk (b : aes.Block),
    masterKeys m !! activeKeyID m = Some mk
    /\ aes.NewCipher (Key mk) = Ok b
    /\ A = ID mk
    /\ (12 <= length rnd)%nat
    /\ E = firstn 12 rnd ++ sealed (gcmOf b) (firstn 12 rnd) dek []
    /\ rnd' = skipn 12 rnd.
Proof.
  unfold EncryptDataKey.
  destruct (masterKeys m !! activeKeyID m) as [mk |]; [| discriminate].
  unfold bindR, ret.
  destruct (aes.NewCipher (Key mk)) as [b | e | msg] eqn:Hb; try discriminate.
  rewrite NewGCM_ok. cbn [cipher.NonceSize cipher.nonceSize].
  destruct (rand.Read 12 rnd) as [[nonce | e | msg] rnd1] eqn:Hread;
    try discriminate.
  apply rand_Read_inv in Hread as (Hle & -> & -> & Hlen).
  fold (gcmOf b). rewrite Seal_eq by exact Hlen.
  intros [= <- <- <-]. exists mk, b. repeat split; trivial.
Qed.

Lemma EncryptDataKey_key32 m (dek : bytes) rnd mk :
  masterKeys m !! activeKeyID m = Some mk -> key32 mk ->
  EncryptDataKey m dek rnd
  = if (12 <=? length rnd)%nat then
      (Ok (firstn 12 rnd ++ sealed (gcm256 (Key mk)) (firstn 12 rnd) dek [],
           ID mk),
       skipn 12 rnd)
    else
      (Err (if (length rnd =? 0)%nat then "EOF" else "unexpected EOF"), []).
Proof.
  intros Hm Hk. unfold EncryptDataKey. rewrite Hm. unfold bindR, ret.
  rewrite NewCipher_ok by exact Hk. rewrite NewGCM_ok.
  cbn [cipher.NonceSize cipher.nonceSize]. unfold rand.Read.
  destruct (Nat.leb_spec 12 (length rnd)) as [Hle | Hgt]; [| reflexivity].
  fold (gcm256 (Key mk)). rewrite Seal_eq; [reflexivity |].
  rewrite length_firstn. cbn [gcm256 cipher.nonceSize]. lia.
Qed.

Lemma DecryptDataKey_sealed m (id : string) mk (b : aes.Block)
    (nonce dek : bytes) :
  masterKeys m !! id = Some mk ->
  aes.NewCipher (Key mk) = Ok b ->
  length nonce = 12%nat ->
  DecryptDataKey m (nonce ++ sealed (gcmOf b) nonce dek []) id = Ok dek.
Proof.
  intros Hm Hb Hn. unfold DecryptDataKey. rewrite Hm, Hb. cbn [bind].
  rewrite NewGCM_ok. cbn [bind cipher.NonceSize cipher.nonceSize].
  rewrite length_app, sealed_length.
  destruct (Nat.ltb_spec (length nonce + (length dek + 16)) 12) as [Hlt | _];
    [lia |].
  unfold slice_to, slice_from. rewrite length_app, sealed_length.
  destruct (Nat.leb_spec 12 (length nonce + (length dek + 16))) as [_ | Hgt];
    [| lia].
  cbn [bind].
  rewrite take_app_length', drop_app_length' by (symmetry; assumption).
  fold (gcmOf b). now apply Open_sealed.
Qed.

Lemma rotations_lookup (rnds : list rand.Reader) :
  forall m (id : string),
    ~ In id (rotatedIDs rnds) ->
    masterKeys (rotations m rnds) !! id = masterKeys m !! id.
Proof.
  induction rnds as [| rnd rest IH]; intros m id Hfresh; [reflexivity |].
  cbn [rotations]. unfold rotatedIDs in Hfresh. cbn [flat_map] in Hfresh.
  fold (rotatedIDs rest) in Hfresh.
  rewrite IH by (intros Hin; apply Hfresh, in_or_app; now right).
  rewrite RotateMasterKey_store.
  destruct (newMasterKey rnd) as [[newMK | e | msg] rnd']; trivial.
  cbn [masterKeys]. apply lookup_insert_ne.
  intros Heq. apply Hfresh, in_or_app. left. rewrite Heq. now left.
Qed.

Lemma rotations_none (rnds : list rand.Reader) :
  forall m, rotatedIDs rnds = [] -> rotations m rnds = m.
Proof.
  induction rnds as [| rnd rest IH]; intros m Hnone; [reflexivity |].
  unfold rotatedIDs in Hnone. cbn [flat_map] in Hnone.
  apply app_eq_nil in Hnone as [Hhd Htl].
  cbn [rotations]. rewrite RotateMasterKey_store.
  destruct (newMasterKey rnd) as [[newMK | e | msg] rnd'];
    try discriminate; now apply IH.
Qed.

Lemma rotations_active (rnds : list rand.Reader) :
  forall m,
    rotatedIDs rnds <> [] ->
    exists mk,
      GetActiveKey (rotations m rnds) = Ok mk
      /\ ID mk = activeKeyID (rotations m rnds)
      /\ In (ID mk) (rotatedIDs rnds).
Proof.
  induction rnds as [| rnd rest IH]; intros m Hsome; [now elim Hsome |].
  cbn [rotations].
  destruct (decide (rotatedIDs rest = [])) as [Hnone | Hmore].
  - rewrite rotations_none by assumption.
    unfold rotatedIDs in Hsome |- *. cbn [flat_map] in Hsome |- *.
    fold (rotatedIDs rest) in Hsome |- *. rewrite Hnone, app_nil_r in Hsome |- *.
    rewrite RotateMasterKey_store.
    destruct (newMasterKey rnd) as [[newMK | e | msg] rnd']; try congruence.
    exists newMK. unfold GetActiveKey. cbn [masterKeys activeKeyID].
    rewrite lookup_insert_eq. repeat split. now left.
  - destruct (IH (snd (fst (RotateMasterKey m rnd))) Hmore) as (mk & Hget & Hid & Hin).
    exists mk. repeat split; trivial.
    unfold rotatedIDs. cbn [flat_map]. apply in_or_app. now right.
Qed.

End StoreRuns.

(** C6, as the code has it.  In every store reachable from a successful
    [NewMasterKeyStore] by calls of [GetActiveKey], [EncryptDataKey],
    [DecryptDataKey] and [RotateMasterKey], the active key id is in the key
    map, so [GetActiveKey] returns that key and neither it nor
    [EncryptDataKey] takes the "active master key not found" branch.  No
    call removes an id from the map: the ids of the map before a call are
    ids of the map after it.  And a call leaves what the map holds under an
    id as it is, unless the call is a rotation that returns that very id. *)
Theorem store_active_key_invariant :
  (forall m : storage.MasterKeyStore,
      reachable m ->
      exists mk : storage.MasterKey,
        storage.masterKeys m !! storage.activeKeyID m = Some mk
        /\ storage.GetActiveKey m = Ok mk
        /\ forall (dek : bytes) (rnd : rand.Reader),
             fst (storage.EncryptDataKey m dek rnd)
             <> Err "active master key not found")
  /\ (forall (m : storage.MasterKeyStore) (c : Call),
         dom (storage.masterKeys m) ⊆ dom (storage.masterKeys (exec m c)))
  /\ (forall (m : storage.MasterKeyStore) (c : Call) (id : string),
         ~ issues c id ->
         storage.masterKeys (exec m c) !! id = storage.masterKeys m !! id).
Proof.
  split; [| split; [apply exec_dom |]].
  - intros m Hreach.
    destruct (reachable_active_known m Hreach) as [mk Hmk].
    exists mk. split; [exact Hmk |]. split.
    + unfold storage.GetActiveKey. now rewrite Hmk.
    + intros dek rnd.
      rewrite (EncryptDataKey_key32 m dek rnd mk Hmk)
        by exact (reachable_key32 m Hreach _ _ Hmk).
      destruct (12 <=? length rnd)%nat; cbn [fst]; [discriminate |].
      destruct (length rnd =? 0)%nat; discriminate.
  - intros m c id Hfresh.
    destruct c as [| dek rnd | e id' | rnd]; try reflexivity.
    cbn [issues] in Hfresh. cbn [exec].
    exact (rotations_lookup [rnd] m id Hfresh).
Qed.

Lemma store_active_key_invariant_witness :
  (exists mk : storage.MasterKey,
      storage.GetActiveKey
        (exec (exec {| storage.masterKeys :=
                         {[ "k0" := {| storage.ID := "k0"; storage.Key := repeat 7 32 |} ]};
                       storage.activeKeyID := "k0" |}
                    (CallRotateMasterKey (map Z.of_nat (seq 0 48))))
              (CallRotateMasterKey []))
      = Ok mk)
  /\ storage.masterKeys (exec cx_store (CallRotateMasterKey cx_rotate_other)) !! cx_id
     = storage.masterKeys cx_store !! cx_id.
Proof.
  destruct store_active_key_invariant as (Hinv & _ & Hkept).
  split.
  - edestruct Hinv as (mk & _ & Hget & _); [| exists mk; exact Hget].
    do 2 apply reachable_call.
    apply (reachable_new [ {| storage.ID := "k0"; storage.Key := repeat 7 32 |} ]).
    reflexivity.
  - apply Hkept. vm_compute. intros [H | []]. discriminate H.
Defined.

(** C6, as stated, fails at the rotation that draws an id already in use:
    the store is a reachable one, the id stays in the map, but the key that
    was filed under it is replaced, so the entry the map held before the call
    is not an entry of the map after it. *)
Lemma store_active_key_invariant_counterexample :
  reachable cx_store
  /\ storage.masterKeys cx_store !! cx_id
     = Some {| storage.ID := cx_id; storage.Key := repeat 7 32 |}
  /\ storage.masterKeys (exec cx_store (CallRotateMasterKey cx_rotate_same)) !! cx_id
     = Some {| storage.ID := cx_id; storage.Key := repeat 1 32 |}
  /\ ~ (storage.masterKeys cx_store
        ⊆ storage.masterKeys (exec cx_store (CallRotateMasterKey cx_rotate_same))).
Proof.
  assert (Hbefore : storage.masterKeys cx_store !! cx_id
                    = Some {| storage.ID := cx_id; storage.Key := repeat 7 32 |}).
  { vm_compute. reflexivity. }
  assert (Hafter : storage.masterKeys
                     (exec cx_store (CallRotateMasterKey cx_rotate_same)) !! cx_id
                   = Some {| storage.ID := cx_id; storage.Key := repeat 1 32 |}).
  { vm_compute. reflexivity. }
  split.
  { apply (reachable_new [ {| storage.ID := cx_id; storage.Key := repeat 7 32 |} ]).
    reflexivity. }
  split; [exact Hbefore |]. split; [exact Hafter |].
  intros Hsub.
  assert (Hkept := lookup_weaken _ _ _ _ Hbefore Hsub).
  rewrite Hafter in Hkept. discriminate Hkept.
Qed.

(** C7.  A blob shorter than the twelve-byte nonce is refused with
    "ciphertext too short": by [DecryptAES256GCM] under any 32-byte key, by
    [DecryptDataKey] for any id whose key has 32 bytes, and so by
    [DecryptDataKey] for every id known to a store reachable from
    [NewMasterKeyStore].  Neither function ever panics, on any input: the
    two slice expressions are reached only with at least twelve bytes. *)
Theorem decrypt_short_blob :
  (forall k blob : bytes,
      length k = 32%nat -> (length blob < 12)%nat ->
      crypto.DecryptAES256GCM k blob = Err "ciphertext too short")
  /\ (forall (m : storage.MasterKeyStore) (id : string) (mk : storage.MasterKey)
             (blob : bytes),
         storage.masterKeys m !! id = Some mk ->
         length (storage.Key mk) = 32%nat -> (length blob < 12)%nat ->
         storage.DecryptDataKey m blob id = Err "ciphertext too short")
  /\ (forall (m : storage.MasterKeyStore) (id : string) (blob : bytes),
         reachable m -> is_Some (storage.masterKeys m !! id) ->
         (length blob < 12)%nat ->
         storage.DecryptDataKey m blob id = Err "ciphertext too short")
  /\ (forall k blob : bytes, is_panic (crypto.DecryptAES256GCM k blob) = false)
  /\ (forall (m : storage.MasterKeyStore) (blob : bytes) (id : string),
         is_panic (storage.DecryptDataKey m blob id) = false).
Proof.
  assert (Hstore : forall (m : storage.MasterKeyStore) (id : string)
                          (mk : storage.MasterKey) (blob : bytes),
             storage.masterKeys m !! id = Some mk ->
             length (storage.Key mk) = 32%nat -> (length blob < 12)%nat ->
             storage.DecryptDataKey m blob id = Err "ciphertext too short").
  { intros m id mk blob Hm Hk Hshort. unfold storage.DecryptDataKey.
    rewrite Hm, NewCipher_ok by assumption. cbn [bind].
    rewrite NewGCM_ok. cbn [bind cipher.NonceSize cipher.nonceSize].
    apply Nat.ltb_lt in Hshort. now rewrite Hshort. }
  split; [| split; [exact Hstore | split; [| split]]].
  - intros k blob Hk Hshort. rewrite DecryptAES256GCM_eq by assumption.
    apply Nat.ltb_lt in Hshort. now rewrite Hshort.
  - intros m id blob Hreach [mk Hmk] Hshort.
    apply (Hstore m id mk); trivial. exact (reachable_key32 m Hreach id mk Hmk).
  - apply DecryptAES256GCM_no_panic.
  - intros m blob id. unfold storage.DecryptDataKey.
    destruct (storage.masterKeys m !! id) as [mk |]; [| reflexivity].
    destruct (aes.NewCipher (storage.Key mk)) as [b | e | msg] eqn:Hb.
    + cbn [bind]. rewrite NewGCM_ok.
      cbn [bind cipher.NonceSize cipher.nonceSize].
      destruct (Nat.ltb_spec (length blob) 12) as [Hlt | Hge]; [reflexivity |].
      unfold slice_to, slice_from.
      assert (Hle := Hge). apply Nat.leb_le in Hle. rewrite Hle. cbn [bind].
      apply Open_no_panic. rewrite length_firstn. cbn [cipher.nonceSize]. lia.
    + reflexivity.
    + unfold aes.NewCipher in Hb. destruct (_ || _); discriminate.
Qed.

Lemma decrypt_short_blob_witness :
  crypto.DecryptAES256GCM (repeat 7 32) [1; 2; 3; 4; 5; 6; 7; 8; 9; 10; 11]
  = Err "ciphertext too short"
  /\ storage.DecryptDataKey
       (exec cx_store (CallRotateMasterKey cx_rotate_other))
       [] "20212223-2425-4627-a829-2a2b2c2d2e2f"
     = Err "ciphertext too short".
Proof.
  destruct decrypt_short_blob as (Hc & _ & Hs & _).
  split.
  - apply Hc; [reflexivity | simpl; lia].
  - apply Hs.
    + apply reachable_call.
      apply (reachable_new [ {| storage.ID := cx_id; storage.Key := repeat 7 32 |} ]).
      reflexivity.
    + vm_compute. eauto.
    + simpl. lia.
Defined.

(** C2, as the code has it.  A DEK wrapped by [EncryptDataKey] under the
    active key [A] is still unwrapped by [DecryptDataKey] with [A] after any
    series of [RotateMasterKey] calls, provided none of them drew the id [A]
    for its new key; and once a rotation has succeeded, [GetActiveKey]
    returns a key with another id. *)
Theorem rotation_durability (m : storage.MasterKeyStore) (dek : bytes)
    (rnd rnd' : rand.Reader) (E : bytes) (A : string)
    (rnds : list rand.Reader) :
  storage.EncryptDataKey m dek rnd = (Ok (E, A), rnd') ->
  A = storage.activeKeyID m ->
  ~ In A (rotatedIDs rnds) ->
  storage.DecryptDataKey (rotations m rnds) E A = Ok dek
  /\ (rotatedIDs rnds <> [] ->
      exists B : storage.MasterKey,
        storage.GetActiveKey (rotations m rnds) = Ok B /\ storage.ID B <> A).
Proof.
  intros Henc Hactive Hfresh.
  apply EncryptDataKey_inv in Henc as (mk & b & Hmk & Hb & HA & Hle & -> & _).
  split.
  - apply (DecryptDataKey_sealed _ _ mk b); trivial.
    + rewrite rotations_lookup by exact Hfresh. now rewrite Hactive.
    + rewrite length_firstn. lia.
  - intros Hsome.
    destruct (rotations_active rnds m Hsome) as (B & Hget & _ & Hin).
    exists B. split; [exact Hget |]. intros Heq. apply Hfresh. now rewrite <- Heq.
Qed.

Lemma rotation_durability_witness :
  storage.DecryptDataKey
    (rotations cx_store [cx_rotate_other; []; cx_rotate_other])
    (firstn 12 cx_wrap_rnd
       ++ sealed (gcm256 (repeat 7 32)) (firstn 12 cx_wrap_rnd) cx_dek [])
    cx_id
  = Ok cx_dek.
Proof.
  apply (rotation_durability cx_store cx_dek cx_wrap_rnd [] _ cx_id
           [cx_rotate_other; []; cx_rotate_other]).
  - vm_compute. reflexivity.
  - reflexivity.
  - vm_compute. intros H. repeat (destruct H as [H | H]; [discriminate |]). exact H.
Defined.

(** C2, as stated, fails when a rotation draws the id [A] again: the map
    entry of [A] is overwritten with the new key material, and the blob
    wrapped before no longer authenticates, although a further rotation has
    made another id the active one. *)
Lemma rotation_durability_counterexample :
  exists (E : bytes) (rnd' : rand.Reader) (B : storage.MasterKey),
    storage.EncryptDataKey cx_store cx_dek cx_wrap_rnd = (Ok (E, cx_id), rnd')
    /\ cx_id = storage.activeKeyID cx_store
    /\ reachable cx_store
    /\ storage.GetActiveKey (rotations cx_store [cx_rotate_same; cx_rotate_other])
       = Ok B
    /\ storage.ID B <> cx_id
    /\ storage.DecryptDataKey
         (rotations cx_store [cx_rotate_same; cx_rotate_other]) E cx_id
       = Err cipher.errOpen.
Proof.
  eexists _, _, _.
  split; [vm_compute; reflexivity |].
  split; [reflexivity |].
  split.
  { apply (reachable_new [ {| storage.ID := cx_id; storage.Key := repeat 7 32 |} ]).
    reflexivity. }
  split; [vm_compute; reflexivity |].
  split; [discriminate |].
  vm_compute. reflexivity.
Qed.

(** The end-to-end scenario of the specification: a store with the one key
    "k0", a DEK wrapped under it, the payload {"x":1} encrypted under the
    DEK, then a rotation; the stored blob and "k0" still give the DEK, and
    the DEK still decrypts the payload. *)
Example rotation_scenario :
  exists (m0 : storage.MasterKeyStore) (dek E C : bytes) (newKey : storage.MasterKey),
    storage.NewMasterKeyStore [ {| storage.ID := "k0"; storage.Key := repeat 7 32 |} ]
    = Ok m0
    /\ fst (crypto.GenerateKey (map Z.of_nat (seq 50 32))) = Ok dek
    /\ fst (storage.EncryptDataKey m0 dek cx_wrap_rnd) = Ok (E, "k0")
    /\ fst (crypto.EncryptAES256GCM dek [123; 34; 120; 34; 58; 49; 125]
              (map Z.of_nat (seq 200 12))) = Ok C
    /\ fst (fst (storage.RotateMasterKey m0 cx_rotate_other)) = Ok newKey
    /\ storage.GetActiveKey (exec m0 (CallRotateMasterKey cx_rotate_other))
       = Ok newKey
    /\ storage.ID newKey <> "k0"
    /\ bind (storage.DecryptDataKey
               (exec m0 (CallRotateMasterKey cx_rotate_other)) E "k0")
            (fun d => crypto.DecryptAES256GCM d C)
       = Ok [123; 34; 120; 34; 58; 49; 125].
Proof.
  eexists _, _, _, _, _.
  split; [reflexivity |].
  split; [vm_compute; reflexivity |].
  split; [vm_compute; reflexivity |].
  split; [vm_compute; reflexivity |].
  split; [vm_compute; reflexivity |].
  split; [vm_compute; reflexivity |].
  split; [discriminate |].
  vm_compute. reflexivity.
Qed.

(** * internal/server: the handlers *)

Section Handlers.

Import server.

Lemma rotate_gate (id : auth.Identity) :
  auth.IsAuthorized id auth.ActionRotateMasterKey = None
  <-> auth.IdRole id = auth.RoleAdmin.
Proof.
  unfold auth.IsAuthorized.
  destruct (String.eqb_spec (auth.IdRole id) auth.RoleAdmin) as [Ha | Ha];
    [tauto |].
  destruct (String.eqb (auth.IdRole id) auth.RoleService).
  - cbn. split; [discriminate | contradiction].
  - destruct (String.eqb (auth.IdRole id) auth.RoleAuditor);
      (split; [discriminate | contradiction]).
Qed.

Lemma delete_gate_same (id : auth.Identity) :
  auth.IsAuthorized id auth.ActionRotateMasterKey
  = auth.IsAuthorized id auth.ActionDeleteDataKey.
Proof.
  unfold auth.IsAuthorized.
  destruct (String.eqb (auth.IdRole id) auth.RoleAdmin); [reflexivity |].
  destruct (String.eqb (auth.IdRole id) auth.RoleService); reflexivity.
Qed.

Lemma InsertDEK_inv (d d' : storage.MongoDEKStore) (E : bytes)
    (A dekID : string) :
  storage.InsertDEK d E A = (Ok dekID, d') ->
  exists oid : mongo.ObjectID,
    dekID = mongo.Hex oid
    /\ mongo.docs (storage.collection d) !! oid = None
    /\ mongo.docs (storage.collection d')
       = <[oid := {| storage.DocID := oid; storage.DEK := E;
                     storage.MasterKeyID := A |}]>
           (mongo.docs (storage.collection d)).
Proof.
  unfold storage.InsertDEK, mongo.InsertOne.
  destruct (negb (mongo.reachable (storage.collection d))); [discriminate |].
  destruct (mongo.docs (storage.collection d) !! _) eqn:Hfree; [discriminate |].
  cbn [wrap_err bind]. intros [= <- <-].
  exists (Z_to_be 12 (mongo.nextID (storage.collection d))).
  split; [reflexivity |]. split; [exact Hfree | reflexivity].
Qed.

End Handlers.

(** C4.  [DeleteDataKeyHandler] is gated on the caller's role.  The check
    it makes, [IsAuthorized] at ROTATE_MASTER_KEY, decides for every
    identity as [IsAuthorized] at DELETE_DATA_KEY does, with the same
    reason.  The handler answers 403 exactly when the role is not ADMIN,
    and then the server is as it was: no deletion happened.  For an ADMIN
    whose request names a record, the DEK store after the handler is the
    DEK store after [DeleteDEK] of that record, and the answer is 204
    exactly when [DeleteDEK] returned no error. *)
Theorem DeleteDataKeyHandler_gate (s : server.Server) (id : auth.Identity)
    (body : option server.DeleteDEKRequest) :
  auth.IsAuthorized id auth.ActionRotateMasterKey
  = auth.IsAuthorized id auth.ActionDeleteDataKey
  /\ (statusOf (fst (server.DeleteDataKeyHandler s (deleteRequest id body)))
      = Some StatusForbidden
      <-> auth.IdRole id <> auth.RoleAdmin)
  /\ (auth.IdRole id <> auth.RoleAdmin ->
      exists reason : error,
        auth.IsAuthorized id auth.ActionDeleteDataKey = Some reason
        /\ server.DeleteDataKeyHandler s (deleteRequest id body)
           = (http_Error reason StatusForbidden, s))
  /\ (auth.IdRole id = auth.RoleAdmin ->
      forall req : server.DeleteDEKRequest,
        body = Some req ->
        server.DEKStore (snd (server.DeleteDataKeyHandler s (deleteRequest id body)))
        = snd (storage.DeleteDEK (server.DEKStore s) (server.DEKID req))
        /\ (fst (server.DeleteDataKeyHandler s (deleteRequest id body))
            = Sent StatusNoContent NoBody
            <-> is_ok (fst (storage.DeleteDEK (server.DEKStore s) (server.DEKID req)))
                = true)).
Proof.
  split; [apply delete_gate_same |].
  assert (Hdeny : auth.IdRole id <> auth.RoleAdmin ->
            exists reason : error,
              auth.IsAuthorized id auth.ActionDeleteDataKey = Some reason
              /\ server.DeleteDataKeyHandler s (deleteRequest id body)
                 = (http_Error reason StatusForbidden, s)).
  { intros Hrole. unfold server.DeleteDataKeyHandler.
    cbn [server.getIdentity deleteRequest ctxIdentity].
    rewrite <- delete_gate_same.
    destruct (auth.IsAuthorized id auth.ActionRotateMasterKey) as [reason |] eqn:Hgate.
    - exists reason. split; reflexivity.
    - apply rotate_gate in Hgate. contradiction. }
  assert (Hadmin : auth.IdRole id = auth.RoleAdmin ->
            server.DeleteDataKeyHandler s (deleteRequest id body)
            = match body with
              | None => (http_Error "invalid request body" StatusBadRequest, s)
              | Some req =>
                  match storage.DeleteDEK (server.DEKStore s) (server.DEKID req) with
                  | (Err _, d) =>
                      (http_Error "failed to delete DEK" StatusInternalServerError,
                       server.withDEKStore s d)
                  | (Panic msg, d) => (Panicked msg, server.withDEKStore s d)
                  | (Ok _, d) => (Sent StatusNoContent NoBody, server.withDEKStore s d)
                  end
              end).
  { intros Hrole. unfold server.DeleteDataKeyHandler.
    cbn [server.getIdentity deleteRequest ctxIdentity decoded].
    apply rotate_gate in Hrole. rewrite Hrole. reflexivity. }
  split; [| split; [exact Hdeny |]].
  - split.
    + intros Hstatus Hrole. rewrite (Hadmin Hrole) in Hstatus.
      destruct body as [req |]; [| discriminate].
      destruct (storage.DeleteDEK _ _) as [[[] | e | msg] d]; discriminate.
    + intros Hrole. destruct (Hdeny Hrole) as (reason & _ & ->). reflexivity.
  - intros Hrole req ->. rewrite (Hadmin Hrole).
    destruct (storage.DeleteDEK _ _) as [[[] | e | msg] d]; cbn; split; trivial;
      split; (discriminate || reflexivity).
Qed.

Lemma DeleteDataKeyHandler_gate_witness :
  server.DeleteDataKeyHandler cx_server
    (deleteRequest (asRole "uid-2" auth.RoleService) cx_delete)
  = (http_Error "action not authorized for SERVICE role" StatusForbidden, cx_server)
  /\ mongo.docs (storage.collection (server.DEKStore (snd
       (server.DeleteDataKeyHandler cx_server
          (deleteRequest (asRole "uid-1" auth.RoleAdmin) cx_delete))))) !! cx_oid
     = None.
Proof.
  split.
  - destruct (DeleteDataKeyHandler_gate cx_server
                (asRole "uid-2" auth.RoleService) cx_delete)
      as (_ & _ & Hdeny & _).
    destruct Hdeny as (reason & Hreason & ->); [discriminate |].
    vm_compute in Hreason. now injection Hreason as <-.
  - destruct (DeleteDataKeyHandler_gate cx_server
                (asRole "uid-1" auth.RoleAdmin) cx_delete)
      as (_ & _ & _ & Hadmin).
    destruct (Hadmin eq_refl _ eq_refl) as [-> _].
    vm_compute. reflexivity.
Defined.

Section GenerateDataKey.

Lemma GenerateKey_inv (rnd rnd1 : rand.Reader) (dek : bytes) :
  crypto.GenerateKey rnd = (Ok dek, rnd1) ->
  dek = firstn 32 rnd /\ rnd1 = skipn 32 rnd /\ length dek = 32%nat.
Proof.
  unfold crypto.GenerateKey, wrapR, crypto.KeySize.
  destruct (rand.Read 32 rnd) as [[kb | e | msg] rnd0] eqn:Hread;
    cbn [wrap_err]; try discriminate.
  apply rand_Read_inv in Hread as (_ & -> & -> & Hlen).
  intros [= <- <-]. auto.
Qed.

Lemma EncryptDataKey_shape (m : storage.MasterKeyStore) (dek : bytes)
    (rnd rnd' : rand.Reader) (E : bytes) (A : string) :
  storage.EncryptDataKey m dek rnd = (Ok (E, A), rnd') ->
  length E = (length dek + 28)%nat
  /\ (exists mk : storage.MasterKey,
        storage.GetActiveKey m = Ok mk /\ A = storage.ID mk)
  /\ (A = storage.activeKeyID m -> storage.DecryptDataKey m E A = Ok dek).
Proof.
  intros Henc.
  apply EncryptDataKey_inv in Henc as (mk & b & Hmk & Hb & -> & Hle & -> & _).
  assert (Hn : length (firstn 12 rnd) = 12%nat) by (rewrite length_firstn; lia).
  split; [rewrite length_app, sealed_length, Hn; lia |]. split.
  - exists mk. unfold storage.GetActiveKey. now rewrite Hmk.
  - intros Hid. apply (DecryptDataKey_sealed _ _ mk b); trivial.
    now rewrite Hid.
Qed.

End GenerateDataKey.

(** C9, as the code has it.  The handler of the server with a DEK store,
    when it answers 200, has drawn a 32-byte DEK, wrapped it under the
    active master key and inserted one new record holding the wrapped DEK
    (60 bytes, so not the DEK) and the master key's id; its response is
    exactly the record's id and that master key's id, and the key store is
    untouched.  The handler of the server without a DEK store, when it
    answers 200, returns the DEK itself in base64, the wrapped DEK in base64
    and the master key's id. *)
Theorem GenerateDataKeyHandler_response :
  (forall (s s' : server.Server) (r : Request unit) (rnd rnd' : rand.Reader)
          (fields : list (string * string)),
      server.GenerateDataKeyHandler s r rnd = (Sent StatusOK (JSON fields), s', rnd') ->
      exists (dek E : bytes) (mk : storage.MasterKey) (oid : mongo.ObjectID),
        crypto.GenerateKey rnd = (Ok dek, skipn 32 rnd)
        /\ length dek = 32%nat
        /\ storage.GetActiveKey (server.KeyStore s) = Ok mk
        /\ storage.EncryptDataKey (server.KeyStore s) dek (skipn 32 rnd)
           = (Ok (E, storage.ID mk), rnd')
        /\ length E = 60%nat /\ E <> dek
        /\ fields = dekResponse (mongo.Hex oid) (storage.ID mk)
        /\ server.KeyStore s' = server.KeyStore s
        /\ mongo.docs (storage.collection (server.DEKStore s)) !! oid = None
        /\ mongo.docs (storage.collection (server.DEKStore s'))
           = <[oid := {| storage.DocID := oid; storage.DEK := E;
                         storage.MasterKeyID := storage.ID mk |}]>
               (mongo.docs (storage.collection (server.DEKStore s))))
  /\ (forall (s : server_nostore.Server)
             (r : Request server_nostore.GenerateDataKeyRequest)
             (rnd rnd' : rand.Reader) (fields : list (string * string)),
         server_nostore.GenerateDataKeyHandler s r rnd
         = (Sent StatusOK (JSON fields), rnd') ->
         exists (dek E : bytes) (mk : storage.MasterKey),
           crypto.GenerateKey rnd = (Ok dek, skipn 32 rnd)
           /\ storage.GetActiveKey (server_nostore.KeyStore s) = Ok mk
           /\ storage.EncryptDataKey (server_nostore.KeyStore s) dek (skipn 32 rnd)
              = (Ok (E, storage.ID mk), rnd')
           /\ fields = plaintextResponse dek E (storage.ID mk)).
Proof.
  split.
  - intros s s' r rnd rnd' fields. unfold server.GenerateDataKeyHandler.
    destruct (server.getIdentity r) as [identity | e | msg]; try discriminate.
    destruct (auth.IsAuthorized identity _); [discriminate |].
    destruct (crypto.GenerateKey rnd) as [[dek | e | msg] rnd1] eqn:Hgen;
      try discriminate.
    destruct (storage.EncryptDataKey _ dek rnd1) as [[[E A] | e | msg] rnd2] eqn:Henc;
      try discriminate.
    destruct (storage.InsertDEK _ E A) as [[dekID | e | msg] d] eqn:Hins;
      try discriminate.
    unfold server.writeJSON. intros [= <- <- <-].
    apply GenerateKey_inv in Hgen as (Hdek & -> & Hlen).
    destruct (EncryptDataKey_shape _ _ _ _ _ _ Henc) as (HE & (mk & Hget & ->) & _).
    apply InsertDEK_inv in Hins as (oid & -> & Hfree & Hdocs).
    exists dek, E, mk, oid.
    split; [now rewrite Hdek |]. split; [exact Hlen |]. split; [exact Hget |].
    split; [exact Henc |]. split; [rewrite HE, Hlen; reflexivity |].
    split; [intros Heq; rewrite Heq in HE; lia |].
    split; [reflexivity |]. split; [reflexivity |].
    split; [exact Hfree | exact Hdocs].
  - intros s r rnd rnd' fields. unfold server_nostore.GenerateDataKeyHandler.
    destruct (ctxIdentity r) as [id |]; [| discriminate].
    destruct (auth.IsAuthorized id _); [discriminate |].
    destruct (decoded r) as [req |]; [| discriminate].
    destruct (crypto.GenerateKey rnd) as [[dek | e | msg] rnd1] eqn:Hgen;
      try discriminate.
    destruct (storage.EncryptDataKey _ dek rnd1) as [[[E A] | e | msg] rnd2] eqn:Henc;
      try discriminate.
    intros [= <- <-].
    apply GenerateKey_inv in Hgen as (Hdek & -> & Hlen).
    destruct (EncryptDataKey_shape _ _ _ _ _ _ Henc) as (_ & (mk & Hget & ->) & _).
    exists dek, E, mk.
    split; [now rewrite Hdek |]. split; [exact Hget |].
    split; [exact Henc | reflexivity].
Qed.

Lemma GenerateDataKeyHandler_response_witness :
  exists (E : bytes) (oid : mongo.ObjectID),
    fst (fst (server.GenerateDataKeyHandler cx_server
                {| ctxIdentity := Some (asRole "uid-2" auth.RoleService);
                   decoded := None |}
                cx_generate_rnd))
    = Sent StatusOK (JSON (dekResponse (mongo.Hex oid) cx_id))
    /\ length E = 60%nat
    /\ mongo.docs (storage.collection (server.DEKStore (snd (fst
         (server.GenerateDataKeyHandler cx_server
            {| ctxIdentity := Some (asRole "uid-2" auth.RoleService);
               decoded := None |}
            cx_generate_rnd)))))
       !! oid
       = Some {| storage.DocID := oid; storage.DEK := E;
                 storage.MasterKeyID := cx_id |}.
Proof.
  destruct GenerateDataKeyHandler_response as [Hstore _].
  destruct (server.GenerateDataKeyHandler cx_server
              {| ctxIdentity := Some (asRole "uid-2" auth.RoleService);
                 decoded := None |}
              cx_generate_rnd) as [[resp s'] rnd'] eqn:Hrun.
  assert (Hresp : exists fields, resp = Sent StatusOK (JSON fields)).
  { vm_compute in Hrun. injection Hrun as <- _ _. eexists. reflexivity. }
  destruct Hresp as [fields ->].
  destruct (Hstore _ _ _ _ _ _ Hrun)
    as (dek & E & mk & oid & _ & _ & Hget & _ & HE & _ & -> & _ & _ & Hdocs).
  vm_compute in Hget. injection Hget as <-.
  exists E, oid. cbn [fst snd]. split; [reflexivity |]. split; [exact HE |].
  rewrite Hdocs. apply lookup_insert_eq.
Defined.

(** C9, as stated, fails on the handler of the server without a DEK store:
    a SERVICE caller gets 200 with three fields, the first of which is the
    base64 of the DEK just drawn from the random source (bytes 0 to 31
    here), and no record id. *)
Lemma GenerateDataKeyHandler_response_counterexample :
  exists (enc : string),
    fst (server_nostore.GenerateDataKeyHandler
           {| server_nostore.KeyStore := cx_store |}
           {| ctxIdentity := Some (asRole "uid-2" auth.RoleService);
              decoded := Some {| server_nostore.KeyID := "" |} |}
           cx_generate_rnd)
    = Sent StatusOK
        (JSON [("plaintextDEK", "AAECAwQFBgcICQoLDA0ODxAREhMUFRYXGBkaGxwdHh8=");
               ("encryptedDEK", enc);
               ("masterKeyID", cx_id)])
    /\ base64.EncodeToString (firstn 32 cx_generate_rnd)
       = "AAECAwQFBgcICQoLDA0ODxAREhMUFRYXGBkaGxwdHh8=".
Proof.
  eexists. split; vm_compute; reflexivity.
Qed.

(** * Further properties of the envelope cipher *)

Section EnvelopeCipherMore.

Implicit Types (key k p c : bytes) (rnd : rand.Reader).

Lemma NewCipher_valid key :
  length key = 16%nat \/ length key = 24%nat \/ length key = 32%nat ->
  aes.NewCipher key = Ok (block_of key).
Proof.
  intros Hlen. unfold aes.NewCipher, block_of.
  destruct Hlen as [-> | [-> | ->]]; reflexivity.
Qed.

Lemma NewCipher_invalid key :
  length key <> 16%nat -> length key <> 24%nat -> length key <> 32%nat ->
  aes.NewCipher key
  = Err ("crypto/aes: invalid key size "
           +:+ NilEmpty.string_of_uint (Nat.to_uint (length key))).
Proof.
  intros H16 H24 H32. unfold aes.NewCipher.
  apply Nat.eqb_neq in H16, H24, H32. now rewrite H16, H24, H32.
Qed.

Lemma EncryptAES256GCM_valid key p rnd :
  length key = 16%nat \/ length key = 24%nat \/ length key = 32%nat ->
  crypto.EncryptAES256GCM key p rnd
  = if (12 <=? length rnd)%nat then
      (Ok (firstn 12 rnd ++ sealed (gcmOf (block_of key)) (firstn 12 rnd) p []),
       skipn 12 rnd)
    else
      (Err ("failed to generate nonce: "
              +:+ (if (length rnd =? 0)%nat then "EOF" else "unexpected EOF")),
       []).
Proof.
  intros Hk. unfold crypto.EncryptAES256GCM, bindR, ret, wrapR.
  rewrite NewCipher_valid by assumption. cbn [wrap_err].
  rewrite NewGCM_ok. cbn [wrap_err cipher.NonceSize cipher.nonceSize].
  unfold rand.Read.
  destruct (Nat.leb_spec 12 (length rnd)) as [Hle | Hgt]; [| reflexivity].
  cbn [wrap_err]. fold (gcmOf (block_of key)).
  rewrite Seal_eq; [reflexivity |].
  rewrite length_firstn. cbn [gcmOf cipher.nonceSize]. lia.
Qed.

Lemma DecryptAES256GCM_valid key c :
  length key = 16%nat \/ length key = 24%nat \/ length key = 32%nat ->
  crypto.DecryptAES256GCM key c
  = if (length c <? 12)%nat then Err "ciphertext too short"
    else wrap_err "failed to decrypt ciphertext"
           (cipher.Open (gcmOf (block_of key)) [] (firstn 12 c) (skipn 12 c) []).
Proof.
  intros Hk. unfold crypto.DecryptAES256GCM.
  rewrite NewCipher_valid by assumption. cbn [wrap_err bind].
  rewrite NewGCM_ok. cbn [wrap_err bind cipher.NonceSize cipher.nonceSize].
  destruct (Nat.ltb_spec (length c) 12) as [Hlt | Hge]; [reflexivity |].
  unfold slice_to, slice_from.
  apply Nat.leb_le in Hge. rewrite Hge. reflexivity.
Qed.

Lemma ConstantTimeCompare_eq (x : bytes) :
  forall y : bytes, cipher.ConstantTimeCompare x y = true -> x = y.
Proof.
  unfold cipher.ConstantTimeCompare.
  induction x as [| a x IH]; intros [| b y] Hcmp; simpl in *;
    try discriminate; trivial.
  apply andb_true_iff in Hcmp as [Hl Hall].
  apply andb_true_iff in Hall as [Hab Hrest]. apply Z.eqb_eq in Hab.
  f_equal; [exact Hab |]. apply IH. now rewrite Hl, Hrest.
Qed.

(** [Open] under the standard sizes: what it returns, by cases. *)
Lemma Open_cases (b : aes.Block) (nonce body : bytes) :
  length nonce = 12%nat ->
  cipher.Open (gcmOf b) [] nonce body [] = Err cipher.errOpen
  \/ exists pt : bytes,
       cipher.Open (gcmOf b) [] nonce body [] = Ok pt
       /\ length body = (length pt + 16)%nat
       /\ body = sealed (gcmOf b) nonce pt [].
Proof.
  intros Hn. unfold cipher.Open. cbn [gcmOf cipher.nonceSize cipher.tagSize cipher.block].
  rewrite Hn. cbn [Nat.eqb negb].
  destruct (Nat.ltb_spec (length body) 16) as [Hlt | Hge]; [now left |].
  set (n := (length body - 16)%nat).
  set (counter := cipher.deriveCounter nonce).
  set (ct := firstn n body).
  set (tag := skipn n body).
  set (expected := cipher.auth (gcmOf b) ct [] (aes.Encrypt b counter)).
  destruct (cipher.ConstantTimeCompare (firstn 16 expected) tag) eqn:Hcmp;
    cbn [negb]; [right | now left].
  assert (Hct : length ct = n) by (unfold ct; rewrite length_firstn; lia).
  assert (Hexp : firstn 16 expected = expected).
  { apply firstn_all2. unfold expected. rewrite auth_length. lia. }
  rewrite Hexp in Hcmp.
  assert (Htag : expected = tag) by now apply ConstantTimeCompare_eq.
  exists (cipher.counterCrypt (length ct) b (cipher.inc32 counter) ct).
  split; [reflexivity |].
  assert (Hpt : length (cipher.counterCrypt (length ct) b (cipher.inc32 counter) ct)
                = length ct) by (apply counterCrypt_length; lia).
  split; [rewrite Hpt, Hct; unfold n; lia |].
  unfold sealed. cbn [gcmOf cipher.block]. cbv zeta.
  rewrite Hpt. fold counter.
  rewrite counterCrypt_involutive by lia.
  fold expected. rewrite Htag. unfold ct, tag. now rewrite firstn_skipn.
Qed.

Lemma envelope_roundtrip_valid key p rnd (rnd' : rand.Reader) c :
  length key = 16%nat \/ length key = 24%nat \/ length key = 32%nat ->
  crypto.EncryptAES256GCM key p rnd = (Ok c, rnd') ->
  crypto.DecryptAES256GCM key c = Ok p.
Proof.
  intros Hk. rewrite EncryptAES256GCM_valid by assumption.
  destruct (Nat.leb_spec 12 (length rnd)) as [Hle | Hgt]; [| discriminate].
  intros [= <- <-]. rewrite DecryptAES256GCM_valid by assumption.
  assert (Hn : length (firstn 12 rnd) = 12%nat) by (rewrite length_firstn; lia).
  rewrite length_app, sealed_length, Hn.
  destruct (Nat.ltb_spec (12 + (length p + 16)) 12) as [Hlt | _]; [lia |].
  rewrite take_app_length', drop_app_length' by (symmetry; exact Hn).
  rewrite Open_sealed; [reflexivity | exact Hn | reflexivity].
Qed.

Lemma DecryptAES256GCM_long key c :
  length key = 16%nat \/ length key = 24%nat \/ length key = 32%nat ->
  (12 <= length c)%nat ->
  crypto.DecryptAES256GCM key c
  = Err "failed to decrypt ciphertext: cipher: message authentication failed"
  \/ exists p : bytes,
       crypto.DecryptAES256GCM key c = Ok p
       /\ length c = (length p + 28)%nat
       /\ c = firstn 12 c ++ sealed (gcmOf (block_of key)) (firstn 12 c) p [].
Proof.
  intros Hk Hge. rewrite DecryptAES256GCM_valid by assumption.
  destruct (Nat.ltb_spec (length c) 12) as [Hlt | _]; [lia |].
  assert (Hn : length (firstn 12 c) = 12%nat) by (rewrite length_firstn; lia).
  destruct (Open_cases (block_of key) (firstn 12 c) (skipn 12 c) Hn)
    as [-> | (pt & -> & Hlen & Hbody)]; [now left | right].
  exists pt. split; [reflexivity |]. split.
  - rewrite length_skipn in Hlen. lia.
  - rewrite <- Hbody. now rewrite firstn_skipn.
Qed.

End EnvelopeCipherMore.

(** X1.  The envelope cipher does not insist on 32 bytes.  With a key of
    16, 24 or 32 bytes it works as AES-128, AES-192 or AES-256 and keeps its
    round trip; with a key of any other length both functions return
    "failed to create AES cipher: crypto/aes: invalid key size N", and
    [EncryptAES256GCM] has then drawn nothing from the random source. *)
Theorem envelope_cipher_key_sizes (k p : bytes) (rnd : rand.Reader) :
  (length k = 16%nat \/ length k = 24%nat \/ length k = 32%nat ->
   (forall (c : bytes) (rnd' : rand.Reader),
       crypto.EncryptAES256GCM k p rnd = (Ok c, rnd') ->
       crypto.DecryptAES256GCM k c = Ok p)
   /\ ((12 <= length rnd)%nat ->
       is_ok (fst (crypto.EncryptAES256GCM k p rnd)) = true))
  /\ (length k <> 16%nat -> length k <> 24%nat -> length k <> 32%nat ->
      crypto.EncryptAES256GCM k p rnd
      = (Err ("failed to create AES cipher: crypto/aes: invalid key size "
                +:+ NilEmpty.string_of_uint (Nat.to_uint (length k))), rnd)
      /\ forall c : bytes,
           crypto.DecryptAES256GCM k c
           = Err ("failed to create AES cipher: crypto/aes: invalid key size "
                    +:+ NilEmpty.string_of_uint (Nat.to_uint (length k)))).
Proof.
  split.
  - intros Hk. split.
    + intros c rnd'. now apply envelope_roundtrip_valid.
    + intros Hle. rewrite EncryptAES256GCM_valid by assumption.
      apply Nat.leb_le in Hle. now rewrite Hle.
  - intros H16 H24 H32. split.
    + unfold crypto.EncryptAES256GCM, bindR, ret.
      now rewrite NewCipher_invalid by assumption.
    + intros c. unfold crypto.DecryptAES256GCM.
      now rewrite NewCipher_invalid by assumption.
Qed.

Lemma envelope_cipher_key_sizes_witness :
  (forall (c : bytes) (rnd' : rand.Reader),
      crypto.EncryptAES256GCM (repeat 5 16) [104; 105] (map Z.of_nat (seq 0 12))
      = (Ok c, rnd') ->
      crypto.DecryptAES256GCM (repeat 5 16) c = Ok [104; 105])
  /\ crypto.EncryptAES256GCM (repeat 5 31) [104; 105] (map Z.of_nat (seq 0 12))
     = (Err "failed to create AES cipher: crypto/aes: invalid key size 31",
        map Z.of_nat (seq 0 12)).
Proof.
  split.
  - apply (envelope_cipher_key_sizes (repeat 5 16) [104; 105]
             (map Z.of_nat (seq 0 12))).
    left. reflexivity.
  - apply (envelope_cipher_key_sizes (repeat 5 31) [104; 105]
             (map Z.of_nat (seq 0 12))); simpl; lia.
Defined.

(** X2.  Under a key of valid length, [DecryptAES256GCM] has three
    outcomes only: "ciphertext too short" exactly for blobs under 12 bytes;
    otherwise either the one error "failed to decrypt ciphertext: cipher:
    message authentication failed", which is certain for blobs of 12 to 27
    bytes, or a plaintext that is 28 bytes shorter than the blob and of
    which the blob is the sealing under the blob's own first 12 bytes. *)
Theorem DecryptAES256GCM_outcomes (k c : bytes) :
  length k = 16%nat \/ length k = 24%nat \/ length k = 32%nat ->
  (crypto.DecryptAES256GCM k c = Err "ciphertext too short"
   <-> (length c < 12)%nat)
  /\ ((12 <= length c < 28)%nat ->
      crypto.DecryptAES256GCM k c
      = Err "failed to decrypt ciphertext: cipher: message authentication failed")
  /\ ((12 <= length c)%nat ->
      crypto.DecryptAES256GCM k c
      = Err "failed to decrypt ciphertext: cipher: message authentication failed"
      \/ exists p : bytes,
           crypto.DecryptAES256GCM k c = Ok p
           /\ length c = (length p + 28)%nat
           /\ c = firstn 12 c ++ sealed (gcmOf (block_of k)) (firstn 12 c) p []).
Proof.
  intros Hk.
  assert (Hcases := DecryptAES256GCM_long k c Hk).
  assert (Hshort : (length c < 12)%nat ->
            crypto.DecryptAES256GCM k c = Err "ciphertext too short").
  { intros Hlt. rewrite DecryptAES256GCM_valid by assumption.
    apply Nat.ltb_lt in Hlt. now rewrite Hlt. }
  split; [| split].
  - split; [| exact Hshort]. intros Herr.
    destruct (Nat.lt_ge_cases (length c) 12) as [Hlt | Hge]; [exact Hlt |].
    destruct (Hcases Hge) as [Hauth | (p & Hok & _)]; congruence.
  - intros [Hge Hlt].
    destruct (Hcases Hge) as [Hauth | (p & _ & Hlen & _)]; [exact Hauth | lia].
  - exact Hcases.
Qed.

Lemma DecryptAES256GCM_outcomes_witness :
  crypto.DecryptAES256GCM (repeat 7 32) (repeat 1 20)
  = Err "failed to decrypt ciphertext: cipher: message authentication failed".
Proof.
  apply (DecryptAES256GCM_outcomes (repeat 7 32) (repeat 1 20)).
  - right. right. reflexivity.
  - simpl. lia.
Defined.

(** X3.  The tag is checked.  If the last sixteen bytes of a blob returned
    by [EncryptAES256GCM] are replaced by any other sixteen bytes, nonce and
    ciphertext being kept, [DecryptAES256GCM] under the same key refuses the
    blob as not authentic. *)
Theorem tampered_tag_rejected (k p : bytes) (rnd rnd' : rand.Reader)
    (c tag' : bytes) :
  length k = 16%nat \/ length k = 24%nat \/ length k = 32%nat ->
  crypto.EncryptAES256GCM k p rnd = (Ok c, rnd') ->
  length tag' = 16%nat ->
  tag' <> skipn (length c - 16) c ->
  crypto.DecryptAES256GCM k (firstn (length c - 16) c ++ tag')
  = Err "failed to decrypt ciphertext: cipher: message authentication failed".
Proof.
  intros Hk Henc Htag Hne.
  rewrite EncryptAES256GCM_valid in Henc by assumption.
  destruct (Nat.leb_spec 12 (length rnd)) as [Hle | Hgt]; [| discriminate].
  injection Henc as <- _.
  set (nonce := firstn 12 rnd) in *.
  assert (Hn : length nonce = 12%nat) by (unfold nonce; rewrite length_firstn; lia).
  set (g := gcmOf (block_of k)) in *.
  set (counter := cipher.deriveCounter nonce).
  set (ct := cipher.counterCrypt (length p) (cipher.block g) (cipher.inc32 counter) p).
  set (tag := cipher.auth g ct [] (aes.Encrypt (cipher.block g) counter)).
  assert (Hsealed : sealed g nonce p [] = ct ++ tag) by reflexivity.
  assert (Hct : length ct = length p) by (apply counterCrypt_length; lia).
  assert (Htl : length tag = 16%nat) by apply auth_length.
  rewrite Hsealed in *.
  assert (Hlen : (length (nonce ++ ct ++ tag) - 16 = length (nonce ++ ct))%nat).
  { rewrite !length_app. lia. }
  rewrite Hlen in *.
  rewrite (app_assoc nonce ct tag) in Hne |- *.
  rewrite take_app_length. rewrite drop_app_length in Hne.
  set (blob := (nonce ++ ct) ++ tag').
  destruct (DecryptAES256GCM_long k blob Hk) as [Hauth | (q & _ & Hqlen & Hq)];
    [| exact Hauth |].
  { unfold blob. rewrite !length_app. lia. }
  exfalso. apply Hne.
  assert (Hfirst : firstn 12 blob = nonce).
  { unfold blob. rewrite <- app_assoc. now apply take_app_length'. }
  rewrite Hfirst in Hq. unfold blob in Hq, Hqlen.
  rewrite <- app_assoc in Hq. apply app_inv_head in Hq.
  assert (Hql : length q = length p).
  { rewrite !length_app in Hqlen. lia. }
  unfold sealed in Hq. cbv zeta in Hq. fold g counter in Hq.
  rewrite Hql in Hq. 
  set (ct' := cipher.counterCrypt (length p) (cipher.block g) (cipher.inc32 counter) q) in Hq.
  assert (Hct' : length ct' = length ct).
  { unfold ct'. rewrite counterCrypt_length by lia. lia. }
  apply app_inj_1 in Hq as [Hcteq Htageq]; [| exact (eq_sym Hct')].
  rewrite Htageq, <- Hcteq. reflexivity.
Qed.

Lemma tampered_tag_rejected_witness :
  exists c : bytes,
    crypto.EncryptAES256GCM (repeat 7 32) [104; 105] (map Z.of_nat (seq 0 12))
    = (Ok c, [])
    /\ crypto.DecryptAES256GCM (repeat 7 32)
         (firstn (length c - 16) c ++ repeat 0 16)
       = Err "failed to decrypt ciphertext: cipher: message authentication failed".
Proof.
  eexists. split; [vm_compute; reflexivity |].
  apply (tampered_tag_rejected (repeat 7 32) [104; 105]
           (map Z.of_nat (seq 0 12)) [] _ (repeat 0 16)).
  - right. right. reflexivity.
  - vm_compute. reflexivity.
  - reflexivity.
  - vm_compute. discriminate.
Defined.

(** X4.  [GenerateKey] with 32 bytes on the random source returns them as
    the key and leaves the rest.  Whenever it returns a key, the key is the
    first 32 bytes of the source as it was, so it has 32 bytes, the envelope
    cipher accepts it, and what is encrypted under it decrypts under it. *)
Theorem GenerateKey_keys (rnd : rand.Reader) :
  ((32 <= length rnd)%nat ->
   crypto.GenerateKey rnd = (Ok (firstn 32 rnd), skipn 32 rnd))
  /\ (forall (key : bytes) (rnd' : rand.Reader),
         crypto.GenerateKey rnd = (Ok key, rnd') ->
         key = firstn 32 rnd /\ rnd' = skipn 32 rnd
         /\ length key = 32%nat
         /\ forall (p c : bytes) (r1 r2 : rand.Reader),
              crypto.EncryptAES256GCM key p r1 = (Ok c, r2) ->
              crypto.DecryptAES256GCM key c = Ok p).
Proof.
  split.
  - intros Hle. unfold crypto.GenerateKey, wrapR, crypto.KeySize.
    now rewrite rand_Read_ok by assumption.
  - intros key rnd' Hgen. apply GenerateKey_inv in Hgen as (Hkey & Hrest & Hlen).
    split; [exact Hkey |]. split; [exact Hrest |].
    split; [exact Hlen |]. intros p c r1 r2 Henc.
    apply (envelope_roundtrip_valid key p r1 r2 c); [now (right; right) | exact Henc].
Qed.

Lemma GenerateKey_keys_witness :
  crypto.GenerateKey (map Z.of_nat (seq 0 40))
  = (Ok (firstn 32 (map Z.of_nat (seq 0 40))), skipn 32 (map Z.of_nat (seq 0 40))).
Proof.
  apply (GenerateKey_keys (map Z.of_nat (seq 0 40))). simpl. lia.
Defined.

(** * Further properties of the master-key store *)

Section MasterKeyStoreMore.

Import storage.

Implicit Types (m : MasterKeyStore) (mk k : MasterKey) (keys : list MasterKey).
Implicit Types (rnd : rand.Reader) (id : string).

Lemma find_snoc {A : Type} (f : A -> bool) (l : list A) (x : A) :
  find f (l ++ [x])
  = match find f l with
    | Some y => Some y
    | None => if f x then Some x else None
    end.
Proof.
  induction l as [| a l IH]; simpl; [reflexivity |].
  destruct (f a); [reflexivity | exact IH].
Qed.

Lemma foldl_insert_lookup keys :
  forall (mkMap : gmap string MasterKey) id,
    foldl (fun acc k => <[ID k := k]> acc) mkMap keys !! id
    = match find (fun k => String.eqb (ID k) id) (rev keys) with
      | Some k => Some k
      | None => mkMap !! id
      end.
Proof.
  induction keys as [| k keys IH]; intros mkMap id; [reflexivity |].
  cbn [foldl rev]. rewrite IH, find_snoc.
  destruct (find _ (rev keys)); [reflexivity |].
  destruct (String.eqb_spec (ID k) id) as [<- | Hne].
  - apply lookup_insert_eq.
  - now apply lookup_insert_ne.
Qed.

Lemma NewMasterKeyStore_inv keys m :
  NewMasterKeyStore keys = Ok m ->
  exists k0 rest,
    keys = k0 :: rest
    /\ Forall key32 keys
    /\ m = {| masterKeys := foldl (fun acc k => <[ID k := k]> acc) ∅ keys;
              activeKeyID := ID k0 |}.
Proof.
  intros Hnew. destruct keys as [| k0 rest]; [discriminate |].
  exists k0, rest. split; [reflexivity |].
  unfold NewMasterKeyStore in Hnew. cbn [length Nat.eqb] in Hnew.
  assert (Hall : Forall key32 (k0 :: rest)).
  { apply Forall_forall. intros k Hk.
    destruct (Nat.eq_dec (length (Key k)) 32%nat) as [Heq | Hne]; [exact Heq |].
    rewrite fillKeys_bad in Hnew; [discriminate |].
    apply Exists_exists. exists k. split; [exact Hk | exact Hne]. }
  split; [exact Hall |].
  rewrite fillKeys_ok in Hnew by assumption. cbn [bind] in Hnew.
  now injection Hnew as <-.
Qed.

Lemma find_some_In {A : Type} (f : A -> bool) (l : list A) (x : A) :
  find f l = Some x -> In x l /\ f x = true.
Proof. apply find_some. Qed.

(** In a reachable store every key is filed under its own id. *)
Lemma reachable_own_id m :
  reachable m -> forall id mk, masterKeys m !! id = Some mk -> ID mk = id.
Proof.
  induction 1 as [keys m Hnew | m c _ IH].
  - apply NewMasterKeyStore_inv in Hnew as (k0 & rest & _ & _ & ->).
    cbn [masterKeys]. intros id mk. rewrite foldl_insert_lookup, lookup_empty.
    destruct (find _ (rev keys)) as [k |] eqn:Hfind; [| discriminate].
    intros [= <-]. apply find_some in Hfind as [_ Heq].
    now apply String.eqb_eq in Heq.
  - destruct c as [| dek rnd | e id' | rnd]; trivial.
    cbn [exec]. rewrite RotateMasterKey_store.
    destruct (newMasterKey rnd) as [[newMK | e | msg] rnd']; trivial.
    cbn [masterKeys]. intros id mk.
    destruct (decide (ID newMK = id)) as [<- | Hne].
    + rewrite lookup_insert_eq. now intros [= <-].
    + rewrite lookup_insert_ne by assumption. apply IH.
Qed.

Lemma rotations_dom (rnds : list rand.Reader) :
  forall m id,
    is_Some (masterKeys (rotations m rnds) !! id)
    <-> is_Some (masterKeys m !! id) \/ In id (rotatedIDs rnds).
Proof.
  induction rnds as [| rnd rest IH]; intros m id.
  - cbn. tauto.
  - cbn [rotations]. rewrite IH. unfold rotatedIDs. cbn [flat_map].
    fold (rotatedIDs rest). rewrite in_app_iff, RotateMasterKey_store.
    destruct (newMasterKey rnd) as [[newMK | e | msg] rnd']; cbn [masterKeys In];
      try tauto.
    destruct (decide (ID newMK = id)) as [<- | Hne].
    + rewrite lookup_insert_eq. split; [intros _ | intros _; left; eauto].
      right. left. now left.
    + rewrite lookup_insert_ne by assumption. tauto.
Qed.

Lemma rotations_reachable (rnds : list rand.Reader) :
  forall m, reachable m -> reachable (rotations m rnds).
Proof.
  induction rnds as [| rnd rest IH]; intros m Hm; [exact Hm |].
  cbn [rotations]. apply IH. exact (reachable_call m (CallRotateMasterKey rnd) Hm).
Qed.

(** The keys a new store holds are keys of the list, and every key of the
    list has its id in the store. *)
Lemma NewMasterKeyStore_held keys m :
  NewMasterKeyStore keys = Ok m ->
  (forall id mk, masterKeys m !! id = Some mk ->
                 In mk keys /\ ID mk = id /\ length (Key mk) = 32%nat)
  /\ (forall k, In k keys -> is_Some (masterKeys m !! ID k)).
Proof.
  intros Hnew.
  destruct (NewMasterKeyStore_inv keys m Hnew) as (k0 & rest & Hkeys & Hall & ->).
  cbn [masterKeys]. split.
  - intros id mk. rewrite foldl_insert_lookup, lookup_empty.
    destruct (find _ (rev keys)) as [k |] eqn:Hfind; [| discriminate].
    intros [= <-]. apply find_some in Hfind as [Hin Heq]. apply in_rev in Hin.
    apply String.eqb_eq in Heq. split; [exact Hin |]. split; [exact Heq |].
    rewrite Forall_forall in Hall. apply Hall. now apply list_elem_of_In.
  - intros k Hin. now apply foldl_insert_has.
Qed.

End MasterKeyStoreMore.

(** X5.  What [NewMasterKeyStore] puts in the map.  Under an id the store
    holds the last key of the list with that id: a later key replaces an
    earlier one with the same id, so when the first id occurs again the
    active key's material is that of its last occurrence.  Every key held is
    a key of the list, filed under its own id, with 32 bytes. *)
Theorem NewMasterKeyStore_last_wins (keys : list storage.MasterKey)
    (m : storage.MasterKeyStore) :
  storage.NewMasterKeyStore keys = Ok m ->
  (forall id : string,
      storage.masterKeys m !! id
      = find (fun k => String.eqb (storage.ID k) id) (rev keys))
  /\ (forall (id : string) (mk : storage.MasterKey),
         storage.masterKeys m !! id = Some mk ->
         In mk keys /\ storage.ID mk = id /\ length (storage.Key mk) = 32%nat)
  /\ (forall k : storage.MasterKey,
         In k keys -> is_Some (storage.masterKeys m !! storage.ID k)).
Proof.
  intros Hnew.
  destruct (NewMasterKeyStore_inv keys m Hnew) as (k0 & rest & Hkeys & Hall & ->).
  cbn [storage.masterKeys].
  assert (Hlookup : forall id : string,
             foldl (fun acc k => <[storage.ID k := k]> acc)
                   (∅ : gmap string storage.MasterKey) keys !! id
             = find (fun k => String.eqb (storage.ID k) id) (rev keys)).
  { intros id. rewrite foldl_insert_lookup, lookup_empty.
    now destruct (find _ (rev keys)). }
  split; [exact Hlookup |]. split.
  - intros id mk. rewrite Hlookup. intros Hfind.
    apply find_some in Hfind as [Hin Heq]. apply in_rev in Hin.
    apply String.eqb_eq in Heq. split; [exact Hin |]. split; [exact Heq |].
    rewrite Forall_forall in Hall. apply Hall. now apply list_elem_of_In.
  - intros k Hin. now apply foldl_insert_has.
Qed.

Lemma NewMasterKeyStore_last_wins_witness :
  bind (storage.NewMasterKeyStore
          [ {| storage.ID := "k0"; storage.Key := repeat 1 32 |};
            {| storage.ID := "k1"; storage.Key := repeat 2 32 |};
            {| storage.ID := "k0"; storage.Key := repeat 3 32 |} ])
       storage.GetActiveKey
  = Ok {| storage.ID := "k0"; storage.Key := repeat 3 32 |}.
Proof.
  destruct (storage.NewMasterKeyStore _) as [m | e | msg] eqn:Hnew;
    [| vm_compute in Hnew; discriminate ..].
  destruct (NewMasterKeyStore_last_wins _ _ Hnew) as [Hlast _].
  cbn [bind]. unfold storage.GetActiveKey. rewrite Hlast.
  vm_compute in Hnew. injection Hnew as <-. reflexivity.
Defined.

(** X6.  Wrapping on a reachable store.  Given twelve random bytes,
    [EncryptDataKey] succeeds for any DEK, names the active key id, and
    returns a blob 28 bytes longer than the DEK that starts with the nonce
    drawn and that [DecryptDataKey] unwraps, under that id, to the DEK.  And
    whatever blob and id it returns, the id is the active one and
    [DecryptDataKey] unwraps the blob under it to the DEK. *)
Theorem wrap_unwrap_reachable (m : storage.MasterKeyStore) (dek : bytes)
    (rnd : rand.Reader) :
  reachable m ->
  ((12 <= length rnd)%nat ->
   exists E : bytes,
     storage.EncryptDataKey m dek rnd
     = (Ok (E, storage.activeKeyID m), skipn 12 rnd)
     /\ length E = (length dek + 28)%nat
     /\ firstn 12 E = firstn 12 rnd
     /\ storage.DecryptDataKey m E (storage.activeKeyID m) = Ok dek)
  /\ (forall (E : bytes) (A : string) (rnd' : rand.Reader),
         storage.EncryptDataKey m dek rnd = (Ok (E, A), rnd') ->
         A = storage.activeKeyID m
         /\ length E = (length dek + 28)%nat
         /\ storage.DecryptDataKey m E A = Ok dek).
Proof.
  intros Hreach.
  destruct (reachable_active_known m Hreach) as [mk Hmk].
  assert (Hk32 := reachable_key32 m Hreach _ _ Hmk).
  assert (Hid := reachable_own_id m Hreach _ _ Hmk).
  split.
  - rewrite (EncryptDataKey_key32 m dek rnd mk Hmk Hk32).
    intros Hle. assert (Hle' := Hle). apply Nat.leb_le in Hle'. rewrite Hle'.
    assert (Hn : length (firstn 12 rnd) = 12%nat) by (rewrite length_firstn; lia).
    eexists. split; [now rewrite Hid |].
    split; [rewrite length_app, sealed_length, Hn; lia |].
    split; [now apply take_app_length' |].
    apply (DecryptDataKey_sealed m _ mk
             {| aes.rounds := 14; aes.enc := aes.KeyExpansion (storage.Key mk) |});
      [exact Hmk | now apply NewCipher_ok | exact Hn].
  - intros E A rnd' Henc.
    apply EncryptDataKey_inv in Henc as (mk' & blk & Hmk' & Hblk & -> & Hle & -> & _).
    assert (Hsame : mk' = mk) by congruence. subst mk'.
    assert (Hn : length (firstn 12 rnd) = 12%nat) by (rewrite length_firstn; lia).
    split; [exact Hid |].
    split; [rewrite length_app, sealed_length, Hn; lia |].
    apply (DecryptDataKey_sealed m _ mk blk); [| exact Hblk | exact Hn].
    rewrite Hid. exact Hmk.
Qed.

Lemma wrap_unwrap_reachable_witness :
  exists E : bytes,
    storage.EncryptDataKey (exec cx_store (CallRotateMasterKey cx_rotate_other))
      cx_dek cx_wrap_rnd
    = (Ok (E, "20212223-2425-4627-a829-2a2b2c2d2e2f"), [])
    /\ storage.DecryptDataKey (exec cx_store (CallRotateMasterKey cx_rotate_other))
         E "20212223-2425-4627-a829-2a2b2c2d2e2f"
       = Ok cx_dek.
Proof.
  destruct (wrap_unwrap_reachable
              (exec cx_store (CallRotateMasterKey cx_rotate_other))
              cx_dek cx_wrap_rnd) as [Hwrap _].
  - apply reachable_call.
    apply (reachable_new [ {| storage.ID := cx_id; storage.Key := repeat 7 32 |} ]).
    reflexivity.
  - destruct Hwrap as (E & Henc & _ & _ & Hdec); [simpl; lia |].
    exists E. split; [exact Henc | exact Hdec].
Defined.

Section RotateOutcomes.

Import storage.

Lemma string_length_append (s t : string) :
  String.length (s +:+ t) = (String.length s + String.length t)%nat.
Proof. induction s as [| a s IH]; simpl; [reflexivity | now rewrite IH]. Qed.

Lemma hex_encode_length (bs : bytes) :
  String.length (hex_encode bs) = (2 * length bs)%nat.
Proof. induction bs as [| b bs IH]; simpl; [reflexivity | rewrite IH; lia]. Qed.

Lemma uuid_String_length (u : bytes) :
  length u = 16%nat -> String.length (uuid.String u) = 36%nat.
Proof.
  intros Hu. unfold uuid.String.
  rewrite !string_length_append, !hex_encode_length.
  rewrite !length_firstn, !length_skipn, Hu. reflexivity.
Qed.

Lemma uuid_New_ok (rnd : rand.Reader) :
  (16 <= length rnd)%nat ->
  exists u : bytes,
    uuid.New rnd = (Ok u, skipn 16 rnd) /\ length u = 16%nat.
Proof.
  intros Hle. unfold uuid.New, uuid.NewRandom.
  rewrite rand_Read_ok by assumption.
  exists (alter (fun b => Z.lor (Z.land b 63) 128) 8%nat
            (alter (fun b => Z.lor (Z.land b 15) 64) 6%nat (firstn 16 rnd))).
  split; [reflexivity |].
  rewrite !length_alter, length_firstn. lia.
Qed.

Lemma uuid_New_short (rnd : rand.Reader) :
  (length rnd < 16)%nat ->
  uuid.New rnd
  = (Panic (if (length rnd =? 0)%nat then "EOF" else "unexpected EOF"), []).
Proof.
  intros Hlt. unfold uuid.New, uuid.NewRandom, rand.Read.
  destruct (Nat.leb_spec 16 (length rnd)) as [Hle | _]; [lia | reflexivity].
Qed.

End RotateOutcomes.



(** X8.  The ids a store knows.  After [NewMasterKeyStore] on a list of keys
    and any series of rotations, an id is in the map exactly when it is the
    id of a key of the list or the id some rotation returned; for any other
    id [DecryptDataKey] answers "specified master key not found", whatever
    the blob. *)
Theorem known_master_key_ids (keys : list storage.MasterKey)
    (m0 : storage.MasterKeyStore) (rnds : list rand.Reader) (id : string) :
  storage.NewMasterKeyStore keys = Ok m0 ->
  (is_Some (storage.masterKeys (rotations m0 rnds) !! id)
   <-> In id (map storage.ID keys) \/ In id (rotatedIDs rnds))
  /\ (~ In id (map storage.ID keys) -> ~ In id (rotatedIDs rnds) ->
      forall blob : bytes,
        storage.DecryptDataKey (rotations m0 rnds) blob id
        = Err "specified master key not found").
Proof.
  intros Hnew.
  assert (Hdom : is_Some (storage.masterKeys (rotations m0 rnds) !! id)
                 <-> In id (map storage.ID keys) \/ In id (rotatedIDs rnds)).
  { rewrite rotations_dom.
    destruct (NewMasterKeyStore_held keys m0 Hnew) as (Hheld & Hhas).
    split; (intros [Hinit | Hrot]; [left | now right]).
    - destruct Hinit as [mk Hmk]. destruct (Hheld id mk Hmk) as (Hin & <- & _).
      now apply in_map.
    - apply in_map_iff in Hinit as (k & <- & Hin). now apply Hhas. }
  split; [exact Hdom |].
  intros Hk Hr blob. unfold storage.DecryptDataKey.
  destruct (storage.masterKeys (rotations m0 rnds) !! id) as [mk |] eqn:Hmk;
    [| reflexivity].
  exfalso. destruct Hdom as [Hdom _]. destruct Hdom; eauto.
Qed.

Lemma known_master_key_ids_witness :
  storage.DecryptDataKey (rotations cx_store [cx_rotate_other]) (repeat 1 60) "k9"
  = Err "specified master key not found".
Proof.
  apply (known_master_key_ids
           [ {| storage.ID := cx_id; storage.Key := repeat 7 32 |} ]
           cx_store [cx_rotate_other] "k9").
  - reflexivity.
  - simpl. intros [H | H]; [discriminate | exact H].
  - vm_compute. intros [H | H]; [discriminate | exact H].
Defined.

(** X9.  What [DecryptDataKey] can answer on a reachable store: "specified
    master key not found" exactly for an id that is not in the map; for a
    known id, "ciphertext too short" exactly for a blob under 12 bytes, and
    for a longer blob either "cipher: message authentication failed" (not
    wrapped, unlike the envelope cipher's) or a DEK 28 bytes shorter than
    the blob. *)
Theorem DecryptDataKey_outcomes (m : storage.MasterKeyStore) (blob : bytes)
    (id : string) :
  reachable m ->
  (storage.DecryptDataKey m blob id = Err "specified master key not found"
   <-> storage.masterKeys m !! id = None)
  /\ (is_Some (storage.masterKeys m !! id) ->
      (storage.DecryptDataKey m blob id = Err "ciphertext too short"
       <-> (length blob < 12)%nat)
      /\ ((12 <= length blob)%nat ->
          storage.DecryptDataKey m blob id = Err cipher.errOpen
          \/ exists dek : bytes,
               storage.DecryptDataKey m blob id = Ok dek
               /\ length blob = (length dek + 28)%nat)).
Proof.
  intros Hreach.
  assert (Hknown : forall mk : storage.MasterKey,
             storage.masterKeys m !! id = Some mk ->
             storage.DecryptDataKey m blob id
             = if (length blob <? 12)%nat then Err "ciphertext too short"
               else cipher.Open (gcm256 (storage.Key mk)) []
                      (firstn 12 blob) (skipn 12 blob) []).
  { intros mk Hmk. unfold storage.DecryptDataKey. rewrite Hmk.
    rewrite NewCipher_ok by exact (reachable_key32 m Hreach _ _ Hmk).
    cbn [bind]. rewrite NewGCM_ok. cbn [bind cipher.NonceSize cipher.nonceSize].
    destruct (Nat.ltb_spec (length blob) 12) as [Hlt | Hge]; [reflexivity |].
    unfold slice_to, slice_from. apply Nat.leb_le in Hge. now rewrite Hge. }
  assert (Hlong : forall mk : storage.MasterKey,
             (12 <= length blob)%nat ->
             cipher.Open (gcm256 (storage.Key mk)) [] (firstn 12 blob) (skipn 12 blob) []
             = Err cipher.errOpen
             \/ exists dek : bytes,
                  cipher.Open (gcm256 (storage.Key mk)) []
                    (firstn 12 blob) (skipn 12 blob) [] = Ok dek
                  /\ length blob = (length dek + 28)%nat).
  { intros mk Hge.
    assert (Hn : length (firstn 12 blob) = 12%nat) by (rewrite length_firstn; lia).
    destruct (Open_cases {| aes.rounds := 14;
                            aes.enc := aes.KeyExpansion (storage.Key mk) |}
                (firstn 12 blob) (skipn 12 blob) Hn)
      as [Herr | (dek & Hok & Hlen & _)]; [now left | right].
    exists dek. split; [exact Hok |]. rewrite length_skipn in Hlen. lia. }
  split.
  - destruct (storage.masterKeys m !! id) as [mk |] eqn:Hmk.
    + split; [| discriminate]. intros Herr. exfalso.
      rewrite (Hknown mk eq_refl) in Herr.
      destruct (Nat.ltb_spec (length blob) 12) as [Hlt | Hge]; [discriminate |].
      destruct (Hlong mk Hge) as [H | (dek & H & _)]; rewrite H in Herr; discriminate.
    + unfold storage.DecryptDataKey. rewrite Hmk. tauto.
  - intros [mk Hmk]. rewrite (Hknown mk Hmk). split.
    + destruct (Nat.ltb_spec (length blob) 12) as [Hlt | Hge]; [tauto |].
      split; [| lia]. intros Herr.
      destruct (Hlong mk Hge) as [H | (dek & H & _)]; rewrite H in Herr; discriminate.
    + intros Hge.
      destruct (Nat.ltb_spec (length blob) 12) as [Hlt | _]; [lia |].
      exact (Hlong mk Hge).
Qed.

Lemma DecryptDataKey_outcomes_witness :
  storage.DecryptDataKey cx_store (repeat 1 60) "k9"
  = Err "specified master key not found".
Proof.
  apply (DecryptDataKey_outcomes cx_store (repeat 1 60) "k9").
  - apply (reachable_new [ {| storage.ID := cx_id; storage.Key := repeat 7 32 |} ]).
    reflexivity.
  - reflexivity.
Defined.

(** * The DEK store *)

Section DEKStoreFacts.

Lemma byte_enum (b : Z) : is_byte b -> In b (map Z.of_nat (seq 0 256)).
Proof.
  intros [Hlo Hhi]. apply in_map_iff. exists (Z.to_nat b).
  split; [lia |]. apply in_seq. lia.
Qed.

Lemma byte_forall (P : Z -> bool) :
  forallb P (map Z.of_nat (seq 0 256)) = true ->
  forall b : Z, is_byte b -> P b = true.
Proof.
  intros Hall b Hb. rewrite forallb_forall in Hall. apply Hall.
  now apply byte_enum.
Qed.

Lemma hex_byte (b : Z) :
  is_byte b ->
  hexval (hexdigit (Z.land (Z.shiftr b 4) 15)) = Some (Z.land (Z.shiftr b 4) 15)
  /\ hexval (hexdigit (Z.land b 15)) = Some (Z.land b 15)
  /\ Z.lor (Z.shiftl (Z.land (Z.shiftr b 4) 15) 4) (Z.land b 15) = b.
Proof.
  intros Hb.
  pose (check := fun b : Z =>
    match hexval (hexdigit (Z.land (Z.shiftr b 4) 15)),
          hexval (hexdigit (Z.land b 15)) with
    | Some h, Some l =>
        (h =? Z.land (Z.shiftr b 4) 15) && (l =? Z.land b 15)
        && (Z.lor (Z.shiftl h 4) l =? b)
    | _, _ => false
    end).
  assert (Hcheck : check b = true).
  { apply byte_forall; [vm_compute; reflexivity | exact Hb]. }
  unfold check in Hcheck.
  destruct (hexval (hexdigit (Z.land (Z.shiftr b 4) 15))) as [h |]; [| discriminate].
  destruct (hexval (hexdigit (Z.land b 15))) as [l |]; [| discriminate].
  apply andb_true_iff in Hcheck as [Hcheck Hb'].
  apply andb_true_iff in Hcheck as [Hh Hl].
  apply Z.eqb_eq in Hh, Hl, Hb'. subst h l. auto.
Qed.

Lemma hex_decode_encode (bs : bytes) :
  Forall is_byte bs -> hex_decode (hex_encode bs) = Some bs.
Proof.
  induction 1 as [| b bs Hb _ IH]; [reflexivity |].
  cbn [hex_encode hex_decode].
  destruct (hex_byte b Hb) as (-> & -> & Hjoin). now rewrite IH, Hjoin.
Qed.

Lemma Z_to_be_bytes (n : nat) (v : Z) : Forall is_byte (Z_to_be n v).
Proof.
  unfold Z_to_be. apply Forall_forall. intros b Hb.
  apply list_elem_of_In, in_map_iff in Hb as (i & <- & _).
  change 255 with (Z.ones 8). rewrite Z.land_ones by lia.
  unfold is_byte. apply Z.mod_pos_bound. lia.
Qed.

Lemma ObjectIDFromHex_Hex (oid : mongo.ObjectID) :
  length oid = 12%nat -> Forall is_byte oid ->
  mongo.ObjectIDFromHex (mongo.Hex oid) = Ok oid.
Proof.
  intros Hlen Hbytes. unfold mongo.ObjectIDFromHex, mongo.Hex.
  rewrite hex_encode_length, Hlen. cbn [Nat.mul Nat.add Nat.eqb negb].
  now rewrite hex_decode_encode.
Qed.

End DEKStoreFacts.

(** * base64: test table and round trip *)

(** The decoder against the offsets of the library's own corruption table. *)
Example base64_corrupt_offsets :
  map base64.DecodeString ["!!!!"; "===="; "x==="; "=AAA"; "A=AA"; "AA=A"; "AA==A";
                           "AAA=AAAA"; "AAAAA"; "AAAAAA"; "A="; "A=="; "AA=";
                           "AAAAAA="; "YWJjZA====="]
  = map (fun n => Err (base64.CorruptInputError n))
        [0; 0; 1; 0; 1; 2; 4; 4; 4; 4; 1; 1; 3; 7; 8]%nat.
Proof. vm_compute. reflexivity. Qed.

Example base64_decode_accepts :
  map base64.DecodeString ["TWFu"; "TWE="; "TQ=="; ""; "AAA=" +:+ String "010" ""]
  = [Ok [77; 97; 110]; Ok [77; 97]; Ok [77]; Ok []; Ok [0; 0]].
Proof. vm_compute. reflexivity. Qed.

Section Base64RoundTrip.

Implicit Types (a b c v : Z) (bs dst : bytes).

Lemma range_forall (n : nat) (P : Z -> bool) :
  forallb P (map Z.of_nat (seq 0 n)) = true ->
  forall x : Z, 0 <= x < Z.of_nat n -> P x = true.
Proof.
  intros Hall x Hx. rewrite forallb_forall in Hall. apply Hall.
  apply in_map_iff. exists (Z.to_nat x). split; [lia |]. apply in_seq. lia.
Qed.

Lemma byte_forall2 (P : Z -> Z -> bool) :
  forallb (fun a => forallb (P a) (map Z.of_nat (seq 0 256)))
          (map Z.of_nat (seq 0 256)) = true ->
  forall a b, is_byte a -> is_byte b -> P a b = true.
Proof.
  intros Hall a b Ha Hb.
  apply (byte_forall (P a)); [| exact Hb].
  exact (byte_forall (fun a => forallb (P a) (map Z.of_nat (seq 0 256))) Hall a Ha).
Qed.

Lemma bytes_eqb_eq (x y : bytes) : bytes_eqb x y = true -> x = y.
Proof. apply ConstantTimeCompare_eq. Qed.

Lemma decodeChar_digit v : base64.decodeChar (base64.digit v) = Some (Z.land v 63).
Proof.
  unfold base64.digit.
  assert (Hr : 0 <= Z.land v 63 < Z.of_nat 64).
  { change 63 with (Z.ones 6). rewrite Z.land_ones by lia.
    apply Z.mod_pos_bound. lia. }
  pose (P := fun x : Z =>
    match base64.decodeChar (nth (Z.to_nat x) base64.encodeStd "="%char) with
    | Some y => y =? x
    | None => false
    end).
  assert (HP : P (Z.land v 63) = true).
  { apply (range_forall 64); [vm_compute; reflexivity | exact Hr]. }
  unfold P in HP.
  destruct (base64.decodeChar _) as [y |]; [| discriminate].
  apply Z.eqb_eq in HP. now subst y.
Qed.

Lemma quantum1 a :
  is_byte a ->
  base64.quantumBytes [sextet0 a; Z.land (Z.shiftl (Z.land a 3) 4) 63] = [a].
Proof.
  intros Ha. apply bytes_eqb_eq.
  apply (byte_forall (fun a =>
    bytes_eqb (base64.quantumBytes [sextet0 a; Z.land (Z.shiftl (Z.land a 3) 4) 63])
              [a])); [vm_compute; reflexivity | exact Ha].
Qed.

Lemma quantum2 a b :
  is_byte a -> is_byte b ->
  base64.quantumBytes
    [sextet0 a; sextet1 a b; Z.land (Z.shiftl (Z.land b 15) 2) 63] = [a; b].
Proof.
  intros Ha Hb. apply bytes_eqb_eq.
  apply (byte_forall2 (fun a b =>
    bytes_eqb (base64.quantumBytes
                 [sextet0 a; sextet1 a b; Z.land (Z.shiftl (Z.land b 15) 2) 63])
              [a; b])); [vm_compute; reflexivity | exact Ha | exact Hb].
Qed.

Lemma lor_shiftl_add (h k x : Z) :
  0 <= k -> 0 <= x < 2 ^ k -> Z.lor (Z.shiftl h k) x = h * 2 ^ k + x.
Proof.
  intros Hk Hx.
  assert (Hland : Z.land (Z.shiftl h k) x = 0).
  { apply Z.bits_inj'. intros n Hn. rewrite Z.land_spec, Z.bits_0.
    destruct (Z.lt_ge_cases n k) as [Hlt | Hge].
    - now rewrite Z.shiftl_spec_low.
    - destruct (Z.eq_dec x 0) as [-> | Hx0]; [now rewrite Z.bits_0, andb_false_r |].
      rewrite (Z.bits_above_log2 x n); [apply andb_false_r | lia |].
      apply Z.lt_le_trans with k; [| exact Hge].
      apply Z.log2_lt_pow2; lia. }
  pose proof (Z.add_lor_land (Z.shiftl h k) x) as Hadd.
  rewrite Hland in Hadd. rewrite <- (Z.shiftl_mul_pow2 h k) by exact Hk. lia.
Qed.

Lemma sextets_arith a b c :
  is_byte a -> is_byte b -> is_byte c ->
  sextet0 a = a / 4
  /\ sextet1 a b = (a mod 4) * 16 + b / 16
  /\ sextet2 b c = (b mod 16) * 4 + c / 64
  /\ sextet3 c = c mod 64.
Proof.
  intros Ha Hb Hc.
  assert (H0 : (sextet0 a =? a / 4) = true).
  { apply (byte_forall (fun a => sextet0 a =? a / 4));
      [vm_compute; reflexivity | exact Ha]. }
  assert (H1 : (sextet1 a b =? (a mod 4) * 16 + b / 16) = true).
  { apply (byte_forall2 (fun a b => sextet1 a b =? (a mod 4) * 16 + b / 16));
      [vm_compute; reflexivity | exact Ha | exact Hb]. }
  assert (H2 : (sextet2 b c =? (b mod 16) * 4 + c / 64) = true).
  { apply (byte_forall2 (fun b c => sextet2 b c =? (b mod 16) * 4 + c / 64));
      [vm_compute; reflexivity | exact Hb | exact Hc]. }
  assert (H3 : (sextet3 c =? c mod 64) = true).
  { apply (byte_forall (fun c => sextet3 c =? c mod 64));
      [vm_compute; reflexivity | exact Hc]. }
  apply Z.eqb_eq in H0, H1, H2, H3. auto.
Qed.

Lemma quantum3 a b c :
  is_byte a -> is_byte b -> is_byte c ->
  base64.quantumBytes [sextet0 a; sextet1 a b; sextet2 b c; sextet3 c] = [a; b; c].
Proof.
  intros Ha Hb Hc.
  destruct (sextets_arith a b c Ha Hb Hc) as (E0 & E1 & E2 & E3).
  unfold base64.quantumBytes. cbn [nth length Nat.sub firstn].
  rewrite E0, E1, E2, E3. unfold is_byte in *.
  rewrite (lor_shiftl_add _ 6) by (try lia; apply Z.mod_pos_bound; lia).
  rewrite (lor_shiftl_add _ 12) by
    (try lia; change (2 ^ 6) with 64; change (2 ^ 12) with 4096;
     Z.div_mod_to_equations; lia).
  rewrite (lor_shiftl_add _ 18) by
    (try lia; change (2 ^ 6) with 64; change (2 ^ 12) with 4096;
     change (2 ^ 18) with 262144; Z.div_mod_to_equations; lia).
  change (2 ^ 6) with 64; change (2 ^ 12) with 4096; change (2 ^ 18) with 262144.
  assert (Hval : a / 4 * 262144 + ((a mod 4 * 16 + b / 16) * 4096
                   + ((b mod 16 * 4 + c / 64) * 64 + c mod 64))
                 = a * 65536 + b * 256 + c)
    by (Z.div_mod_to_equations; lia).
  rewrite Hval. change 255 with (Z.ones 8).
  rewrite !Z.land_ones, !Z.shiftr_div_pow2 by lia.
  change (2 ^ 16) with 65536; change (2 ^ 8) with 256.
  repeat f_equal; Z.div_mod_to_equations; lia.
Qed.

Lemma decodeFrom_encoded (n : nat) :
  forall bs,
    (length bs <= n)%nat -> Forall is_byte bs ->
    forall (si len : nat) dst,
      base64.decodeFrom
        (String.list_ascii_of_string (base64.EncodeToString bs)) si len [] dst
      = Ok (dst ++ bs).
Proof.
  induction n as [| n IH]; intros bs Hlen Hbytes si len dst.
  - destruct bs; simpl in *; [now rewrite app_nil_r | lia].
  - destruct bs as [| a [| b [| c r]]].
    + cbn. now rewrite app_nil_r.
    + inversion_clear Hbytes as [| ? ? Ha _].
      cbn [base64.EncodeToString String.list_ascii_of_string base64.decodeFrom].
      rewrite !decodeChar_digit. cbn [length Nat.eqb app].
      change (base64.decodeChar "=") with (@None Z).
      cbn [base64.isNewline base64.isPad Ascii.eqb Bool.eqb orb negb
           base64.skipNewlines base64.afterPadding].
      now rewrite <- (quantum1 a Ha).
    + inversion_clear Hbytes as [| ? ? Ha Hbs].
      inversion_clear Hbs as [| ? ? Hb _].
      cbn [base64.EncodeToString String.list_ascii_of_string base64.decodeFrom].
      rewrite !decodeChar_digit. cbn [length Nat.eqb app].
      change (base64.decodeChar "=") with (@None Z).
      cbn [base64.isNewline base64.isPad Ascii.eqb Bool.eqb orb negb
           base64.skipNewlines base64.afterPadding].
      now rewrite <- (quantum2 a b Ha Hb).
    + inversion_clear Hbytes as [| ? ? Ha Hbs].
      inversion_clear Hbs as [| ? ? Hb Hbs'].
      inversion_clear Hbs' as [| ? ? Hc Hr].
      cbn [base64.EncodeToString String.list_ascii_of_string base64.decodeFrom].
      rewrite !decodeChar_digit. cbn [length Nat.eqb app].
      fold (sextet0 a) (sextet1 a b) (sextet2 b c) (sextet3 c).
      rewrite (quantum3 a b c Ha Hb Hc).
      rewrite IH by (trivial; simpl in Hlen; lia).
      now rewrite <- app_assoc.
Qed.

End Base64RoundTrip.

(** [DecodeString] of what [EncodeToString] wrote for a byte string gives
    the byte string back. *)
Lemma base64_roundtrip (bs : bytes) :
  Forall is_byte bs -> base64.DecodeString (base64.EncodeToString bs) = Ok bs.
Proof.
  intros Hbytes. unfold base64.DecodeString.
  now rewrite (decodeFrom_encoded (length bs)).
Qed.

(** * Bytes stay bytes *)

Section ByteRange.

Implicit Types (a b x y : Z) (bs p key nonce data : bytes).

Lemma is_byteb_spec x : is_byteb x = true -> is_byte x.
Proof. unfold is_byteb, is_byte. intros H. apply andb_true_iff in H. lia. Qed.

Lemma lxor_byte a b : is_byte a -> is_byte b -> is_byte (Z.lxor a b).
Proof.
  intros Ha Hb. apply is_byteb_spec.
  apply (byte_forall2 (fun a b => is_byteb (Z.lxor a b)));
    [vm_compute; reflexivity | exact Ha | exact Hb].
Qed.

Lemma xtime_byte a : is_byte a -> is_byte (aes.xtime a).
Proof.
  intros Ha. apply is_byteb_spec.
  apply (byte_forall (fun a => is_byteb (aes.xtime a)));
    [vm_compute; reflexivity | exact Ha].
Qed.

Lemma nth_byte (l : bytes) (i : nat) : Forall is_byte l -> is_byte (nth i l 0).
Proof.
  intros Hl. destruct (nth_in_or_default i l 0) as [Hin | ->].
  - rewrite Forall_forall in Hl. apply Hl. now apply list_elem_of_In.
  - unfold is_byte. lia.
Qed.

Lemma sbox_byte x : is_byte (aes.sbox x).
Proof.
  unfold aes.sbox. apply nth_byte.
  apply Forall_forall. intros y Hy. apply is_byteb_spec.
  assert (Hall : forallb is_byteb aes.sbox_table = true) by (vm_compute; reflexivity).
  rewrite forallb_forall in Hall. apply Hall. now apply list_elem_of_In.
Qed.

Lemma xor_bytes_byte (u v : bytes) :
  Forall is_byte u -> Forall is_byte v -> Forall is_byte (xor_bytes u v).
Proof.
  unfold xor_bytes. intros Hu. revert v.
  induction Hu as [| a u Ha _ IH]; intros v Hv; [constructor |].
  destruct Hv as [| b v Hb Hv]; [constructor |].
  cbn [combine map]. constructor; [now apply lxor_byte | now apply IH].
Qed.

Lemma word_at_byte (w : list bytes) (i : nat) :
  words_ok w -> Forall is_byte (aes.word_at w i).
Proof.
  intros Hw. unfold aes.word_at.
  destruct (nth_in_or_default i w [0; 0; 0; 0]) as [Hin | ->].
  - unfold words_ok in Hw. rewrite Forall_forall in Hw. apply Hw.
    now apply list_elem_of_In.
  - repeat constructor; unfold is_byte; lia.
Qed.

Lemma map_sbox_byte bs : Forall is_byte (map aes.sbox bs).
Proof.
  induction bs as [| x bs IH]; cbn [map]; constructor; [apply sbox_byte | exact IH].
Qed.

Lemma Rcon_byte (j : nat) : Forall is_byte (aes.Rcon j).
Proof.
  unfold aes.Rcon.
  assert (Hiter : forall n : nat, is_byte (Nat.iter n aes.xtime 1)).
  { induction n as [| n IH]; cbn [Nat.iter nat_rect]; [unfold is_byte; lia |].
    now apply xtime_byte. }
  constructor; [apply Hiter |].
  repeat constructor; unfold is_byte; lia.
Qed.

Lemma next_word_byte (Nk : nat) (w : list bytes) :
  words_ok w -> Forall is_byte (aes.next_word Nk w).
Proof.
  intros Hw. unfold aes.next_word. apply xor_bytes_byte; [now apply word_at_byte |].
  destruct (_ =? 0)%nat.
  - apply xor_bytes_byte; [apply map_sbox_byte | apply Rcon_byte].
  - destruct (_ && _); [apply map_sbox_byte | now apply word_at_byte].
Qed.

Lemma chunks4_byte (n : nat) :
  forall key, Forall is_byte key -> words_ok (aes.chunks4 n key).
Proof.
  induction n as [| n IH]; intros key Hkey; cbn [aes.chunks4]; [constructor |].
  constructor; [now apply Forall_take | apply IH; now apply Forall_drop].
Qed.

Lemma KeyExpansion_byte key : Forall is_byte key -> words_ok (aes.KeyExpansion key).
Proof.
  intros Hkey. unfold aes.KeyExpansion.
  generalize (4 * (length key / 4 + 6 + 1) - length key / 4)%nat. intros n.
  induction n as [| n IH]; cbn [Nat.iter nat_rect]; [now apply chunks4_byte |].
  apply Forall_app. split; [exact IH |].
  constructor; [now apply next_word_byte | constructor].
Qed.

Lemma aes_Encrypt_byte (blk : aes.Block) (src : bytes) :
  words_ok (aes.enc blk) -> Forall is_byte (aes.Encrypt blk src).
Proof.
  intros Hw. unfold aes.Encrypt, aes.AddRoundKey.
  apply Forall_forall. intros x Hx.
  apply list_elem_of_In, in_map_iff in Hx as (i & <- & _).
  apply lxor_byte; unfold aes.at16; apply nth_byte.
  - unfold aes.ShiftRows. apply Forall_forall. intros y Hy.
    apply list_elem_of_In, in_map_iff in Hy as (j & <- & _).
    unfold aes.at16, aes.SubBytes. apply nth_byte, map_sbox_byte.
  - unfold aes.round_key. repeat (apply Forall_app; split); now apply word_at_byte.
Qed.

Lemma counterCrypt_byte (n : nat) :
  forall (blk : aes.Block) (ctr inp : bytes),
    words_ok (aes.enc blk) -> Forall is_byte inp ->
    Forall is_byte (cipher.counterCrypt n blk ctr inp).
Proof.
  induction n as [| n IH]; intros blk ctr inp Hw Hinp; [constructor |].
  destruct (decide (inp = [])) as [-> | Hne]; [constructor |].
  rewrite counterCrypt_step by assumption. apply Forall_app. split.
  - apply xor_bytes_byte; [now apply Forall_take | now apply aes_Encrypt_byte].
  - apply IH; [exact Hw | now apply Forall_drop].
Qed.

Lemma sealed_byte (g : cipher.AEAD) nonce p data :
  words_ok (aes.enc (cipher.block g)) -> Forall is_byte p ->
  Forall is_byte (sealed g nonce p data).
Proof.
  intros Hw Hp. unfold sealed. cbv zeta. apply Forall_app. split.
  - now apply counterCrypt_byte.
  - unfold cipher.auth. apply xor_bytes_byte;
      [apply Z_to_be_bytes | now apply aes_Encrypt_byte].
Qed.

(** A blob the envelope cipher returns under a key of bytes, for a payload
    of bytes and random bytes, consists of bytes. *)
Lemma EncryptAES256GCM_byte key p (rnd rnd' : rand.Reader) (c : bytes) :
  Forall is_byte key -> Forall is_byte p -> Forall is_byte rnd ->
  crypto.EncryptAES256GCM key p rnd = (Ok c, rnd') ->
  Forall is_byte c.
Proof.
  intros Hkey Hp Hrnd. unfold crypto.EncryptAES256GCM, bindR, ret, wrapR.
  destruct (aes.NewCipher key) as [blk | e | msg] eqn:Hblk; cbn [wrap_err];
    try discriminate.
  apply NewCipher_inv in Hblk. rewrite NewGCM_ok.
  cbn [wrap_err cipher.NonceSize cipher.nonceSize].
  destruct (rand.Read 12 rnd) as [[nonce | e | msg] rnd1] eqn:Hread;
    cbn [wrap_err]; try discriminate.
  apply rand_Read_inv in Hread as (_ & -> & -> & Hlen).
  fold (gcmOf blk). rewrite Seal_eq by exact Hlen. intros [= <- _].
  apply Forall_app. split; [now apply Forall_take |].
  apply sealed_byte; [| exact Hp].
  cbn [gcmOf cipher.block]. subst blk. cbn [aes.enc]. now apply KeyExpansion_byte.
Qed.

End ByteRange.

(** * The handlers *)

Section HandlerFacts.

Import server.

Implicit Types (s : Server) (id : auth.Identity) (rnd : rand.Reader).

Lemma data_gate id (action : auth.Action) :
  action = auth.ActionGenerateDataKey \/ action = auth.ActionEncrypt
  \/ action = auth.ActionDecrypt ->
  (auth.IsAuthorized id action = None <-> dataRole id)
  /\ auth.IsAuthorized id action = auth.IsAuthorized id auth.ActionEncrypt.
Proof.
  intros Ha. unfold auth.IsAuthorized, dataRole.
  destruct (String.eqb_spec (auth.IdRole id) auth.RoleAdmin) as [Hadm | Hadm].
  - split; [tauto | reflexivity].
  - destruct (String.eqb_spec (auth.IdRole id) auth.RoleService) as [Hsvc | Hsvc].
    + destruct Ha as [-> | [-> | ->]]; cbn; (split; [tauto | reflexivity]).
    + destruct (String.eqb (auth.IdRole id) auth.RoleAuditor);
        (split; [split; [discriminate | tauto] | reflexivity]).
Qed.

Lemma withKeyStore_same s : withKeyStore s (KeyStore s) = s.
Proof. now destruct s. Qed.

(** The record [InsertDEK] wrote is the one [GetDEK] finds under the id
    it returned. *)
Lemma InsertDEK_found (d d' : storage.MongoDEKStore) (E : bytes)
    (A dekID : string) :
  storage.InsertDEK d E A = (Ok dekID, d') ->
  exists oid : mongo.ObjectID,
    storage.GetDEK d' dekID
    = Ok {| storage.DocID := oid; storage.DEK := E; storage.MasterKeyID := A |}.
Proof.
  unfold storage.InsertDEK, mongo.InsertOne.
  destruct (mongo.reachable (storage.collection d)) eqn:Hup;
    cbn [negb]; [| discriminate].
  set (oid := Z_to_be 12 (mongo.nextID (storage.collection d))).
  destruct (mongo.docs (storage.collection d) !! oid) eqn:Hfree; [discriminate |].
  cbn [wrap_err bind]. intros Heq.
  assert (Hid : dekID = mongo.Hex oid) by congruence.
  assert (Hd : d' = {| storage.collection :=
                         {| mongo.docs :=
                              <[oid := {| storage.DocID := oid; storage.DEK := E;
                                          storage.MasterKeyID := A |}]>
                                (mongo.docs (storage.collection d));
                            mongo.nextID := mongo.nextID (storage.collection d) + 1;
                            mongo.reachable := true |} |}) by congruence.
  subst dekID d'. clear Heq.
  assert (Hoid : mongo.ObjectIDFromHex (mongo.Hex oid) = Ok oid).
  { apply ObjectIDFromHex_Hex; [apply Z_to_be_length | apply Z_to_be_bytes]. }
  exists oid. unfold storage.GetDEK. rewrite Hoid. cbn [wrap_err bind].
  unfold mongo.FindOne. cbn [storage.collection mongo.reachable mongo.docs negb].
  now rewrite lookup_insert_eq.
Qed.

(** What the envelope cipher wrote under a valid key of bytes comes back
    through base64 and [DecryptAES256GCM]. *)
Lemma payload_roundtrip (dek p : bytes) rnd :
  aesKeyLength dek -> Forall is_byte dek -> Forall is_byte p ->
  Forall is_byte rnd -> (12 <= length rnd)%nat ->
  exists c : bytes,
    crypto.EncryptAES256GCM dek p rnd = (Ok c, skipn 12 rnd)
    /\ base64.DecodeString (base64.EncodeToString c) = Ok c
    /\ crypto.DecryptAES256GCM dek c = Ok p.
Proof.
  intros Hlen Hdek Hp Hrnd Hle.
  assert (Henc := EncryptAES256GCM_valid dek p rnd Hlen).
  apply Nat.leb_le in Hle. rewrite Hle in Henc.
  eexists. split; [exact Henc |]. split.
  - apply base64_roundtrip.
    exact (EncryptAES256GCM_byte dek p rnd _ _ Hdek Hp Hrnd Henc).
  - exact (envelope_roundtrip_valid dek p rnd _ _ Hlen Henc).
Qed.

(** Encrypt under one state of the server, decrypt under another: when the
    record of [dekID] unwraps to the same DEK in both, the payload comes
    back. *)
Lemma handlers_roundtrip (sE sD : Server) (idE idD : auth.Identity)
    (dekID : string) (docE docD : storage.DEKDocument) (dek jsonData : bytes) rnd :
  auth.IsAuthorized idE auth.ActionEncrypt = None ->
  auth.IsAuthorized idD auth.ActionDecrypt = None ->
  storage.GetDEK (DEKStore sE) dekID = Ok docE ->
  storage.GetDEK (DEKStore sD) dekID = Ok docD ->
  storage.DecryptDataKey (KeyStore sE) (storage.DEK docE) (storage.MasterKeyID docE)
  = Ok dek ->
  storage.DecryptDataKey (KeyStore sD) (storage.DEK docD) (storage.MasterKeyID docD)
  = Ok dek ->
  aesKeyLength dek -> Forall is_byte dek -> Forall is_byte jsonData ->
  Forall is_byte rnd -> (12 <= length rnd)%nat ->
  exists ct : string,
    EncryptHandler sE
      (requestOf idE (Some {| EncDEKID := dekID; JSONData := jsonData |})) rnd
    = (writeJSON [("ciphertext", ct)], skipn 12 rnd)
    /\ DecryptHandler sD
         (requestOf idD (Some {| DecDEKID := dekID; Ciphertext := ct |}))
       = DecryptWrote {| PlainJSONData := jsonData |}.
Proof.
  intros HaE HaD HgE HgD HuE HuD Hlen Hdek Hp Hrnd Hle.
  destruct (payload_roundtrip dek jsonData rnd Hlen Hdek Hp Hrnd Hle)
    as (c & Henc & Hb64 & Hdec).
  exists (base64.EncodeToString c). split.
  - unfold EncryptHandler.
    cbn [getIdentity requestOf ctxIdentity decoded EncDEKID JSONData].
    now rewrite HaE, HgE, HuE, Henc.
  - unfold DecryptHandler.
    cbn [getIdentity requestOf ctxIdentity decoded DecDEKID Ciphertext].
    now rewrite HaD, HgD, HuD, Hb64, Hdec.
Qed.

Lemma rotations_unwrap (rnds : list rand.Reader) (m : storage.MasterKeyStore)
    (E : bytes) (A : string) :
  ~ In A (rotatedIDs rnds) ->
  storage.DecryptDataKey (rotations m rnds) E A = storage.DecryptDataKey m E A.
Proof.
  intros Hfresh. unfold storage.DecryptDataKey.
  now rewrite rotations_lookup by exact Hfresh.
Qed.

End HandlerFacts.

(** X12.  The role check at the endpoints.  An identity whose role is
    neither ADMIN nor SERVICE is answered 403 by the generate, encrypt and
    decrypt handlers, with the reason [IsAuthorized] gave as the body, the
    server and the random source as they were; an ADMIN or SERVICE identity
    is never answered 403 by them.  The rotate handler answers 403 in that
    way to every identity that is not ADMIN, and never to ADMIN. *)
Theorem handlers_access (s : server.Server) (id : auth.Identity)
    (rnd : rand.Reader) (b : option unit)
    (e : option server.EncryptRequest) (d : option server.DecryptRequest) :
  (dataRole id ->
   statusOf (fst (fst (server.GenerateDataKeyHandler s (requestOf id b) rnd)))
   <> Some StatusForbidden
   /\ statusOf (fst (server.EncryptHandler s (requestOf id e) rnd))
      <> Some StatusForbidden
   /\ decryptStatus (server.DecryptHandler s (requestOf id d))
      <> Some StatusForbidden)
  /\ (~ dataRole id ->
      exists reason : string,
        auth.IsAuthorized id auth.ActionEncrypt = Some reason
        /\ server.GenerateDataKeyHandler s (requestOf id b) rnd
           = (http_Error reason StatusForbidden, s, rnd)
        /\ server.EncryptHandler s (requestOf id e) rnd
           = (http_Error reason StatusForbidden, rnd)
        /\ server.DecryptHandler s (requestOf id d)
           = server.DecryptFailed (http_Error reason StatusForbidden))
  /\ (auth.IdRole id = auth.RoleAdmin ->
      statusOf (fst (fst (server.RotateMasterKeyHandler s (requestOf id b) rnd)))
      <> Some StatusForbidden)
  /\ (auth.IdRole id <> auth.RoleAdmin ->
      exists reason : string,
        auth.IsAuthorized id auth.ActionRotateMasterKey = Some reason
        /\ server.RotateMasterKeyHandler s (requestOf id b) rnd
           = (http_Error reason StatusForbidden, s, rnd)).
Proof.
  destruct (data_gate id auth.ActionGenerateDataKey) as [HG HGe]; [now left |].
  destruct (data_gate id auth.ActionEncrypt) as [HE _]; [now (right; left) |].
  destruct (data_gate id auth.ActionDecrypt) as [HD HDe]; [now (right; right) |].
  split; [| split; [| split]].
  - intros Hrole. apply HG in Hrole as HaG. apply HE in Hrole as HaE.
    apply HD in Hrole as HaD.
    unfold server.GenerateDataKeyHandler, server.EncryptHandler,
      server.DecryptHandler.
    cbn [server.getIdentity requestOf ctxIdentity decoded].
    rewrite HaG, HaE, HaD. split; [| split].
    + destruct (crypto.GenerateKey rnd) as [[dek | ? | ?] rnd1];
        [| discriminate | discriminate].
      destruct (storage.EncryptDataKey _ dek rnd1) as [[[E A] | ? | ?] rnd2];
        [| discriminate | discriminate].
      destruct (storage.InsertDEK _ E A) as [[dekID | ? | ?] d'];
        discriminate.
    + destruct e as [req |]; [| discriminate].
      destruct (storage.GetDEK _ _) as [doc | ? | ?];
        [| discriminate | discriminate].
      destruct (storage.DecryptDataKey _ _ _) as [dek | ? | ?];
        [| discriminate | discriminate].
      destruct (crypto.EncryptAES256GCM dek _ rnd) as [[c | ? | ?] rnd1];
        discriminate.
    + destruct d as [req |]; [| discriminate].
      destruct (storage.GetDEK _ _) as [doc | ? | ?];
        [| discriminate | discriminate].
      destruct (storage.DecryptDataKey _ _ _) as [dek | ? | ?];
        [| discriminate | discriminate].
      destruct (base64.DecodeString _) as [c | ? | ?];
        [| discriminate | discriminate].
      destruct (crypto.DecryptAES256GCM dek c) as [p | ? | ?]; discriminate.
  - intros Hrole.
    destruct (auth.IsAuthorized id auth.ActionEncrypt) as [reason |] eqn:HaE;
      [| exfalso; apply Hrole, HE; reflexivity].
    exists reason. split; [reflexivity |].
    unfold server.GenerateDataKeyHandler, server.EncryptHandler,
      server.DecryptHandler.
    cbn [server.getIdentity requestOf ctxIdentity decoded].
    rewrite HGe, HDe, HaE. repeat split.
  - intros Hadm. apply rotate_gate in Hadm.
    unfold server.RotateMasterKeyHandler.
    cbn [server.getIdentity requestOf ctxIdentity decoded]. rewrite Hadm.
    destruct (storage.RotateMasterKey _ rnd) as [[[mk | ? | ?] ks] rnd1];
      discriminate.
  - intros Hadm.
    destruct (auth.IsAuthorized id auth.ActionRotateMasterKey) as [reason |] eqn:Ha;
      [| now apply rotate_gate in Ha].
    exists reason. split; [reflexivity |].
    unfold server.RotateMasterKeyHandler.
    cbn [server.getIdentity requestOf ctxIdentity decoded]. now rewrite Ha.
Qed.

Lemma handlers_access_witness :
  server.EncryptHandler cx_server
    (requestOf (asRole "carol" auth.RoleAuditor)
       (Some {| server.EncDEKID := "000000000000000000000000";
                server.JSONData := [123; 125] |}))
    cx_wrap_rnd
  = (http_Error "action not authorized for AUDITOR role" StatusForbidden,
     cx_wrap_rnd)
  /\ statusOf (fst (fst (server.RotateMasterKeyHandler cx_server
                           (requestOf (asRole "alice" auth.RoleAdmin) None)
                           cx_rotate_other)))
     <> Some StatusForbidden.
Proof.
  split.
  - destruct (handlers_access cx_server (asRole "carol" auth.RoleAuditor)
                cx_wrap_rnd None
                (Some {| server.EncDEKID := "000000000000000000000000";
                         server.JSONData := [123; 125] |})
                None) as (_ & Hdeny & _).
    destruct Hdeny as (reason & Hreason & _ & Henc & _).
    + unfold dataRole. cbn. intros [H | H]; discriminate.
    + cbn in Hreason. injection Hreason as <-. exact Henc.
  - destruct (handlers_access cx_server (asRole "alice" auth.RoleAdmin)
                cx_rotate_other None None None) as (_ & _ & Hadm & _).
    apply Hadm. reflexivity.
Defined.

(** X13.  The rotate endpoint for an ADMIN.  With 48 random bytes the
    response is exactly the field [newMasterKeyID], a 36-character id; the
    server afterwards holds the first 32 random bytes as the key under that
    id, has it as the active id, and wraps the next data key under it; the
    DEK store is as it was.  With 32 to 47 random bytes the handler panics
    and the server is as it was.  And whenever the server is not as it was,
    the answer was 200. *)
Theorem RotateMasterKeyHandler_outcomes (s : server.Server) (id : auth.Identity)
    (b : option unit) (rnd : rand.Reader) :
  auth.IdRole id = auth.RoleAdmin ->
  ((48 <= length rnd)%nat ->
   exists newID : string,
     server.RotateMasterKeyHandler s (requestOf id b) rnd
     = (server.writeJSON [("newMasterKeyID", newID)],
        {| server.KeyStore :=
             {| storage.masterKeys :=
                  <[newID := {| storage.ID := newID;
                                storage.Key := firstn 32 rnd |}]>
                    (storage.masterKeys (server.KeyStore s));
                storage.activeKeyID := newID |};
           server.DEKStore := server.DEKStore s |},
        skipn 48 rnd)
     /\ String.length newID = 36%nat
     /\ forall (dek : bytes) (rndW : rand.Reader),
          (12 <= length rndW)%nat ->
          exists E : bytes,
            storage.EncryptDataKey
              (server.KeyStore
                 (snd (fst (server.RotateMasterKeyHandler s (requestOf id b) rnd))))
              dek rndW
            = (Ok (E, newID), skipn 12 rndW))
  /\ ((32 <= length rnd < 48)%nat ->
      exists msg : string,
        server.RotateMasterKeyHandler s (requestOf id b) rnd
        = (Panicked msg, s, []))
  /\ (snd (fst (server.RotateMasterKeyHandler s (requestOf id b) rnd)) <> s ->
      statusOf (fst (fst (server.RotateMasterKeyHandler s (requestOf id b) rnd)))
      = Some StatusOK).
Proof.
  intros Hadm. apply rotate_gate in Hadm.
  unfold server.RotateMasterKeyHandler.
  cbn [server.getIdentity requestOf ctxIdentity decoded]. rewrite Hadm.
  split; [| split].
  - intros Hle.
    destruct (uuid_New_ok (skipn 32 rnd)) as (u & Hu & Hulen);
      [rewrite length_skipn; lia |].
    assert (Hnew : storage.newMasterKey rnd
                   = (Ok {| storage.ID := uuid.String u;
                            storage.Key := firstn 32 rnd |},
                      skipn 48 rnd)).
    { unfold storage.newMasterKey, bindR, ret.
      rewrite rand_Read_ok by lia. rewrite Hu.
      rewrite skipn_skipn. reflexivity. }
    exists (uuid.String u).
    unfold storage.RotateMasterKey. rewrite Hnew.
    cbn [fst snd storage.ID storage.Key server.withKeyStore server.KeyStore].
    split; [reflexivity |]. split; [now apply uuid_String_length |].
    intros dek rndW HleW.
    set (mk := {| storage.ID := uuid.String u; storage.Key := firstn 32 rnd |}).
    assert (Hk : key32 mk).
    { unfold key32, mk. cbn [storage.Key]. rewrite length_firstn. lia. }
    rewrite (EncryptDataKey_key32 _ dek rndW mk);
      [| cbn [storage.masterKeys storage.activeKeyID];
         now rewrite lookup_insert_eq
       | exact Hk].
    apply Nat.leb_le in HleW. rewrite HleW. eexists. reflexivity.
  - intros [Hle Hlt].
    unfold storage.RotateMasterKey, storage.newMasterKey, bindR.
    rewrite rand_Read_ok by assumption.
    rewrite uuid_New_short by (rewrite length_skipn; lia).
    rewrite withKeyStore_same. eexists. reflexivity.
  - unfold storage.RotateMasterKey.
    destruct (storage.newMasterKey rnd) as [[newMK | e | msg] rnd'];
      cbn [fst snd]; [reflexivity | |];
      rewrite withKeyStore_same; intros Hne; now elim Hne.
Qed.

Lemma RotateMasterKeyHandler_outcomes_witness :
  (exists newID : string,
      fst (fst (server.RotateMasterKeyHandler cx_server
                  (requestOf (asRole "alice" auth.RoleAdmin) None)
                  cx_rotate_other))
      = server.writeJSON [("newMasterKeyID", newID)]
      /\ String.length newID = 36%nat)
  /\ exists msg : string,
       server.RotateMasterKeyHandler cx_server
         (requestOf (asRole "alice" auth.RoleAdmin) None) (repeat 1 40)
       = (Panicked msg, cx_server, []).
Proof.
  destruct (RotateMasterKeyHandler_outcomes cx_server
              (asRole "alice" auth.RoleAdmin) None cx_rotate_other eq_refl)
    as (Hok & _).
  destruct (RotateMasterKeyHandler_outcomes cx_server
              (asRole "alice" auth.RoleAdmin) None (repeat 1 40) eq_refl)
    as (_ & Hpanic & _).
  split.
  - destruct Hok as (newID & Heq & Hlen & _); [vm_compute; lia |].
    exists newID. rewrite Heq. split; [reflexivity | exact Hlen].
  - apply Hpanic. vm_compute. lia.
Defined.

Section HandlerRuns.

Import server.

Lemma forallb_is_byte (l : bytes) : forallb is_byteb l = true -> Forall is_byte l.
Proof.
  intros Hall. apply Forall_forall. intros x Hx.
  apply is_byteb_spec. rewrite forallb_forall in Hall.
  apply Hall. now apply list_elem_of_In.
Qed.

Lemma DeleteDEK_inv (d d' : storage.MongoDEKStore) (id : string) (u : unit) :
  storage.DeleteDEK d id = (Ok u, d') ->
  exists oid : mongo.ObjectID,
    mongo.ObjectIDFromHex id = Ok oid
    /\ mongo.reachable (storage.collection d) = true
    /\ d' = {| storage.collection :=
                 {| mongo.docs := delete oid (mongo.docs (storage.collection d));
                    mongo.nextID := mongo.nextID (storage.collection d);
                    mongo.reachable := true |} |}.
Proof.
  unfold storage.DeleteDEK.
  destruct (mongo.ObjectIDFromHex id) as [oid | e | msg]; cbn [wrap_err];
    try discriminate.
  unfold mongo.DeleteOne.
  destruct (mongo.reachable (storage.collection d)) eqn:Hup; cbn [negb wrap_err];
    [| discriminate].
  intros Heq. exists oid. split; [reflexivity |]. split; [reflexivity |].
  congruence.
Qed.

End HandlerRuns.

(** X14.  A generated data key serves until its master key's id is issued
    again.  After [GenerateDataKeyHandler] answered 200 with a record id
    and a master-key id on a server whose key store is reachable, an encrypt
    request for that record and a payload of bytes, by an ADMIN or SERVICE
    caller with twelve random bytes, answers 200 with a ciphertext, and a
    decrypt request with that ciphertext hands the payload to [writeJSON];
    and this with any rotations of the master key before either request,
    provided none of them returned the id the data key was wrapped under. *)
Theorem generated_key_roundtrip (s s1 : server.Server)
    (idG idE idD : auth.Identity) (b : option unit)
    (rndG restG rndE : rand.Reader) (dekID A : string)
    (rndsE rndsD : list rand.Reader) (jsonData : bytes) :
  reachable (server.KeyStore s) ->
  server.GenerateDataKeyHandler s (requestOf idG b) rndG
  = (server.writeJSON (dekResponse dekID A), s1, restG) ->
  dataRole idE -> dataRole idD ->
  Forall is_byte rndG -> Forall is_byte rndE -> Forall is_byte jsonData ->
  (12 <= length rndE)%nat ->
  ~ In A (rotatedIDs rndsE) -> ~ In A (rotatedIDs rndsD) ->
  exists ct : string,
    server.EncryptHandler (afterRotations s1 rndsE)
      (requestOf idE (Some {| server.EncDEKID := dekID;
                              server.JSONData := jsonData |}))
      rndE
    = (server.writeJSON [("ciphertext", ct)], skipn 12 rndE)
    /\ server.DecryptHandler (afterRotations s1 rndsD)
         (requestOf idD (Some {| server.DecDEKID := dekID;
                                 server.Ciphertext := ct |}))
       = server.DecryptWrote {| server.PlainJSONData := jsonData |}.
Proof.
  intros Hreach Hgen HrE HrD HbG HbE Hbp Hle HfE HfD.
  unfold server.GenerateDataKeyHandler in Hgen.
  cbn [server.getIdentity requestOf ctxIdentity] in Hgen.
  destruct (auth.IsAuthorized idG _); [discriminate |].
  destruct (crypto.GenerateKey rndG) as [[dek | e | msg] rnd1] eqn:Hkey;
    try discriminate.
  destruct (storage.EncryptDataKey _ dek rnd1) as [[[E A'] | e | msg] rnd2] eqn:Hwrap;
    try discriminate.
  destruct (storage.InsertDEK _ E A') as [[dekID' | e | msg] d'] eqn:Hins;
    try discriminate.
  unfold server.writeJSON, dekResponse in Hgen.
  assert (HdekID : dekID' = dekID) by congruence.
  assert (HA : A' = A) by congruence.
  assert (Hs1 : s1 = server.withDEKStore s d') by congruence.
  subst dekID' A' s1. clear Hgen.
  apply GenerateKey_inv in Hkey as (Hdek & _ & Hlen).
  apply EncryptDataKey_inv in Hwrap as (mk & blk & Hmk & Hblk & HAmk & Hle1 & HE & _).
  assert (Hown := reachable_own_id _ Hreach _ _ Hmk).
  assert (HmkA : storage.masterKeys (server.KeyStore s) !! A = Some mk).
  { rewrite HAmk, Hown. exact Hmk. }
  destruct (InsertDEK_found _ _ _ _ _ Hins) as [oid Hget].
  assert (Hn : length (firstn 12 rnd1) = 12%nat) by (rewrite length_firstn; lia).
  assert (Hunwrap : storage.DecryptDataKey (server.KeyStore s) E A = Ok dek).
  { rewrite HE. now apply (DecryptDataKey_sealed _ _ mk blk). }
  apply (handlers_roundtrip _ _ idE idD dekID
           {| storage.DocID := oid; storage.DEK := E; storage.MasterKeyID := A |}
           {| storage.DocID := oid; storage.DEK := E; storage.MasterKeyID := A |}
           dek).
  - now apply (data_gate idE auth.ActionEncrypt); [right; left |].
  - now apply (data_gate idD auth.ActionDecrypt); [right; right |].
  - exact Hget.
  - exact Hget.
  - cbn [storage.DEK storage.MasterKeyID]. unfold afterRotations.
    cbn [server.withKeyStore server.withDEKStore server.KeyStore].
    now rewrite rotations_unwrap.
  - cbn [storage.DEK storage.MasterKeyID]. unfold afterRotations.
    cbn [server.withKeyStore server.withDEKStore server.KeyStore].
    now rewrite rotations_unwrap.
  - right; right. exact Hlen.
  - rewrite Hdek. now apply Forall_take.
  - exact Hbp.
  - exact HbE.
  - exact Hle.
Qed.

Lemma generated_key_roundtrip_witness :
  exists ct : string,
    server.EncryptHandler
      (afterRotations
         (snd (fst (server.GenerateDataKeyHandler cx_server
                      (requestOf (asRole "uid-2" auth.RoleService) None)
                      cx_generate_rnd)))
         [])
      (requestOf (asRole "uid-2" auth.RoleService)
         (Some {| server.EncDEKID := "000000000000000000000001";
                  server.JSONData := [123; 125] |}))
      cx_wrap_rnd
    = (server.writeJSON [("ciphertext", ct)], skipn 12 cx_wrap_rnd)
    /\ server.DecryptHandler
         (afterRotations
            (snd (fst (server.GenerateDataKeyHandler cx_server
                         (requestOf (asRole "uid-2" auth.RoleService) None)
                         cx_generate_rnd)))
            [cx_rotate_other])
         (requestOf (asRole "alice" auth.RoleAdmin)
            (Some {| server.DecDEKID := "000000000000000000000001";
                     server.Ciphertext := ct |}))
       = server.DecryptWrote {| server.PlainJSONData := [123; 125] |}.
Proof.
  apply (generated_key_roundtrip cx_server _
           (asRole "uid-2" auth.RoleService) _ _ None
           cx_generate_rnd [] cx_wrap_rnd "000000000000000000000001" cx_id).
  - apply (reachable_new [ {| storage.ID := cx_id; storage.Key := repeat 7 32 |} ]).
    reflexivity.
  - vm_compute. reflexivity.
  - right. reflexivity.
  - left. reflexivity.
  - apply forallb_is_byte. reflexivity.
  - apply forallb_is_byte. reflexivity.
  - apply forallb_is_byte. reflexivity.
  - vm_compute. lia.
  - intros [].
  - vm_compute. intros [H | []]. discriminate.
Defined.

(** X15.  A deleted data key is gone for the data endpoints.  When
    [DeleteDataKeyHandler] answered 204 for a record id, the key store is as
    it was, the record ids that name another document find what they found
    before, and on the server as it then is every authorised encrypt or
    decrypt request for the deleted id is answered 400 "DEK not found",
    the random source untouched. *)
Theorem deleted_key_unusable (s s' : server.Server) (idA : auth.Identity)
    (dekID : string) :
  server.DeleteDataKeyHandler s
    (requestOf idA (Some {| server.DEKID := dekID |}))
  = (Sent StatusNoContent NoBody, s') ->
  server.KeyStore s' = server.KeyStore s
  /\ (forall (id : auth.Identity) (jsonData : bytes) (rnd : rand.Reader),
         dataRole id ->
         server.EncryptHandler s'
           (requestOf id (Some {| server.EncDEKID := dekID;
                                  server.JSONData := jsonData |}))
           rnd
         = (http_Error "DEK not found" StatusBadRequest, rnd))
  /\ (forall (id : auth.Identity) (ct : string),
         dataRole id ->
         server.DecryptHandler s'
           (requestOf id (Some {| server.DecDEKID := dekID;
                                  server.Ciphertext := ct |}))
         = server.DecryptFailed (http_Error "DEK not found" StatusBadRequest))
  /\ exists oid : mongo.ObjectID,
       mongo.ObjectIDFromHex dekID = Ok oid
       /\ forall (other : string) (oid' : mongo.ObjectID),
            mongo.ObjectIDFromHex other = Ok oid' -> oid' <> oid ->
            storage.GetDEK (server.DEKStore s') other
            = storage.GetDEK (server.DEKStore s) other.
Proof.
  unfold server.DeleteDataKeyHandler.
  cbn [server.getIdentity requestOf ctxIdentity decoded server.DEKID].
  destruct (auth.IsAuthorized idA _); [discriminate |].
  destruct (storage.DeleteDEK _ dekID) as [[u | e | msg] d'] eqn:Hdel;
    try discriminate.
  intros Heq. assert (Hs' : s' = server.withDEKStore s d') by congruence.
  subst s'. clear Heq.
  apply DeleteDEK_inv in Hdel as (oid & Hoid & Hup & ->).
  cbn [server.withDEKStore server.KeyStore server.DEKStore].
  assert (Hgone :
             storage.GetDEK
               {| storage.collection :=
                    {| mongo.docs :=
                         delete oid (mongo.docs
                                       (storage.collection (server.DEKStore s)));
                       mongo.nextID :=
                         mongo.nextID (storage.collection (server.DEKStore s));
                       mongo.reachable := true |} |} dekID
             = Err ("no DEK found with ID " +:+ dekID)).
  { unfold storage.GetDEK. rewrite Hoid. cbn [wrap_err bind].
    unfold mongo.FindOne. cbn [storage.collection mongo.reachable mongo.docs negb].
    now rewrite lookup_delete_eq. }
  split; [reflexivity |]. split; [| split].
  - intros id jsonData rnd Hrole.
    apply (data_gate id auth.ActionEncrypt) in Hrole; [| now (right; left)].
    unfold server.EncryptHandler.
    cbn [server.getIdentity requestOf ctxIdentity decoded server.EncDEKID
         server.DEKStore server.withDEKStore].
    now rewrite Hrole, Hgone.
  - intros id ct Hrole.
    apply (data_gate id auth.ActionDecrypt) in Hrole; [| now (right; right)].
    unfold server.DecryptHandler.
    cbn [server.getIdentity requestOf ctxIdentity decoded server.DecDEKID
         server.DEKStore server.withDEKStore].
    now rewrite Hrole, Hgone.
  - exists oid. split; [exact Hoid |]. intros other oid' Hother Hne.
    unfold storage.GetDEK. rewrite Hother. cbn [wrap_err bind].
    unfold mongo.FindOne.
    cbn [storage.collection mongo.reachable mongo.docs negb]. rewrite Hup.
    cbn [negb]. now rewrite lookup_delete_ne by congruence.
Qed.

Lemma deleted_key_unusable_witness :
  server.EncryptHandler
    (snd (server.DeleteDataKeyHandler cx_server
            (requestOf (asRole "alice" auth.RoleAdmin)
               (Some {| server.DEKID := "000000000000000000000000" |}))))
    (requestOf (asRole "uid-2" auth.RoleService)
       (Some {| server.EncDEKID := "000000000000000000000000";
                server.JSONData := [123; 125] |}))
    cx_wrap_rnd
  = (http_Error "DEK not found" StatusBadRequest, cx_wrap_rnd).
Proof.
  destruct (deleted_key_unusable cx_server
              (snd (server.DeleteDataKeyHandler cx_server
                      (requestOf (asRole "alice" auth.RoleAdmin)
                         (Some {| server.DEKID := "000000000000000000000000" |}))))
              (asRole "alice" auth.RoleAdmin) "000000000000000000000000")
    as (_ & Henc & _).
  - vm_compute. reflexivity.
  - apply Henc. right. reflexivity.
Defined.

(** * From MASTER_KEYS to the key store *)

Section ConfigFacts.

Implicit Types (s a r : string) (sep c : ascii).

Lemma hasChar_app c a r : hasChar c (a +:+ r) = hasChar c a || hasChar c r.
Proof.
  induction a as [| x a IH]; [reflexivity |].
  simpl. rewrite IH. now rewrite orb_assoc.
Qed.

Lemma cut_None sep s : hasChar sep s = false -> gostrings.cut sep s = None.
Proof.
  induction s as [| x s IH]; [reflexivity |].
  cbn [hasChar gostrings.cut]. intros Hno.
  apply orb_false_iff in Hno as [Hx Hs]. rewrite Hx. now rewrite IH.
Qed.

Lemma cut_app sep a r :
  hasChar sep a = false -> gostrings.cut sep (a +:+ String sep r) = Some (a, r).
Proof.
  induction a as [| x a IH]; simpl.
  - intros _. now rewrite Ascii.eqb_refl.
  - intros Hno. apply orb_false_iff in Hno as [Hx Ha].
    rewrite Hx. now rewrite IH.
Qed.

Lemma cut_Some sep s a r :
  gostrings.cut sep s = Some (a, r) ->
  s = a +:+ String sep r /\ hasChar sep a = false.
Proof.
  revert a. induction s as [| x s IH]; intros a; [discriminate |].
  cbn [gostrings.cut].
  destruct (Ascii.eqb_spec x sep) as [-> | Hne].
  - intros [= <- <-]. split; reflexivity.
  - destruct (gostrings.cut sep s) as [[a' r'] |]; [| discriminate].
    intros [= <- <-]. destruct (IH a' eq_refl) as [-> Hno].
    split; [reflexivity |]. cbn [hasChar]. rewrite Hno.
    apply Ascii.eqb_neq in Hne. now rewrite Hne.
Qed.

Lemma Split_nosep sep s : hasChar sep s = false -> gostrings.Split s sep = [s].
Proof.
  induction s as [| x s IH]; [reflexivity |].
  cbn [hasChar gostrings.Split]. intros Hno.
  apply orb_false_iff in Hno as [Hx Hs]. rewrite Hx. now rewrite IH.
Qed.

Lemma Split_app sep a r :
  hasChar sep a = false ->
  gostrings.Split (a +:+ String sep r) sep = a :: gostrings.Split r sep.
Proof.
  induction a as [| x a IH]; simpl.
  - intros _. now rewrite Ascii.eqb_refl.
  - intros Hno. apply orb_false_iff in Hno as [Hx Ha].
    rewrite Hx. now rewrite IH.
Qed.

Lemma Split_nonempty sep s : gostrings.Split s sep <> [].
Proof.
  destruct s as [| x s]; [discriminate |]. cbn [gostrings.Split].
  destruct (Ascii.eqb x sep); [discriminate |].
  destruct (gostrings.Split s sep); discriminate.
Qed.

Lemma Split_join sep (es : list string) :
  sep = ","%char -> es <> [] ->
  Forall (fun e => hasChar sep e = false) es ->
  gostrings.Split (joinComma es) sep = es.
Proof.
  intros -> Hne Hall. induction Hall as [| e es He Hes IH]; [congruence |].
  destruct es as [| e' es'].
  - cbn [joinComma]. now apply Split_nosep.
  - change (joinComma (e :: e' :: es'))
      with (e +:+ String "," (joinComma (e' :: es'))).
    rewrite Split_app by exact He. now rewrite IH.
Qed.

Lemma SplitN2_cut sep s :
  gostrings.SplitN2 s sep
  = match gostrings.cut sep s with Some (a, r) => [a; r] | None => [s] end.
Proof. reflexivity. Qed.

(** The loop of [ParseMasterKeys], by what it asks of each entry. *)
Lemma parseEntries_spec (es : list string) :
  forall acc ks : list config.MasterKey,
    config.parseEntries es acc = Ok ks
    <-> exists ks' : list config.MasterKey,
          ks = acc ++ ks' /\ Forall2 parsesTo es ks'.
Proof.
  induction es as [| e es IH]; intros acc ks.
  - cbn [config.parseEntries]. split.
    + intros [= <-]. exists []. split; [now rewrite app_nil_r | constructor].
    + intros (ks' & -> & Hall). inversion Hall. now rewrite app_nil_r.
  - cbn [config.parseEntries]. rewrite SplitN2_cut.
    destruct (gostrings.cut ":" e) as [[id b64] |] eqn:Hcut.
    + destruct (base64.DecodeString b64) as [keyBytes | err | msg] eqn:Hdec.
      * destruct (Nat.eqb_spec (length keyBytes) 32) as [Hlen | Hlen]; cbn [negb].
        -- rewrite IH. split.
           ++ intros (ks' & -> & Hall).
              exists ({| config.ID := id; config.Key := keyBytes |} :: ks').
              split; [now rewrite <- app_assoc |].
              constructor; [| exact Hall].
              exists b64. cbn [config.ID config.Key]. auto.
           ++ intros (ks' & -> & Hall).
              inversion Hall as [| e0 k es0 ks0 Hk Hrest]; subst.
              destruct Hk as (b64' & Hcut' & Hdec' & _).
              assert (Hid : config.ID k = id) by congruence.
              assert (Hb : b64' = b64) by congruence. subst b64'.
              assert (Hkey : config.Key k = keyBytes) by congruence.
              exists ks0. split; [| exact Hrest].
              rewrite <- app_assoc. cbn [app]. destruct k as [kid kkey].
              cbn [config.ID config.Key] in Hid, Hkey. now subst.
        -- split; [discriminate |].
           intros (ks' & _ & Hall).
           inversion Hall as [| e0 k es0 ks0 Hk Hrest]; subst.
           destruct Hk as (b64' & Hcut' & Hdec' & Hlen').
           assert (Hb : b64' = b64) by congruence. subst b64'.
           assert (Hkey : config.Key k = keyBytes) by congruence.
           congruence.
      * split; [discriminate |].
        intros (ks' & _ & Hall).
        inversion Hall as [| e0 k es0 ks0 Hk Hrest]; subst.
        destruct Hk as (b64' & Hcut' & Hdec' & _).
        assert (Hb : b64' = b64) by congruence. subst b64'. congruence.
      * split; [discriminate |].
        intros (ks' & _ & Hall).
        inversion Hall as [| e0 k es0 ks0 Hk Hrest]; subst.
        destruct Hk as (b64' & Hcut' & Hdec' & _).
        assert (Hb : b64' = b64) by congruence. subst b64'. congruence.
    + split; [discriminate |].
      intros (ks' & _ & Hall).
      inversion Hall as [| e0 k es0 ks0 Hk Hrest]; subst.
      destruct Hk as (b64' & Hcut' & _). congruence.
Qed.

(** The loop returns a key list or an error; it does not panic. *)
Lemma parseEntries_no_panic (es : list string) :
  forall (acc : list config.MasterKey) (msg : string),
    config.parseEntries es acc <> Panic msg.
Proof.
  induction es as [| e es IH]; intros acc msg; [discriminate |].
  cbn [config.parseEntries]. rewrite SplitN2_cut.
  destruct (gostrings.cut ":" e) as [[id b64] |]; [| discriminate].
  unfold base64.DecodeString.
  destruct (base64.decodeFrom _ _ _ _ _) as [keyBytes | err | msg'] eqn:Hdec.
  - destruct (negb _); [discriminate | apply IH].
  - discriminate.
  - exfalso. revert Hdec. generalize (String.list_ascii_of_string b64).
    generalize 0%nat. generalize (String.length b64).
    generalize (@nil Z) at 1. generalize (@nil Z).
    intros dst dbuf len si src. revert si dbuf dst.
    induction src as [| c src IHs]; intros si dbuf dst.
    + cbn [base64.decodeFrom]. now destruct dbuf.
    + cbn [base64.decodeFrom].
      destruct (base64.decodeChar c).
      * destruct (length dbuf =? 3)%nat; apply IHs.
      * destruct (base64.isNewline c); [apply IHs |].
        destruct (negb (base64.isPad c)); [discriminate |].
        unfold base64.afterPadding.
        destruct (length dbuf) as [| [| [| n]]]; try discriminate.
        -- destruct (base64.skipNewlines src (S si)) as [[| c2 rest2] si2];
             [discriminate |].
           destruct (negb (base64.isPad c2)); [discriminate |].
           destruct (base64.skipNewlines rest2 (S si2)) as [[| c3 rest3] si3];
             discriminate.
        -- destruct (base64.skipNewlines src (S si)) as [[| c3 rest3] si3];
             discriminate.
Qed.

Lemma digit_plain (v : Z) :
  Ascii.eqb (base64.digit v) ","%char = false
  /\ Ascii.eqb (base64.digit v) ":"%char = false.
Proof.
  unfold base64.digit.
  assert (Hr : 0 <= Z.land v 63 < Z.of_nat 64).
  { change 63 with (Z.ones 6). rewrite Z.land_ones by lia.
    apply Z.mod_pos_bound. lia. }
  pose (P := fun x : Z =>
    let d := nth (Z.to_nat x) base64.encodeStd "="%char in
    negb (Ascii.eqb d ","%char) && negb (Ascii.eqb d ":"%char)).
  assert (HP : P (Z.land v 63) = true).
  { apply (range_forall 64); [vm_compute; reflexivity | exact Hr]. }
  unfold P in HP. cbv zeta in HP.
  apply andb_true_iff in HP as [H1 H2].
  apply negb_true_iff in H1, H2. auto.
Qed.

Lemma EncodeToString_plain (n : nat) :
  forall bs : bytes,
    (length bs <= n)%nat ->
    hasChar "," (base64.EncodeToString bs) = false
    /\ hasChar ":" (base64.EncodeToString bs) = false.
Proof.
  induction n as [n IH] using lt_wf_ind. intros bs Hlen.
  destruct bs as [| a [| b [| c r]]]; cbn [base64.EncodeToString hasChar].
  - auto.
  - rewrite !(proj1 (digit_plain _)), !(proj2 (digit_plain _)). split; reflexivity.
  - rewrite !(proj1 (digit_plain _)), !(proj2 (digit_plain _)). split; reflexivity.
  - rewrite !(proj1 (digit_plain _)), !(proj2 (digit_plain _)).
    cbn [orb]. apply (IH (length r)); [cbn [length] in Hlen; lia | lia].
Qed.

End ConfigFacts.

Section ConfigMore.

Lemma Split_head_nocolon (s : string) :
  hasChar ":" s = false ->
  exists e rest, gostrings.Split s "," = e :: rest /\ hasChar ":" e = false.
Proof.
  induction s as [| x s IH]; intros Hno.
  - exists EmptyString, []. split; reflexivity.
  - cbn [hasChar] in Hno. apply orb_false_iff in Hno as [Hx Hs].
    cbn [gostrings.Split]. destruct (Ascii.eqb x ","%char).
    + exists EmptyString, (gostrings.Split s ","). split; reflexivity.
    + destruct (IH Hs) as (e & rest & -> & He).
      exists (String x e), rest. split; [reflexivity |].
      cbn [hasChar]. now rewrite Hx, He.
Qed.

Lemma entryOf_nocomma (k : config.MasterKey) :
  hasChar "," (config.ID k) = false -> hasChar "," (entryOf k) = false.
Proof.
  intros Hid. unfold entryOf. rewrite hasChar_app, Hid. cbn [hasChar orb].
  replace (Ascii.eqb ":" ",") with false by reflexivity. cbn [orb].
  exact (proj1 (EncodeToString_plain _ _ (Nat.le_refl _))).
Qed.

Lemma parseEntries_written (ks : list config.MasterKey) :
  Forall writableKey ks ->
  forall acc, config.parseEntries (map entryOf ks) acc = Ok (acc ++ ks).
Proof.
  induction 1 as [| k ks (_ & Hcolon & Hlen & Hbytes) _ IH]; intros acc.
  - cbn [map config.parseEntries]. now rewrite app_nil_r.
  - cbn [map config.parseEntries]. rewrite SplitN2_cut.
    unfold entryOf at 1. rewrite cut_app by exact Hcolon.
    rewrite base64_roundtrip by exact Hbytes.
    apply Nat.eqb_eq in Hlen. rewrite Hlen. cbn [negb].
    rewrite IH, <- app_assoc. now destruct k.
Qed.

Lemma storageMasterKeys_key32 (ks : list config.MasterKey) :
  Forall (fun k => length (config.Key k) = 32%nat) ks ->
  Forall key32 (main.storageMasterKeys ks).
Proof.
  intros Hall. unfold main.storageMasterKeys. apply Forall_map.
  eapply Forall_impl; [exact Hall |]. intros k Hk. exact Hk.
Qed.

Lemma parsesTo_key32 (es : list string) (ks : list config.MasterKey) :
  Forall2 parsesTo es ks -> Forall (fun k => length (config.Key k) = 32%nat) ks.
Proof.
  induction 1 as [| e k es ks (b64 & _ & _ & Hlen) _ IH]; constructor; assumption.
Qed.

End ConfigMore.

(** X16.  What [ParseMasterKeys] accepts.  It returns a key list exactly
    when the value of MASTER_KEYS, cut at its commas, gives one entry per
    key, in order, each entry being the key's id, a colon (the first one of
    the entry) and a base64 text that decodes to the key's 32 bytes.  It
    does not panic; a value with no colon at all, the empty one included, is
    refused as "invalid MASTER_KEYS format; expected id:base64key". *)
Theorem ParseMasterKeys_entries (MasterKeys : string) :
  (forall ks : list config.MasterKey,
      config.ParseMasterKeys MasterKeys = Ok ks
      <-> Forall2 parsesTo (gostrings.Split MasterKeys ",") ks)
  /\ (forall msg : string, config.ParseMasterKeys MasterKeys <> Panic msg)
  /\ (hasChar ":" MasterKeys = false ->
      config.ParseMasterKeys MasterKeys
      = Err "invalid MASTER_KEYS format; expected id:base64key").
Proof.
  unfold config.ParseMasterKeys. split; [| split].
  - intros ks. rewrite parseEntries_spec. split.
    + now intros (ks' & -> & Hall).
    + intros Hall. now exists ks.
  - intros msg. apply parseEntries_no_panic.
  - intros Hno. destruct (Split_head_nocolon _ Hno) as (e & rest & -> & He).
    cbn [config.parseEntries]. rewrite SplitN2_cut.
    now rewrite cut_None by exact He.
Qed.

Lemma ParseMasterKeys_entries_witness :
  config.ParseMasterKeys "k1;k2"
  = Err "invalid MASTER_KEYS format; expected id:base64key".
Proof.
  apply (ParseMasterKeys_entries "k1;k2"). reflexivity.
Defined.

(** X17.  From MASTER_KEYS to the key store in [main].  Whenever
    [ParseMasterKeys] returns a key list, the list is not empty and
    [NewMasterKeyStore] accepts it: the store's active id is the id of the
    first entry, every entry's id names a 32-byte key in it, and the store is
    a reachable one.  So the process never ends with "Failed to initialize
    MasterKeyStore": when it ends here, it is with "Failed to parse master
    keys: ..." and the error of [ParseMasterKeys]. *)
Theorem initKeyStore_outcomes (MasterKeys : string) :
  (forall ks : list config.MasterKey,
      config.ParseMasterKeys MasterKeys = Ok ks ->
      exists (k0 : config.MasterKey) (rest : list config.MasterKey)
             (m : storage.MasterKeyStore),
        ks = k0 :: rest
        /\ main.initKeyStore MasterKeys = Ok m
        /\ storage.activeKeyID m = config.ID k0
        /\ reachable m
        /\ forall k : config.MasterKey,
             In k ks ->
             exists mk : storage.MasterKey,
               storage.masterKeys m !! config.ID k = Some mk
               /\ length (storage.Key mk) = 32%nat)
  /\ (forall e : string,
         config.ParseMasterKeys MasterKeys = Err e ->
         main.initKeyStore MasterKeys = Err ("Failed to parse master keys: " +:+ e)).
Proof.
  split.
  - intros ks Hparse. unfold main.initKeyStore. rewrite Hparse.
    unfold config.ParseMasterKeys in Hparse.
    apply parseEntries_spec in Hparse as (ks' & -> & Hall). cbn [app].
    assert (H32 := storageMasterKeys_key32 _ (parsesTo_key32 _ _ Hall)).
    destruct ks' as [| k0 rest].
    { inversion Hall as [Hsplit |]. symmetry in Hsplit.
      now apply Split_nonempty in Hsplit. }
    set (keys := main.storageMasterKeys (k0 :: rest)) in *.
    assert (Hnew : storage.NewMasterKeyStore keys
                   = Ok {| storage.masterKeys :=
                             foldl (fun acc k => <[storage.ID k := k]> acc)
                                   (∅ : gmap string storage.MasterKey) keys;
                           storage.activeKeyID := config.ID k0 |}).
    { unfold storage.NewMasterKeyStore. rewrite fillKeys_ok by exact H32.
      reflexivity. }
    exists k0, rest. eexists. split; [reflexivity |].
    rewrite Hnew. cbn [wrap_err]. split; [reflexivity |].
    split; [reflexivity |]. split; [exact (reachable_new keys _ Hnew) |].
    intros k Hin.
    pose (sk := {| storage.ID := config.ID k; storage.Key := config.Key k |}).
    assert (Hsk : In sk keys).
    { unfold keys, main.storageMasterKeys. apply in_map_iff. now exists k. }
    destruct (foldl_insert_has keys (∅ : gmap string storage.MasterKey) sk Hsk)
      as [mk Hmk].
    exists mk. cbn [storage.masterKeys]. split; [exact Hmk |].
    exact (reachable_key32 _ (reachable_new keys _ Hnew) _ _ Hmk).
  - intros e Hparse. unfold main.initKeyStore. now rewrite Hparse.
Qed.

Lemma initKeyStore_outcomes_witness :
  exists m : storage.MasterKeyStore,
    main.initKeyStore
      (joinComma [entryOf (cx_config_key "k1" 7); entryOf (cx_config_key "k2" 9)])
    = Ok m
    /\ storage.activeKeyID m = "k1".
Proof.
  destruct (initKeyStore_outcomes
              (joinComma [entryOf (cx_config_key "k1" 7);
                          entryOf (cx_config_key "k2" 9)])) as [Hok _].
  destruct (Hok [cx_config_key "k1" 7; cx_config_key "k2" 9])
    as (k0 & rest & m & Hks & Hinit & Hactive & _).
  - vm_compute. reflexivity.
  - exists m. split; [exact Hinit |]. rewrite Hactive.
    now injection Hks as <- _.
Defined.

(** X18.  Writing MASTER_KEYS and reading it back.  For a non-empty list of
    keys whose ids have no comma and no colon and whose keys are 32 bytes,
    the entries "id:base64(key)" joined by commas parse to that list. *)
Theorem ParseMasterKeys_roundtrip (ks : list config.MasterKey) :
  ks <> [] -> Forall writableKey ks ->
  config.ParseMasterKeys (joinComma (map entryOf ks)) = Ok ks.
Proof.
  intros Hne Hall. unfold config.ParseMasterKeys.
  rewrite Split_join.
  - now rewrite parseEntries_written.
  - reflexivity.
  - destruct ks; [congruence | discriminate].
  - apply Forall_map. eapply Forall_impl; [exact Hall |].
    intros k (Hcomma & _). now apply entryOf_nocomma.
Qed.

Lemma ParseMasterKeys_roundtrip_witness :
  config.ParseMasterKeys
    (joinComma (map entryOf [cx_config_key "k1" 7; cx_config_key "k2" 9]))
  = Ok [cx_config_key "k1" 7; cx_config_key "k2" 9].
Proof.
  apply ParseMasterKeys_roundtrip; [discriminate |].
  constructor; [| constructor; [| constructor]];
    (split; [reflexivity |]; split; [reflexivity |]; split; [reflexivity |];
     apply forallb_is_byte; reflexivity).
Defined.

(** * The handlers of the server without a DEK store *)

(** X19.  The store-less server end to end.  After its
    [GenerateDataKeyHandler] answered 200 on a reachable key store whose keys
    consist of bytes, an encrypt request that sends back the [encryptedDEK]
    and [masterKeyID] fields with a base64 plaintext is answered 200 with a
    ciphertext, and the decrypt request with that ciphertext is answered 200
    with the same base64 plaintext; any rotations may come before either
    request, provided none returned that master-key id.  The [plaintextDEK]
    field of the first response is the key: it decodes to a DEK under which
    [DecryptAES256GCM] opens the decoded ciphertext. *)
Theorem nostore_roundtrip (s : server_nostore.Server)
    (idG idE idD : auth.Identity)
    (req : option server_nostore.GenerateDataKeyRequest)
    (rndG restG rndE : rand.Reader) (pd ed A : string)
    (rndsE rndsD : list rand.Reader) (p : bytes) :
  reachable (server_nostore.KeyStore s) ->
  keysOfBytes (server_nostore.KeyStore s) ->
  server_nostore.GenerateDataKeyHandler s (requestOf idG req) rndG
  = (Sent StatusOK
       (JSON [("plaintextDEK", pd); ("encryptedDEK", ed); ("masterKeyID", A)]),
     restG) ->
  dataRole idE -> dataRole idD ->
  Forall is_byte rndG -> Forall is_byte rndE -> Forall is_byte p ->
  (12 <= length rndE)%nat ->
  ~ In A (rotatedIDs rndsE) -> ~ In A (rotatedIDs rndsD) ->
  exists (ct : string) (c dek : bytes),
    server_nostore.EncryptHandler (nostoreAfterRotations s rndsE)
      (requestOf idE
         (Some {| server_nostore.EncMasterKeyID := A;
                  server_nostore.EncEncryptedDEK := ed;
                  server_nostore.Plaintext := base64.EncodeToString p |}))
      rndE
    = (Sent StatusOK (JSON [("ciphertext", ct)]), skipn 12 rndE)
    /\ server_nostore.DecryptHandler (nostoreAfterRotations s rndsD)
         (requestOf idD
            (Some {| server_nostore.DecMasterKeyID := A;
                     server_nostore.DecEncryptedDEK := ed;
                     server_nostore.Ciphertext := ct |}))
       = Sent StatusOK (JSON [("plaintext", base64.EncodeToString p)])
    /\ base64.DecodeString pd = Ok dek
    /\ base64.DecodeString ct = Ok c
    /\ crypto.DecryptAES256GCM dek c = Ok p.
Proof.
  intros Hreach Hkeys Hgen HrE HrD HbG HbE Hbp Hle HfE HfD.
  unfold server_nostore.GenerateDataKeyHandler in Hgen.
  cbn [requestOf ctxIdentity decoded] in Hgen.
  destruct (auth.IsAuthorized idG _); [discriminate |].
  destruct req as [req |]; [| discriminate].
  destruct (crypto.GenerateKey rndG) as [[dek | e | msg] rnd1] eqn:Hkey;
    try discriminate.
  destruct (storage.EncryptDataKey _ dek rnd1) as [[[E A'] | e | msg] rnd2] eqn:Hwrap;
    try discriminate.
  assert (Hpd : pd = base64.EncodeToString dek) by congruence.
  assert (Hed : ed = base64.EncodeToString E) by congruence.
  assert (HA : A' = A) by congruence.
  subst pd ed A'. clear Hgen.
  apply GenerateKey_inv in Hkey as (Hdek & Hrnd1 & Hlen).
  apply EncryptDataKey_inv in Hwrap as (mk & blk & Hmk & Hblk & HAmk & Hle1 & HE & _).
  assert (Hown := reachable_own_id _ Hreach _ _ Hmk).
  assert (HmkA : storage.masterKeys (server_nostore.KeyStore s) !! A = Some mk).
  { rewrite HAmk, Hown. exact Hmk. }
  assert (Hn : length (firstn 12 rnd1) = 12%nat) by (rewrite length_firstn; lia).
  assert (Hunwrap : storage.DecryptDataKey (server_nostore.KeyStore s) E A = Ok dek).
  { rewrite HE. now apply (DecryptDataKey_sealed _ _ mk blk). }
  assert (Hbdek : Forall is_byte dek) by (rewrite Hdek; now apply Forall_take).
  assert (HbytesE : Forall is_byte E).
  { rewrite HE. apply Forall_app. split.
    - apply Forall_take. rewrite Hrnd1. now apply Forall_drop.
    - apply sealed_byte; [| exact Hbdek].
      apply NewCipher_inv in Hblk. subst blk. cbn [gcmOf cipher.block aes.enc].
      apply KeyExpansion_byte. exact (Hkeys _ _ Hmk). }
  destruct (payload_roundtrip dek p rndE) as (c & Henc & Hb64 & Hdec);
    [right; right; exact Hlen | exact Hbdek | exact Hbp | exact HbE | exact Hle |].
  exists (base64.EncodeToString c), c, dek.
  split; [| split; [| split; [| split]]].
  - unfold server_nostore.EncryptHandler.
    cbn [requestOf ctxIdentity decoded server_nostore.EncMasterKeyID
         server_nostore.EncEncryptedDEK server_nostore.Plaintext
         nostoreAfterRotations server_nostore.KeyStore].
    apply (data_gate idE auth.ActionEncrypt) in HrE; [| now (right; left)].
    rewrite HrE, !base64_roundtrip by assumption.
    now rewrite rotations_unwrap, Hunwrap, Henc by exact HfE.
  - unfold server_nostore.DecryptHandler.
    cbn [requestOf ctxIdentity decoded server_nostore.DecMasterKeyID
         server_nostore.DecEncryptedDEK server_nostore.Ciphertext
         nostoreAfterRotations server_nostore.KeyStore].
    apply (data_gate idD auth.ActionDecrypt) in HrD; [| now (right; right)].
    rewrite HrD, base64_roundtrip, Hb64 by assumption.
    now rewrite rotations_unwrap, Hunwrap, Hdec by exact HfD.
  - now apply base64_roundtrip.
  - exact Hb64.
  - exact Hdec.
Qed.

Lemma nostore_roundtrip_witness :
  exists ct : string,
    server_nostore.DecryptHandler
      (nostoreAfterRotations {| server_nostore.KeyStore := cx_store |}
         [cx_rotate_other])
      (requestOf (asRole "uid-2" auth.RoleService)
         (Some {| server_nostore.DecMasterKeyID := cx_id;
                  server_nostore.DecEncryptedDEK :=
                    base64.EncodeToString cx_wrapped;
                  server_nostore.Ciphertext := ct |}))
    = Sent StatusOK (JSON [("plaintext", base64.EncodeToString [123; 125])]).
Proof.
  destruct (nostore_roundtrip {| server_nostore.KeyStore := cx_store |}
              (asRole "uid-2" auth.RoleService)
              (asRole "uid-2" auth.RoleService)
              (asRole "uid-2" auth.RoleService)
              (Some {| server_nostore.KeyID := "" |})
              cx_generate_rnd [] cx_wrap_rnd
              (base64.EncodeToString (firstn 32 cx_generate_rnd))
              (base64.EncodeToString cx_wrapped)
              cx_id [] [cx_rotate_other] [123; 125])
    as (ct & c & dek & _ & Hdec & _).
  - apply (reachable_new [ {| storage.ID := cx_id; storage.Key := repeat 7 32 |} ]).
    reflexivity.
  - intros id mk Hmk. unfold cx_store in Hmk.
    cbn [server_nostore.KeyStore storage.masterKeys] in Hmk.
    apply lookup_singleton_Some in Hmk as [_ <-]. cbn [storage.Key].
    apply forallb_is_byte. reflexivity.
  - vm_compute. reflexivity.
  - right. reflexivity.
  - right. reflexivity.
  - apply forallb_is_byte. reflexivity.
  - apply forallb_is_byte. reflexivity.
  - apply forallb_is_byte. reflexivity.
  - vm_compute. lia.
  - intros [].
  - vm_compute. intros [H | []]. discriminate.
  - exists ct. exact Hdec.
Defined.

(** * The middleware *)

Section UserStoreFacts.

Lemma middleware_passed (Sscanf_Bearer VerifyIDToken : string -> result string)
    (users : storage.MongoUserStore) (authHeader : string) (id : auth.Identity) :
  server.firebaseAuthMiddleware Sscanf_Bearer VerifyIDToken users authHeader
  = server.Passed id ->
  exists (token : string) (user : storage.User),
    Sscanf_Bearer authHeader = Ok token
    /\ VerifyIDToken token = Ok (auth.Name id)
    /\ storage.GetUserByFirebaseUID users (auth.Name id) = Ok user
    /\ auth.IdRole id = storage.Role user.
Proof.
  unfold server.firebaseAuthMiddleware.
  destruct (String.eqb authHeader ""); [discriminate |].
  destruct (Sscanf_Bearer authHeader) as [token | e | msg] eqn:Hscan;
    try discriminate.
  destruct (String.eqb token ""); [discriminate |].
  destruct (VerifyIDToken token) as [uid | e | msg] eqn:Hver; try discriminate.
  destruct (storage.GetUserByFirebaseUID users uid) as [user | e | msg] eqn:Hget;
    try discriminate.
  intros [= <-]. cbn [auth.Name auth.IdRole].
  exists token, user. split; [reflexivity |]. split; [exact Hver |].
  split; [exact Hget | reflexivity].
Qed.

Lemma roleRecord_of (Sscanf_Bearer VerifyIDToken : string -> result string)
    (users : storage.MongoUserStore) (authHeader : string) (id : auth.Identity)
    (roles : list auth.Role) :
  server.firebaseAuthMiddleware Sscanf_Bearer VerifyIDToken users authHeader
  = server.Passed id ->
  In (auth.IdRole id) roles ->
  roleRecord Sscanf_Bearer VerifyIDToken users authHeader roles.
Proof.
  intros Hpass Hin.
  apply middleware_passed in Hpass as (token & user & Hscan & Hver & Hget & Hrole).
  exists token, (auth.Name id), user.
  split; [exact Hscan |]. split; [exact Hver |]. split; [exact Hget |].
  now rewrite <- Hrole.
Qed.

Lemma dataRole_named (id : auth.Identity) :
  dataRole id -> In (auth.IdRole id) [auth.RoleAdmin; auth.RoleService].
Proof. intros [H | H]; rewrite H; cbn; auto. Qed.

End UserStoreFacts.

(** X21.  No change without a role on record.  Through the middleware, a
    rotate request changes the server only if its header holds a token that
    Firebase resolves to a UID for which [GetUserByFirebaseUID] returns a
    user whose role is ADMIN; the same for a delete request; and a generate
    request changes the server only if that user's role is ADMIN or SERVICE.
    This holds for every scanner of the header, every verifier of the token
    and every user store. *)
Theorem routes_change_needs_role
    (Sscanf_Bearer VerifyIDToken : string -> result string)
    (users : storage.MongoUserStore) (s : server.Server) (authHeader : string)
    (rnd : rand.Reader) (b : option unit) (del : option server.DeleteDEKRequest) :
  (snd (fst (server.route Sscanf_Bearer VerifyIDToken users
               (fun r => server.RotateMasterKeyHandler s r rnd)
               (fun resp => (resp, s, rnd)) authHeader b)) <> s ->
   roleRecord Sscanf_Bearer VerifyIDToken users authHeader [auth.RoleAdmin])
  /\ (snd (server.route Sscanf_Bearer VerifyIDToken users
             (fun r => server.DeleteDataKeyHandler s r)
             (fun resp => (resp, s)) authHeader del) <> s ->
      roleRecord Sscanf_Bearer VerifyIDToken users authHeader [auth.RoleAdmin])
  /\ (snd (fst (server.route Sscanf_Bearer VerifyIDToken users
                  (fun r => server.GenerateDataKeyHandler s r rnd)
                  (fun resp => (resp, s, rnd)) authHeader b)) <> s ->
      roleRecord Sscanf_Bearer VerifyIDToken users authHeader
        [auth.RoleAdmin; auth.RoleService]).
Proof.
  unfold server.route.
  destruct (server.firebaseAuthMiddleware _ _ _ authHeader) as [resp | id] eqn:Hmw.
  { cbn [fst snd]. repeat split; intros Hne; now elim Hne. }
  assert (Hadmin : auth.IsAuthorized id auth.ActionRotateMasterKey = None ->
            roleRecord Sscanf_Bearer VerifyIDToken users authHeader
              [auth.RoleAdmin]).
  { intros Ha. apply rotate_gate in Ha.
    apply (roleRecord_of _ _ _ _ id); [exact Hmw |]. rewrite Ha. now left. }
  split; [| split].
  - unfold server.RotateMasterKeyHandler. cbn [server.getIdentity ctxIdentity].
    destruct (auth.IsAuthorized id auth.ActionRotateMasterKey) eqn:Ha;
      [intros Hne; now elim Hne | intros _; now apply Hadmin].
  - unfold server.DeleteDataKeyHandler. cbn [server.getIdentity ctxIdentity].
    destruct (auth.IsAuthorized id auth.ActionRotateMasterKey) eqn:Ha;
      [intros Hne; now elim Hne | intros _; now apply Hadmin].
  - unfold server.GenerateDataKeyHandler. cbn [server.getIdentity ctxIdentity].
    destruct (auth.IsAuthorized id auth.ActionGenerateDataKey) eqn:Ha;
      [intros Hne; now elim Hne | intros _].
    apply (data_gate id auth.ActionGenerateDataKey) in Ha; [| now left].
    apply (roleRecord_of _ _ _ _ id); [exact Hmw |]. now apply dataRole_named.
Qed.

Lemma routes_change_needs_role_witness :
  roleRecord cx_scan cx_verify cx_users "Bearer tok-1" [auth.RoleAdmin].
Proof.
  destruct (routes_change_needs_role cx_scan cx_verify cx_users cx_server
              "Bearer tok-1" cx_rotate_other None None) as [Hrotate _].
  apply Hrotate. intros Heq.
  apply (f_equal (fun s => storage.activeKeyID (server.KeyStore s))) in Heq.
  vm_compute in Heq. discriminate Heq.
Defined.

Section MiddlewareFacts.



End MiddlewareFacts.


